(** * A first-fit arena allocator and its shared-memory wrapper

    Shallow embedding of [static_allocator.cpp] and [shared_allocator.cpp],
    and the properties of the two classes.

    - [size_t] and pointers are 64-bit words: integers in [Z] reduced modulo
      [2^64] after every operation; [unsigned int] is reduced modulo [2^32].
    - The [sizeof] values the code depends on, and the size of the element
      type [T], are the fields of the class [Layout]; the general theorems
      hold for every layout, the scenarios are run on x86-64 with [T = int].
    - Memory is kept per structure field: the [allocator_info_t] headers by
      address, and the [d.next] and [d.size] fields of the [block_h] headers
      by the address of the block.  A field that was never written has no
      value; reading it is a fault.  Overlap between differently placed
      structures is not represented.
    - A method is a function from the memory to an [outcome]: a normal
      return, a thrown C++ exception, a fault (an access the C++ abstract
      machine gives no meaning to), each with the memory at that point, a
      wait that never ends, or the exhaustion of the loop budget.  The two
      loops over the free list take their budget of iterations as the
      argument [fuel].
    - The shared region is modelled for one process at a time: the control
      header, the semaphore as its value, the names of the shared memory
      objects, and the POSIX calls as a trace of events. *)

From stdpp Require Import gmap strings list.
From Stdlib Require Import ZArith Lia.

Local Open Scope Z_scope.

(** ** Machine arithmetic *)

Definition u64 (z : Z) : Z := z mod 2 ^ 64.
Definition u32 (z : Z) : Z := z mod 2 ^ 32.

Definition add64 (a b : Z) : Z := u64 (a + b).
Definition sub64 (a b : Z) : Z := u64 (a - b).
Definition mul64 (a b : Z) : Z := u64 (a * b).

(** [sizeof(block_h)], [sizeof(allocator_info_t)], [sizeof(T)] and
    [sizeof(shared_map_info_t)] of the target. *)
Class Layout := {
  unit_size : Z;
  info_size : Z;
  sizeof_T : Z;
  map_info_size : Z
}.

(** The values on x86-64 Linux with [T = int]: [max_align_t] makes
    [block_h] 32 bytes, [allocator_info_t] is five 8-byte fields, and
    [shared_map_info_t] is a 32-byte [sem_t], a padded counter, two words and
    a 33-byte name, rounded to 96. *)
Definition lp64_int : Layout :=
  {| unit_size := 32; info_size := 40; sizeof_T := 4; map_info_size := 96 |}.

(** What the proofs need of a layout. *)
Record layout_ok (L : Layout) : Prop := {
  unit_size_min : 2 <= unit_size;
  info_size_pos : 0 < info_size;
  sizeof_T_pos : 0 < sizeof_T;
  map_info_size_pos : 0 < map_info_size;
  overhead_small : info_size + 2 * unit_size < 2 ^ 64
}.

(** ** Outcomes *)

Inductive exception :=
| bad_alloc
| invalid_argument (what : string)
| runtime_error (what : string)
| system_error (what : string).

Inductive fault :=
| null_dereference
| indeterminate_read (addr : Z)
| unmapped_access (addr : Z).

Inductive outcome (St A : Type) :=
| Ret (a : A) (s : St)
| Throw (e : exception) (s : St)
| Fault (f : fault) (s : St)
| Blocked
| OutOfFuel.

Arguments Ret {St A} a s.
Arguments Throw {St A} e s.
Arguments Fault {St A} f s.
Arguments Blocked {St A}.
Arguments OutOfFuel {St A}.

Definition M (St A : Type) : Type := St -> outcome St A.

Definition ret {St A} (a : A) : M St A := fun s => Ret a s.
Definition throw {St A} (e : exception) : M St A := fun s => Throw e s.

Definition bind {St A B} (m : M St A) (k : A -> M St B) : M St B :=
  fun s =>
    match m s with
    | Ret a s' => k a s'
    | Throw e s' => Throw e s'
    | Fault f s' => Fault f s'
    | Blocked => Blocked
    | OutOfFuel => OutOfFuel
    end.

Notation "x <- m ;; k" := (bind m (fun x => k))
  (at level 100, m at next level, right associativity).
Notation "m ;;; k" := (bind m (fun _ => k))
  (at level 100, right associativity).

(** ** Memory *)

(** [allocator_info_t] *)
Record allocator_info_t := {
  static_memory_map : Z;
  free_memory_map : Z;
  capacity : Z;
  free_size : Z;
  free_list : Z
}.

Definition with_free_list (v : Z) (i : allocator_info_t) : allocator_info_t :=
  {| static_memory_map := static_memory_map i;
     free_memory_map := free_memory_map i;
     capacity := capacity i;
     free_size := free_size i;
     free_list := v |}.

Definition with_free_size (v : Z) (i : allocator_info_t) : allocator_info_t :=
  {| static_memory_map := static_memory_map i;
     free_memory_map := free_memory_map i;
     capacity := capacity i;
     free_size := v;
     free_list := free_list i |}.

(** The memory: [infos] holds the [allocator_info_t] structures, [d_next] and
    [d_size] the two fields of [block_h], each by address. *)
Record memory := {
  infos : gmap Z allocator_info_t;
  d_next : gmap Z Z;
  d_size : gmap Z Z
}.

Definition empty_memory : memory :=
  {| infos := ∅; d_next := ∅; d_size := ∅ |}.

(** [*p] for an [allocator_info_t *p] *)
Definition get_info (p : Z) : M memory allocator_info_t :=
  fun m =>
    if p =? 0 then Fault null_dereference m
    else match infos m !! p with
         | Some i => Ret i m
         | None => Fault (unmapped_access p) m
         end.

Definition put_info (p : Z) (i : allocator_info_t) : M memory unit :=
  fun m =>
    if p =? 0 then Fault null_dereference m
    else Ret tt {| infos := <[p := i]> (infos m);
                   d_next := d_next m; d_size := d_size m |}.

(** [p->d.next] and [p->d.size], read and written *)
Definition get_next (p : Z) : M memory Z :=
  fun m =>
    if p =? 0 then Fault null_dereference m
    else match d_next m !! p with
         | Some v => Ret v m
         | None => Fault (indeterminate_read p) m
         end.

Definition get_size (p : Z) : M memory Z :=
  fun m =>
    if p =? 0 then Fault null_dereference m
    else match d_size m !! p with
         | Some v => Ret v m
         | None => Fault (indeterminate_read p) m
         end.

Definition set_next (p v : Z) : M memory unit :=
  fun m =>
    if p =? 0 then Fault null_dereference m
    else Ret tt {| infos := infos m;
                   d_next := <[p := v]> (d_next m); d_size := d_size m |}.

Definition set_size (p v : Z) : M memory unit :=
  fun m =>
    if p =? 0 then Fault null_dereference m
    else Ret tt {| infos := infos m;
                   d_next := d_next m; d_size := <[p := v]> (d_size m) |}.

(** ** [Static_Allocator<T>] *)

(** The object itself: one pointer to the header inside the managed block. *)
Record Static_Allocator := { d_allocator_info_p : Z }.

Module Static.
Section Methods.
Context {L : Layout}.

(** [p + n] for a [block_h *p] *)
Definition block_add (p n : Z) : Z := u64 (p + n * unit_size).

(** [p - n] for a [block_h *p] *)
Definition block_sub (p n : Z) : Z := u64 (p - n * unit_size).

Definition minimum_memory_size : Z := add64 info_size (mul64 2 unit_size).

(** The constructor [Static_Allocator(static_memory_map, capacity)].  The
    five stores through [d_allocator_info_p] are one [put_info]. *)
Definition construct (static_memory_map capacity : Z)
  : M memory Static_Allocator :=
  if capacity <? minimum_memory_size then throw bad_alloc
  else
    let p := static_memory_map in
    put_info p
      {| static_memory_map := static_memory_map;
         free_memory_map :=
           sub64 (add64 static_memory_map minimum_memory_size)
                 (mul64 2 unit_size);
         capacity := capacity;
         free_size := sub64 capacity minimum_memory_size;
         free_list := 0 |} ;;;
    ret {| d_allocator_info_p := p |}.

(** Copy constructor and move assignment: the pointer is copied. *)
Definition copy (origin : Static_Allocator) : Static_Allocator :=
  {| d_allocator_info_p := d_allocator_info_p origin |}.

Definition move_assign (this origin : Static_Allocator) : Static_Allocator :=
  {| d_allocator_info_p := d_allocator_info_p origin |}.

(** The search loop of [allocate_b], one iteration per unit of [fuel],
    entered with [last] and [curr = last->d.next]. *)
Fixpoint first_fit (fuel : nat) (p n_blocks last curr : Z) : M memory Z :=
  match fuel with
  | O => fun _ => OutOfFuel
  | S fuel' =>
      sz <- get_size curr ;;
      if sz >=? n_blocks then
        curr' <- (if sz =? n_blocks then
                    nx <- get_next curr ;;
                    set_next last nx ;;;
                    ret curr
                  else
                    set_size curr (sub64 sz n_blocks) ;;;
                    sz' <- get_size curr ;;
                    let curr' := block_add curr sz' in
                    set_size curr' n_blocks ;;;
                    ret curr') ;;
        i <- get_info p ;;
        put_info p (with_free_list last i) ;;;
        i <- get_info p ;;
        put_info p
          (with_free_size (sub64 (free_size i) (mul64 n_blocks unit_size)) i) ;;;
        ret (block_add curr' 1)
      else
        i <- get_info p ;;
        if curr =? free_list i then ret 0
        else
          nx <- get_next curr ;;
          first_fit fuel' p n_blocks curr nx
  end.

(** [(n_bytes + unit_size - 1) / unit_size + 1] *)
Definition blocks_needed (n_bytes : Z) : Z :=
  add64 (sub64 (add64 n_bytes unit_size) 1 / unit_size) 1.

(** [allocate_b(n_bytes)]; the result [0] is [NULL]. *)
Definition allocate_b (this : Static_Allocator) (n_bytes : Z) (fuel : nat)
  : M memory Z :=
  let p := d_allocator_info_p this in
  if p =? 0 then throw (invalid_argument "Uninitialized static memory")
  else
    i <- get_info p ;;
    if static_memory_map i =? 0
    then throw (invalid_argument "Uninitialized static memory")
    else if n_bytes =? 0
    then throw (invalid_argument "Cannot allocate zero bytes")
    else
      let n_blocks := blocks_needed n_bytes in
      if mul64 n_blocks unit_size >? free_size i then ret 0
      else
        last <- (if free_list i =? 0 then
                   let head := free_memory_map i in
                   set_size head 0 ;;;
                   let init := block_add head 1 in
                   set_size init (free_size i / unit_size) ;;;
                   put_info p (with_free_list head i) ;;;
                   set_next init head ;;;
                   set_next head init ;;;
                   ret head
                 else ret (free_list i)) ;;
        curr <- get_next last ;;
        first_fit fuel p n_blocks last curr.

(** [allocate(n_obj)]; the line written to [std::cout] is left out. *)
Definition allocate (this : Static_Allocator) (n_obj : Z) (fuel : nat)
  : M memory Z :=
  allocate_b this (mul64 n_obj sizeof_T) fuel.

(** The bounds test of [deallocate]: [obj_addr_start > static_addr_start &&
    obj_addr_end <= static_addr_end]. *)
Definition in_bounds (i : allocator_info_t) (ptr n_obj : Z) : bool :=
  let obj_addr_start := ptr in
  let obj_addr_end := add64 obj_addr_start (mul64 n_obj sizeof_T) in
  let static_addr_start := static_memory_map i in
  let static_addr_end := add64 static_addr_start (capacity i) in
  (obj_addr_start >? static_addr_start) && (obj_addr_end <=? static_addr_end).

(** The search loop of [deallocate]: it returns the [p] the loop ends with. *)
Fixpoint locate (fuel : nat) (b p : Z) : M memory Z :=
  match fuel with
  | O => fun _ => OutOfFuel
  | S fuel' =>
      inside <- (if b >=? p then
                   pn <- get_next p ;; ret (b <? pn)
                 else ret false) ;;
      if inside : bool then ret p
      else
        pn <- get_next p ;;
        if (p >=? pn) && (b >? p) then ret p
        else
          pn <- get_next p ;;
          if (p >=? pn) && (b <? pn) then ret p
          else
            pn <- get_next p ;;
            locate fuel' b pn
  end.

(** The body of [deallocate] after the argument checks: the block header
    [b] is linked into the free list of the header at [q], searched from
    [head], and merged with the neighbours it touches. *)
Definition release (q b head : Z) (fuel : nat) : M memory unit :=
  p <- locate fuel b head ;;
  (* forward merge *)
  bs <- get_size b ;;
  pn <- get_next p ;;
  (if block_add b bs =? pn then
     pn <- get_next p ;;
     pns <- get_size pn ;;
     bs <- get_size b ;;
     set_size b (add64 bs pns) ;;;
     pn <- get_next p ;;
     pnn <- get_next pn ;;
     set_next b pnn
   else
     pn <- get_next p ;;
     set_next b pn) ;;;
  (* backward merge *)
  ps <- get_size p ;;
  (if block_add p ps =? b then
     bs <- get_size b ;;
     ps <- get_size p ;;
     set_size p (add64 ps bs) ;;;
     bn <- get_next b ;;
     set_next p bn
   else
     set_next p b) ;;;
  i <- get_info q ;;
  put_info q (with_free_list p i) ;;;
  bs <- get_size b ;;
  i <- get_info q ;;
  put_info q (with_free_size (add64 (free_size i) (mul64 bs unit_size)) i).

(** [deallocate(ptr, n_obj)] *)
Definition deallocate (this : Static_Allocator) (ptr n_obj : Z) (fuel : nat)
  : M memory unit :=
  let q := d_allocator_info_p this in
  if ptr =? 0 then throw (invalid_argument "Cannot free nullptr!")
  else
    i <- get_info q ;;
    if negb (in_bounds i ptr n_obj)
    then throw (invalid_argument "Pointer originates outside valid bounds")
    else release q (block_sub ptr 1) (free_list i) fuel.

(** [unified()]; the two warnings written to [std::cerr] are left out. *)
Definition unified (this : Static_Allocator) : M memory bool :=
  let p := d_allocator_info_p this in
  if p =? 0 then throw (runtime_error "Uninitialized allocator information")
  else
    i <- get_info p ;;
    if static_memory_map i =? 0 then ret false
    else if free_list i =? 0 then ret false
    else
      let b := free_list i in
      bn <- get_next b ;;
      bnn <- get_next bn ;;
      ret (bnn =? b).

(** [free_size()] *)
Definition free_size (this : Static_Allocator) : M memory Z :=
  let p := d_allocator_info_p this in
  if p =? 0 then throw (runtime_error "Uninitialized allocator information")
  else
    i <- get_info p ;;
    ret (free_size i).

(** [allocate(n_obj, hint)]: the hint is not looked at. *)
Definition allocate_hint (this : Static_Allocator) (n_obj hint : Z)
    (fuel : nat) : M memory Z :=
  allocate this n_obj fuel.

(** [address(r)]: a reference is the address of its object. *)
Definition address (r : Z) : Z := r.

(** [allocator_info_p()] *)
Definition allocator_info_p (this : Static_Allocator) : Z :=
  d_allocator_info_p this.

(** The destructor does nothing. *)
Definition destruct (this : Static_Allocator) : M memory unit := ret tt.

End Methods.
End Static.

(** ** [Shared_Allocator<T>] *)

(** What a handle does to the shared segment and to the operating system, in
    the order it happens: the POSIX calls, and the stores to [ref_count]. *)
Inductive event :=
| shm_open (name : string)
| ftruncate (length : Z)
| mmap (length : Z)
| close
| sem_init (sem : Z) (value : Z)
| sem_wait (sem : Z)
| sem_post (sem : Z)
| sem_destroy (sem : Z)
| munmap (addr length : Z)
| shm_unlink (name : string)
| ref_count_store (info : Z) (value : Z).

(** [shared_map_info_t]; the semaphore is its value, or [None] before
    [sem_init] and after [sem_destroy]. *)
Record shared_map_info_t := {
  sem : option Z;
  ref_count : Z;
  shm_map_ptr : Z;
  shm_map_size : Z;
  shm_map_name : string
}.

Definition with_sem (v : option Z) (h : shared_map_info_t) : shared_map_info_t :=
  {| sem := v; ref_count := ref_count h; shm_map_ptr := shm_map_ptr h;
     shm_map_size := shm_map_size h; shm_map_name := shm_map_name h |}.

Definition with_ref_count (v : Z) (h : shared_map_info_t) : shared_map_info_t :=
  {| sem := sem h; ref_count := v; shm_map_ptr := shm_map_ptr h;
     shm_map_size := shm_map_size h; shm_map_name := shm_map_name h |}.

(** The process and the system around it: the memory of the arenas, the
    mapped control headers by address, the names of the shared memory objects
    that exist, and the events so far, oldest first. *)
Record world := {
  heap : memory;
  maps : gmap Z shared_map_info_t;
  objects : gset string;
  calls : list event
}.

Definition empty_world : world :=
  {| heap := empty_memory; maps := ∅; objects := ∅; calls := [] |}.

Record Shared_Allocator := {
  d_shared_map_info_p : Z;
  d_static_allocator : Static_Allocator
}.

Definition MAX_SHM_MAP_NAME_SIZE : nat := 32.
Definition MAP_FAILED : Z := u64 (-1).
Definition SEM_VALUE_MAX : Z := 2 ^ 31 - 1.

(** The largest [off_t]: [ftruncate] takes the length as an [off_t], and a
    [size_t] above it is a negative length. *)
Definition OFF_MAX : Z := 2 ^ 63 - 1.

(** The system around the process: whether it refuses a call, given the
    calls made so far.  A call it refuses returns its failure value. *)
Class System := refuses : list event -> event -> bool.

(** A system that refuses nothing. *)
Definition obliging {OS : System} : Prop :=
  forall tr e, refuses tr e = false.

Definition obliging_system : System := fun _ _ => false.

Definition emit (e : event) : M world unit :=
  fun w => Ret tt {| heap := heap w; maps := maps w; objects := objects w;
                     calls := calls w ++ [e] |}.

(** A call whose result the code tests: the call is recorded, and the
    result is whether it succeeded. *)
Definition call {OS : System} (e : event) : M world bool :=
  fun w => Ret (negb (refuses (calls w) e))
               {| heap := heap w; maps := maps w; objects := objects w;
                  calls := calls w ++ [e] |}.

(** [*p] for a [shared_map_info_t *p] *)
Definition get_map (p : Z) : M world shared_map_info_t :=
  fun w =>
    if p =? 0 then Fault null_dereference w
    else match maps w !! p with
         | Some h => Ret h w
         | None => Fault (unmapped_access p) w
         end.

Definition put_map (p : Z) (h : shared_map_info_t) : M world unit :=
  fun w =>
    if p =? 0 then Fault null_dereference w
    else Ret tt {| heap := heap w; maps := <[p := h]> (maps w);
                   objects := objects w; calls := calls w |}.

Definition set_objects (o : gset string) : M world unit :=
  fun w => Ret tt {| heap := heap w; maps := maps w; objects := o;
                     calls := calls w |}.

Definition get_objects : M world (gset string) := fun w => Ret (objects w) w.

(** A method of the arena run on the memory of the world. *)
Definition on_heap {A} (c : M memory A) : M world A :=
  fun w =>
    let put m := {| heap := m; maps := maps w; objects := objects w;
                    calls := calls w |} in
    match c (heap w) with
    | Ret a m => Ret a (put m)
    | Throw e m => Throw e (put m)
    | Fault f m => Fault f (put m)
    | Blocked => Blocked
    | OutOfFuel => OutOfFuel
    end.

(** What [munmap(lo, hi - lo)] leaves of the memory. *)
Definition unmap_memory (lo hi : Z) (m : memory) : memory :=
  {| infos := filter (fun kv => kv.1 < lo \/ hi <= kv.1) (infos m);
     d_next := filter (fun kv => kv.1 < lo \/ hi <= kv.1) (d_next m);
     d_size := filter (fun kv => kv.1 < lo \/ hi <= kv.1) (d_size m) |}.

(** [munmap(p, length)] of the mapping whose control header is at [p]. *)
Definition unmap (p length : Z) : M world unit :=
  fun w => Ret tt {| heap := unmap_memory p (p + length) (heap w);
                     maps := delete p (maps w);
                     objects := objects w; calls := calls w |}.

Module Shared.
Section Methods.
Context {L : Layout} {OS : System}.

(** [take_sem()]: the address of the semaphore is passed to [sem_wait],
    which is the first to read the header.  [sem_wait] fails on a semaphore
    that is not initialised and when the system refuses it, and does not
    return while the value is zero. *)
Definition take_sem (p : Z) : M world unit :=
  granted <- call (sem_wait p) ;;
  h <- get_map p ;;
  match sem h with
  | None => throw (system_error "sem_wait")
  | Some v =>
      if negb granted then throw (system_error "sem_wait")
      else if v =? 0 then (fun _ => Blocked)
      else put_map p (with_sem (Some (v - 1)) h)
  end.

(** [drop_sem()]; the exception it throws names [sem_wait] as well. *)
Definition drop_sem (p : Z) : M world unit :=
  granted <- call (sem_post p) ;;
  h <- get_map p ;;
  match sem h with
  | None => throw (system_error "sem_wait")
  | Some v =>
      if negb granted || (v >=? SEM_VALUE_MAX)
      then throw (system_error "sem_wait")
      else put_map p (with_sem (Some (v + 1)) h)
  end.

(** The constructor [Shared_Allocator(shared_map_name, shared_map_size)].
    [mmap_result] is the address the kernel chooses for the mapping, or
    [MAP_FAILED]. *)
Definition construct (shared_map_name : string) (shared_map_size : Z)
    (mmap_result : Z) : M world Shared_Allocator :=
  if (MAX_SHM_MAP_NAME_SIZE + 1 <=? String.length shared_map_name)%nat
  then throw (invalid_argument "Shared map name too long")
  else
    opened <- call (shm_open shared_map_name) ;;
    if negb opened then throw (system_error "shm_open")
    else
      o <- get_objects ;;
      set_objects ({[ shared_map_name ]} ∪ o) ;;;
      let required_shared_map_size := add64 shared_map_size map_info_size in
      sized <- call (ftruncate required_shared_map_size) ;;
      if negb sized || (OFF_MAX <? required_shared_map_size)
      then throw (system_error "ftruncate")
      else
        emit (mmap required_shared_map_size) ;;;
        if mmap_result =? MAP_FAILED then throw (system_error "mmap")
        else
          emit close ;;;
          let free_shm_map_ptr := add64 mmap_result map_info_size in
          let p := mmap_result in
          put_map p {| sem := None; ref_count := 1;
                       shm_map_ptr := free_shm_map_ptr;
                       shm_map_size := shared_map_size;
                       shm_map_name := shared_map_name |} ;;;
          emit (ref_count_store p 1) ;;;
          initialised <- call (sem_init p 1) ;;
          if negb initialised then throw (system_error "sem_init")
          else
            h <- get_map p ;;
            put_map p (with_sem (Some 1) h) ;;;
            h <- get_map p ;;
            static_allocator <-
              on_heap (Static.construct (shm_map_ptr h) (shm_map_size h)) ;;
            ret {| d_shared_map_info_p := p;
                   d_static_allocator := Static.copy static_allocator |}.

(** Copy constructor *)
Definition copy (origin : Shared_Allocator) : M world Shared_Allocator :=
  let p := d_shared_map_info_p origin in
  let a := Static.copy (d_static_allocator origin) in
  take_sem p ;;;
  h <- get_map p ;;
  put_map p (with_ref_count (u32 (ref_count h + 1)) h) ;;;
  emit (ref_count_store p (u32 (ref_count h + 1))) ;;;
  drop_sem p ;;;
  ret {| d_shared_map_info_p := p; d_static_allocator := a |}.

(** Move assignment: the two members are taken from [origin], nothing in
    the shared segment is read or written. *)
Definition move_assign (this origin : Shared_Allocator)
  : M world Shared_Allocator :=
  ret {| d_shared_map_info_p := d_shared_map_info_p origin;
         d_static_allocator :=
           Static.move_assign (d_static_allocator this)
                              (d_static_allocator origin) |}.

(** Destructor; the two lines written to [std::cout] are left out. *)
Definition destruct (this : Shared_Allocator) : M world unit :=
  let p := d_shared_map_info_p this in
  take_sem p ;;;
  h <- get_map p ;;
  put_map p (with_ref_count (u32 (ref_count h - 1)) h) ;;;
  emit (ref_count_store p (u32 (ref_count h - 1))) ;;;
  h <- get_map p ;;
  let destroy := ref_count h =? 0 in
  drop_sem p ;;;
  if destroy then
    (* #1 *)
    destroyed <- call (sem_destroy p) ;;
    h <- get_map p ;;
    match sem h with
    | None => throw (system_error "sem_destroy")
    | Some _ =>
        if negb destroyed then throw (system_error "sem_destroy")
        else
          put_map p (with_sem None h) ;;;
          (* #2 *)
          h <- get_map p ;;
          let shm_map_name := shm_map_name h in
          let shm_map_size := add64 (shm_map_size h) map_info_size in
          (* #3 *)
          unmapped <- call (munmap p shm_map_size) ;;
          if negb unmapped then throw (system_error "munmap")
          else
            unmap p shm_map_size ;;;
            (* #4 *)
            unlinked <- call (shm_unlink shm_map_name) ;;
            o <- get_objects ;;
            if negb unlinked then throw (system_error "shm_unlink")
            else if decide (shm_map_name ∈ o)
            then set_objects (o ∖ {[ shm_map_name ]})
            else throw (system_error "shm_unlink")
    end
  else ret tt.

Definition allocate (this : Shared_Allocator) (n_obj : Z) (fuel : nat)
  : M world Z :=
  on_heap (Static.allocate (d_static_allocator this) n_obj fuel).

Definition allocate_b (this : Shared_Allocator) (n_bytes : Z) (fuel : nat)
  : M world Z :=
  on_heap (Static.allocate_b (d_static_allocator this) n_bytes fuel).

Definition deallocate (this : Shared_Allocator) (ptr n_obj : Z) (fuel : nat)
  : M world unit :=
  on_heap (Static.deallocate (d_static_allocator this) ptr n_obj fuel).

Definition free_size (this : Shared_Allocator) : M world Z :=
  on_heap (Static.free_size (d_static_allocator this)).

Definition unified (this : Shared_Allocator) : M world bool :=
  on_heap (Static.unified (d_static_allocator this)).

(** [allocate(n_obj, hint)]: the hint is not looked at. *)
Definition allocate_hint (this : Shared_Allocator) (n_obj hint : Z)
    (fuel : nat) : M world Z :=
  allocate this n_obj fuel.

(** [address(r)] *)
Definition address (r : Z) : Z := r.

(** [shared_map_info_p()] *)
Definition shared_map_info_p (this : Shared_Allocator) : Z :=
  d_shared_map_info_p this.

(** [static_allocator()]: a copy of the member. *)
Definition static_allocator (this : Shared_Allocator) : Static_Allocator :=
  Static.copy (d_static_allocator this).

End Methods.
End Shared.


(** * Vocabulary of the statements *)

(** [returns c s Q]: from [s], [c] returns normally, with a result and a
    state that satisfy [Q].  [if_returns c s Q]: if [c] returns normally
    from [s], the result and the state satisfy [Q]. *)
Definition returns {St A} (c : M St A) (s : St) (Q : A -> St -> Prop) : Prop :=
  exists a s', c s = Ret a s' /\ Q a s'.

Definition if_returns {St A} (c : M St A) (s : St) (Q : A -> St -> Prop)
  : Prop :=
  forall a s', c s = Ret a s' -> Q a s'.

Section Vocabulary.
Context {L : Layout}.

(** The handle [this] points to the header [i] of the memory [m]. *)
Definition arena_at (m : memory) (this : Static_Allocator)
    (i : allocator_info_t) : Prop :=
  d_allocator_info_p this <> 0
  /\ infos m !! d_allocator_info_p this = Some i.

(** The range from [ptr] to [ptr + n_obj * sizeof(T)] lies within the arena
    of [i]: it starts above the first byte of the arena and ends at or before
    its end.  Both ends are computed as [deallocate] computes them. *)
Definition range_within (i : allocator_info_t) (ptr n_obj : Z) : Prop :=
  static_memory_map i < ptr
  /\ add64 ptr (mul64 n_obj sizeof_T)
     <= add64 (static_memory_map i) (capacity i).

(** [a :: l] is a chain of blocks linked by [d.next] whose last block points
    to [z]. *)
Fixpoint linked (m : memory) (a : Z) (l : list Z) (z : Z) : Prop :=
  match l with
  | [] => d_next m !! a = Some z
  | b :: l' => d_next m !! a = Some b /\ linked m b l' z
  end.

(** [l] lists the nodes of the circular free list of [i], each once, from
    the node [free_list] points to. *)
Definition free_nodes (m : memory) (i : allocator_info_t) (l : list Z) : Prop :=
  match l with
  | [] => False
  | a :: l' => a = free_list i /\ linked m a l' a
  end
  /\ NoDup l /\ 0 ∉ l.

(** The nodes other than the sentinel, which is the block at
    [free_memory_map]. *)
Definition real_blocks (i : allocator_info_t) (l : list Z) : list Z :=
  filter (fun a => a <> free_memory_map i) l.

(** The placement of an arena in the address space: a buffer that is not
    null and ends below the top of the address space, large enough for the
    constructor, with the sentinel right after the header. *)
Record arena_ok (i : allocator_info_t) : Prop := {
  arena_base : 0 < static_memory_map i;
  arena_top : static_memory_map i + capacity i < 2 ^ 64;
  arena_min : info_size + 2 * unit_size <= capacity i;
  arena_head : free_memory_map i = static_memory_map i + info_size
}.

(** The header as the constructor leaves it: no list yet. *)
Definition pristine (i : allocator_info_t) : Prop :=
  free_list i = 0
  /\ free_size i = capacity i - (info_size + 2 * unit_size).

(** The free list is the sentinel and one block of [s] units that starts one
    unit after it and ends within the arena; [free_list] points to either. *)
Definition whole (m : memory) (i : allocator_info_t) (s : Z) : Prop :=
  let head := free_memory_map i in
  let init := head + unit_size in
  (free_list i = head \/ free_list i = init)
  /\ d_size m !! head = Some 0
  /\ d_next m !! head = Some init
  /\ d_size m !! init = Some s
  /\ d_next m !! init = Some head
  /\ 0 <= s
  /\ init + s * unit_size <= static_memory_map i + capacity i
  /\ 0 <= free_size i < 2 ^ 64.

(** The arena of [i] after one block of [n] units was taken from the end of
    the one free block of [s] units: the header at [p] points to the
    sentinel and counts [n] units less, and [ptr] is the payload of the
    block. *)
Definition carved (p : Z) (i : allocator_info_t) (s n ptr : Z) (m1 : memory)
  : Prop :=
  let head := free_memory_map i in
  let init := head + unit_size in
  let b := init + (s - n) * unit_size in
  n <= s
  /\ ptr = b + unit_size
  /\ n * unit_size <= free_size i
  /\ infos m1 !! p
     = Some (with_free_size (free_size i - n * unit_size)
               (with_free_list head i))
  /\ d_size m1 !! head = Some 0
  /\ d_size m1 !! b = Some n
  /\ (n = s /\ d_next m1 !! head = Some head
      \/ n < s /\ d_next m1 !! head = Some init
         /\ d_next m1 !! init = Some head
         /\ d_size m1 !! init = Some (s - n)).

(** An arena with no live allocation: fresh from the constructor, or with
    every block back in the one block after the sentinel. *)
Definition no_live_allocations (m : memory) (i : allocator_info_t) : Prop :=
  pristine i \/ exists s, whole m i s.

(** Two allocations released in the order they were made, then
    [free_size()] and [unified()]. *)
Definition release_in_order_made (this : Static_Allocator) (n_obj1 n_obj2 : Z)
  : M memory (Z * bool) :=
  a <- Static.allocate this n_obj1 1 ;;
  b <- Static.allocate this n_obj2 1 ;;
  Static.deallocate this a n_obj1 2 ;;;
  Static.deallocate this b n_obj2 2 ;;;
  f <- Static.free_size this ;;
  u <- Static.unified this ;;
  ret (f, u).

(** Three allocations A, B, C of the same count, released in the order B,
    A, C, then [unified()] and [free_size()]. *)
Definition release_middle_first (this : Static_Allocator) (n_obj : Z)
  : M memory (bool * Z) :=
  a <- Static.allocate this n_obj 1 ;;
  b <- Static.allocate this n_obj 1 ;;
  c <- Static.allocate this n_obj 1 ;;
  Static.deallocate this b n_obj 3 ;;;
  Static.deallocate this a n_obj 3 ;;;
  Static.deallocate this c n_obj 3 ;;;
  u <- Static.unified this ;;
  f <- Static.free_size this ;;
  ret (u, f).

End Vocabulary.

(** The control header [h] is mapped at [p], its semaphore is free, its
    counter is an [unsigned int], and the object it names exists. *)
Definition region_live (w : world) (p : Z) (h : shared_map_info_t) : Prop :=
  p <> 0
  /\ maps w !! p = Some h
  /\ sem h = Some 1
  /\ 0 <= ref_count h < 2 ^ 32
  /\ shm_map_name h ∈ objects w.

(** What can happen to a handle of a region. *)
Inductive action := act_copy | act_move | act_destruct.

Section Lifecycle.
Context {L : Layout} {OS : System}.

Definition perform (h : Shared_Allocator) (a : action) : M world unit :=
  match a with
  | act_copy => Shared.copy h ;;; ret tt
  | act_move => Shared.move_assign h h ;;; ret tt
  | act_destruct => Shared.destruct h
  end.

Fixpoint perform_all (h : Shared_Allocator) (l : list action) : M world unit :=
  match l with
  | [] => ret tt
  | a :: l' => perform h a ;;; perform_all h l'
  end.

End Lifecycle.

(** The world an outcome ends in. *)
Definition world_of {A} (o : outcome world A) : option world :=
  match o with
  | Ret _ w | Throw _ w | Fault _ w => Some w
  | Blocked | OutOfFuel => None
  end.

(** The three steps of the teardown of the region at [p] named [name]. *)
Definition is_sem_destroy (p : Z) (e : event) : bool :=
  match e with sem_destroy q => q =? p | _ => false end.

Definition is_munmap (p : Z) (e : event) : bool :=
  match e with munmap q _ => q =? p | _ => false end.

Definition is_shm_unlink (name : string) (e : event) : bool :=
  match e with shm_unlink n => bool_decide (n = name) | _ => false end.

Definition count (f : event -> bool) (tr : list event) : nat :=
  length (List.filter f tr).

(** * More scripts *)

Section Scripts.
Context {L : Layout}.

(** Two allocations released last made first, then [free_size()] and
    [unified()]. *)
Definition release_in_reverse_order (this : Static_Allocator)
    (n_obj1 n_obj2 : Z) : M memory (Z * bool) :=
  a <- Static.allocate this n_obj1 1 ;;
  b <- Static.allocate this n_obj2 1 ;;
  Static.deallocate this b n_obj2 2 ;;;
  Static.deallocate this a n_obj1 2 ;;;
  f <- Static.free_size this ;;
  u <- Static.unified this ;;
  ret (f, u).

End Scripts.

Section RegionScripts.
Context {L : Layout} {OS : System}.

(** A region is constructed and asked for [free_size()] and [unified()]. *)
Definition fresh_region_report (name : string) (size base : Z)
  : M world (Z * bool) :=
  h <- Shared.construct name size base ;;
  f <- Shared.free_size h ;;
  u <- Shared.unified h ;;
  ret (f, u).


End RegionScripts.

(** * The arena as a row of blocks *)

(** A block of the arena, with its size in units, the header included: in
    the free list, or handed out. *)
Inductive row_block :=
| free_block (size : Z)
| live_block (size : Z).

Definition block_size (b : row_block) : Z :=
  match b with free_block s | live_block s => s end.

Definition is_free (b : row_block) : bool :=
  match b with free_block _ => true | live_block _ => false end.

Section Row.
Context {L : Layout}.

(** The bytes a row of blocks takes. *)
Fixpoint span (bs : list row_block) : Z :=
  match bs with
  | [] => 0
  | b :: bs' => block_size b * unit_size + span bs'
  end.

(** The address of the first free block of the row [bs] that starts at
    [a], and of the last one; [z] when the row has no free block. *)
Fixpoint first_free (z a : Z) (bs : list row_block) : Z :=
  match bs with
  | [] => z
  | free_block _ :: _ => a
  | live_block s :: bs' => first_free z (a + s * unit_size) bs'
  end.

Fixpoint last_free (z a : Z) (bs : list row_block) : Z :=
  match bs with
  | [] => z
  | free_block s :: bs' => last_free a (a + s * unit_size) bs'
  | live_block s :: bs' => last_free z (a + s * unit_size) bs'
  end.

(** The addresses of the free blocks of the row, and the pointers to the
    payload of its live blocks with the sizes of these blocks. *)
Fixpoint free_addresses (a : Z) (bs : list row_block) : list Z :=
  match bs with
  | [] => []
  | free_block s :: bs' => a :: free_addresses (a + s * unit_size) bs'
  | live_block s :: bs' => free_addresses (a + s * unit_size) bs'
  end.

Fixpoint live_blocks (a : Z) (bs : list row_block) : list (Z * Z) :=
  match bs with
  | [] => []
  | free_block s :: bs' => live_blocks (a + s * unit_size) bs'
  | live_block s :: bs' =>
      (a + unit_size, s) :: live_blocks (a + s * unit_size) bs'
  end.

(** The memory holds the headers of the row [bs] that starts at [a]: every
    block has its size in [d.size], and every free block has in [d.next] the
    address of the free block that follows it in the row, or [z] after the
    last one. *)
Fixpoint laid_out (m : memory) (z a : Z) (bs : list row_block) : Prop :=
  match bs with
  | [] => True
  | b :: bs' =>
      let a' := a + block_size b * unit_size in
      0 < block_size b
      /\ d_size m !! a = Some (block_size b)
      /\ (is_free b = true -> d_next m !! a = Some (first_free z a' bs'))
      /\ laid_out m z a' bs'
  end.

(** No two free blocks are neighbours. *)
Fixpoint coalesced (bs : list row_block) : Prop :=
  match bs with
  | [] => True
  | b :: bs' =>
      match b, bs' with
      | free_block _, free_block _ :: _ => False
      | _, _ => coalesced bs'
      end
  end.

(** The arena of the header [i] is the row [bs]: the sentinel of size zero
    at [free_memory_map], then the blocks of [bs] one after the other from
    the next unit to at most the end of the arena, the free ones linked in a
    circle through the sentinel in the order of their addresses, and
    [free_list] at one of them. *)
Definition arena_row (m : memory) (i : allocator_info_t) (bs : list row_block)
  : Prop :=
  let head := free_memory_map i in
  let init := head + unit_size in
  d_size m !! head = Some 0
  /\ d_next m !! head = Some (first_free head init bs)
  /\ laid_out m head init bs
  /\ coalesced bs
  /\ init + span bs <= static_memory_map i + capacity i
  /\ free_list i ∈ head :: free_addresses init bs
  /\ 0 <= free_size i < 2 ^ 64.

(** What an allocation of [n] units makes of a free block of [s] units:
    the block itself when [n = s], else the rest of the block and then the
    block handed out. *)
Definition carve (s n : Z) : list row_block :=
  if s =? n then [live_block n] else [free_block (s - n); live_block n].

(** What a release makes of the row [bs1 ++ live_block s :: bs2]: the block
    takes in the free block that follows it, if any, and is taken in by the
    free block that precedes it, if any. *)
Definition absorb_next (s : Z) (bs2 : list row_block) : Z * list row_block :=
  match bs2 with
  | free_block s2 :: bs2' => (s + s2, bs2')
  | _ => (s, bs2)
  end.

Fixpoint put_back (bs1 : list row_block) (f : Z) (rest : list row_block)
  : list row_block :=
  match bs1 with
  | [] => free_block f :: rest
  | b :: bs1' =>
      match b, bs1' with
      | free_block sp, [] => free_block (sp + f) :: rest
      | _, _ => b :: put_back bs1' f rest
      end
  end.

Definition release_block (bs1 : list row_block) (s : Z) (bs2 : list row_block)
  : list row_block :=
  put_back bs1 (absorb_next s bs2).1 (absorb_next s bs2).2.

(** The units [deallocate] adds to the free-byte count for the block of
    [s] units followed by [bs2]. *)
Definition units_counted (s : Z) (bs2 : list row_block) : Z :=
  (absorb_next s bs2).1.

(** The number of free blocks of the row. *)
Definition count_free (bs : list row_block) : nat :=
  length (List.filter is_free bs).

(** A request of [n] units does not fit the block, if it is free. *)
Definition too_small (n : Z) (b : row_block) : Prop :=
  is_free b = true -> block_size b < n.

(** The block has a size. *)
Definition sized (b : row_block) : Prop := 0 < block_size b.

(** The address [x] lies after [fl] and before [c] in the circular order
    of the addresses: the search of [allocate_b] that starts after [fl] and
    ends at [c] passes over [x]. *)
Definition passed_over (fl c x : Z) : Prop :=
  (fl < c /\ fl < x < c) \/ (c <= fl /\ (fl < x \/ x < c)).

(** The header [i'] describes the arena of [i]: the same buffer, the same
    capacity, the sentinel at the same address. *)
Definition same_place (i i' : allocator_info_t) : Prop :=
  static_memory_map i' = static_memory_map i
  /\ free_memory_map i' = free_memory_map i
  /\ capacity i' = capacity i.

(** An arena that is the row [bs]: as the constructor leaves it with room
    for one unit at least, when the row is the one free block that the first
    allocation makes of that room; or with its free list built. *)
Definition arena_is (m : memory) (i : allocator_info_t) (bs : list row_block)
  : Prop :=
  (pristine i /\ unit_size <= free_size i
   /\ bs = [free_block (free_size i / unit_size)])
  \/ arena_row m i bs.

(** What a client asks of the allocator: [allocate(n_obj)], of which it
    keeps the pointer with the count unless it is null, and [deallocate] of
    the pointer it holds at place [k], with its count. *)
Inductive request :=
| ask (n_obj : Z)
| give_back (k : nat).

Fixpoint serve (this : Static_Allocator) (fuel : nat) (rs : list request)
    (held : list (Z * Z)) : M memory (list (Z * Z)) :=
  match rs with
  | [] => ret held
  | ask n_obj :: rs' =>
      ptr <- Static.allocate this n_obj fuel ;;
      serve this fuel rs' (if ptr =? 0 then held else held ++ [(ptr, n_obj)])
  | give_back k :: rs' =>
      match held !! k with
      | Some (ptr, n_obj) =>
          Static.deallocate this ptr n_obj fuel ;;;
          serve this fuel rs' (delete k held)
      | None => serve this fuel rs' held
      end
  end.

(** The request is not for zero bytes. *)
Definition asks_bytes (r : request) : Prop :=
  match r with
  | ask n_obj => mul64 n_obj sizeof_T <> 0
  | give_back _ => True
  end.

(** The block of a pointer held with its count: the size is the one
    [allocate] rounded the count to. *)
Definition block_of (h : Z * Z) : Z * Z :=
  (h.1, Static.blocks_needed (mul64 h.2 sizeof_T)).

(** The pointers the client holds are the pointers to the live blocks of
    the row, each block of the size its count was rounded to, and the counts
    pass the bounds check of [deallocate]. *)
Definition holds (i : allocator_info_t) (bs : list row_block)
    (held : list (Z * Z)) : Prop :=
  block_of <$> held ≡ₚ live_blocks (free_memory_map i + unit_size) bs
  /\ Forall (fun h => range_within i h.1 h.2) held.

(** The request is for a size that the rounding of [allocate_b] does not
    wrap around. *)
Definition asks_room (r : request) : Prop :=
  match r with
  | ask n_obj =>
      0 < n_obj * sizeof_T /\ n_obj * sizeof_T + unit_size <= 2 ^ 64
  | give_back _ => True
  end.

End Row.

(** * Scenarios on x86-64 *)

(** The result and the final state of an outcome. *)
Definition value_of {St A} (o : outcome St A) : option A :=
  match o with Ret a _ => Some a | _ => None end.

Definition state_of {St A} (o : outcome St A) (otherwise : St) : St :=
  match o with Ret _ s => s | _ => otherwise end.

Section Scenarios.
Local Existing Instance lp64_int.
Local Existing Instance obliging_system.

(** An arena of 4096 bytes at address 4096; its usable capacity is
    [4096 - (40 + 2 * 32) = 3992] bytes. *)
Definition arena_4096 : Static_Allocator := {| d_allocator_info_p := 4096 |}.

Definition fresh_4096 : memory :=
  state_of (Static.construct 4096 4096 empty_memory) empty_memory.

(** The header the constructor writes. *)
Definition info_fresh_4096 : allocator_info_t :=
  {| static_memory_map := 4096; free_memory_map := 4136; capacity := 4096;
     free_size := 3992; free_list := 0 |}.

(** Two allocations of one [int], released in the order they were made;
    the result is [free_size()] at the start and after every call. *)
Definition two_blocks : M memory (list Z) :=
  f0 <- Static.free_size arena_4096 ;;
  a <- Static.allocate arena_4096 1 4 ;;
  f1 <- Static.free_size arena_4096 ;;
  b <- Static.allocate arena_4096 1 4 ;;
  f2 <- Static.free_size arena_4096 ;;
  Static.deallocate arena_4096 a 1 4 ;;;
  f3 <- Static.free_size arena_4096 ;;
  Static.deallocate arena_4096 b 1 4 ;;;
  f4 <- Static.free_size arena_4096 ;;
  ret [f0; f1; f2; f3; f4].

(** [deallocate] of the blocks listed in [order], by position in [blocks]. *)
Fixpoint release_in_order (blocks : list Z) (n_obj : Z) (order : list nat)
  : M memory unit :=
  match order with
  | [] => ret tt
  | k :: order' =>
      match blocks !! k with
      | Some ptr =>
          Static.deallocate arena_4096 ptr n_obj 4 ;;;
          release_in_order blocks n_obj order'
      | None => ret tt
      end
  end.

(** Three allocations A, B, C of four [int]s each, released in [order]
    (0 is A, 1 is B, 2 is C); the result is the three pointers, [unified()]
    and [free_size()]. *)
Definition three_blocks (order : list nat) : M memory (list Z * bool * Z) :=
  a <- Static.allocate arena_4096 4 4 ;;
  b <- Static.allocate arena_4096 4 4 ;;
  c <- Static.allocate arena_4096 4 4 ;;
  release_in_order [a; b; c] 4 order ;;;
  u <- Static.unified arena_4096 ;;
  f <- Static.free_size arena_4096 ;;
  ret ([a; b; c], u, f).

(** The arena after one allocation that takes the whole free block:
    [3936 = (124 - 1) * 32] bytes need 124 units. *)
Definition full_4096 : memory :=
  state_of (Static.allocate_b arena_4096 3936 4 fresh_4096) fresh_4096.

Definition info_full_4096 : allocator_info_t :=
  {| static_memory_map := 4096; free_memory_map := 4136; capacity := 4096;
     free_size := 24; free_list := 4136 |}.

(** The arena after one allocation of one [int]. *)
Definition one_int_4096 : memory :=
  state_of (Static.allocate arena_4096 1 4 fresh_4096) fresh_4096.

Definition info_one_int_4096 : allocator_info_t :=
  {| static_memory_map := 4096; free_memory_map := 4136; capacity := 4096;
     free_size := 3928; free_list := 4136 |}.

(** The life of a shared region of 4096 bytes named [rosmem] and mapped at
    65536, in the order of the test of the specification: the construction,
    two copies, then three destructions; the result is the reference count
    after each step but the last, which unmaps the header. *)
Definition rosmem_life : M world (list Z) :=
  let count h := (i <- get_map (d_shared_map_info_p h) ;; ret (ref_count i)) in
  h <- Shared.construct "rosmem" 4096 65536 ;;
  c0 <- count h ;;
  h1 <- Shared.copy h ;;
  c1 <- count h ;;
  h2 <- Shared.copy h ;;
  c2 <- count h ;;
  Shared.destruct h2 ;;;
  c3 <- count h ;;
  Shared.destruct h1 ;;;
  c4 <- count h ;;
  Shared.destruct h ;;;
  ret [c0; c1; c2; c3; c4].

End Scenarios.





Section MoreScenarios.
Local Existing Instance lp64_int.
Local Existing Instance obliging_system.

(** The row of the arena after one allocation of one [int]: the block of 124
    units that the first allocation makes gives its last two units. *)
Definition row_one_int_4096 : list row_block := [free_block 122; live_block 2].

(** A client with two buffers, of five and of three [int]s, that returns
    the second and then the first. *)
Definition two_buffers : list request :=
  [ask 5; ask 3; give_back 1; give_back 0].






End MoreScenarios.

(** * Properties *)

(** ** Machine arithmetic *)

Lemma u64_range (z : Z) : 0 <= u64 z < 2 ^ 64.
Proof. unfold u64. apply Z.mod_pos_bound. lia. Qed.

Lemma u64_small (z : Z) : 0 <= z < 2 ^ 64 -> u64 z = z.
Proof. unfold u64. intros H. apply Z.mod_small. exact H. Qed.

Lemma u64_wrapped (z : Z) : 2 ^ 64 <= z < 2 * 2 ^ 64 -> u64 z = z - 2 ^ 64.
Proof.
  intros H. unfold u64.
  replace z with ((z - 2 ^ 64) + 1 * 2 ^ 64) at 1 by ring.
  rewrite Z.mod_add by lia. apply Z.mod_small. lia.
Qed.

Lemma u64_borrowed (z : Z) : - 2 ^ 64 <= z < 0 -> u64 z = z + 2 ^ 64.
Proof.
  intros H. unfold u64.
  replace z with ((z + 2 ^ 64) + (-1) * 2 ^ 64) at 1 by ring.
  rewrite Z.mod_add by lia. apply Z.mod_small. lia.
Qed.

Lemma u64_add_sub (a b : Z) : u64 (u64 (a + b) - b) = u64 a.
Proof.
  unfold u64. rewrite Zminus_mod, Z.mod_mod by lia.
  rewrite <- Zminus_mod. f_equal. ring.
Qed.

Lemma u64_sub_l (a b : Z) : u64 (u64 a - b) = u64 (a - b).
Proof. unfold u64. apply Zminus_mod_idemp_l. Qed.

Lemma add64_small (a b : Z) : 0 <= a + b < 2 ^ 64 -> add64 a b = a + b.
Proof. apply u64_small. Qed.

Lemma sub64_small (a b : Z) : 0 <= a - b < 2 ^ 64 -> sub64 a b = a - b.
Proof. apply u64_small. Qed.

Lemma mul64_small (a b : Z) : 0 <= a * b < 2 ^ 64 -> mul64 a b = a * b.
Proof. apply u64_small. Qed.

Lemma u32_range (z : Z) : 0 <= u32 z < 2 ^ 32.
Proof. unfold u32. apply Z.mod_pos_bound. lia. Qed.

Lemma u32_small (z : Z) : 0 <= z < 2 ^ 32 -> u32 z = z.
Proof. unfold u32. intros H. apply Z.mod_small. exact H. Qed.

(** Settle the next comparison of the goal by linear arithmetic. *)
Ltac settle :=
  rewrite ?Z.gtb_ltb, ?Z.geb_leb;
  match goal with
  | |- context [Z.eqb ?a ?b] =>
      first [ rewrite (proj2 (Z.eqb_eq a b)) by lia
            | rewrite (proj2 (Z.eqb_neq a b)) by lia ]
  | |- context [Z.ltb ?a ?b] =>
      first [ rewrite (proj2 (Z.ltb_lt a b)) by lia
            | rewrite (proj2 (Z.ltb_ge a b)) by lia ]
  | |- context [Z.leb ?a ?b] =>
      first [ rewrite (proj2 (Z.leb_le a b)) by lia
            | rewrite (proj2 (Z.leb_gt a b)) by lia ]
  end.

Lemma lp64_int_ok : layout_ok lp64_int.
Proof. constructor; cbn; lia. Qed.


(** ** Reasoning about the outcome of a method *)

Section Logic.
Context {St A B : Type}.

Lemma returns_ret (a : A) (s : St) (Q : A -> St -> Prop) :
  Q a s -> returns (ret a) s Q.
Proof. intros H. exists a, s. split; [reflexivity|exact H]. Qed.

Lemma returns_bind (c : M St A) (k : A -> M St B) (s : St)
    (Q : B -> St -> Prop) :
  returns c s (fun a s' => returns (k a) s' Q) -> returns (bind c k) s Q.
Proof.
  intros (a & s' & Hc & b & s'' & Hk & HQ). exists b, s''.
  split; [|exact HQ]. unfold bind. rewrite Hc. exact Hk.
Qed.

Lemma if_returns_ret (a : A) (s : St) (Q : A -> St -> Prop) :
  Q a s -> if_returns (ret a) s Q.
Proof. intros H a' s' Heq. injection Heq as <- <-. exact H. Qed.

Lemma if_returns_bind (c : M St A) (k : A -> M St B) (s : St)
    (Q : B -> St -> Prop) :
  if_returns c s (fun a s' => if_returns (k a) s' Q) ->
  if_returns (bind c k) s Q.
Proof.
  intros H b s'' Heq. unfold bind in Heq.
  destruct (c s) as [a s'| | | |] eqn:Hc; try discriminate Heq.
  exact (H a s' Hc b s'' Heq).
Qed.

Lemma if_returns_throw (e : exception) (s : St) (Q : A -> St -> Prop) :
  if_returns (throw e) s Q.
Proof. intros a s' Heq. discriminate Heq. Qed.

Lemma if_returns_weaken (c : M St A) (s : St) (Q R : A -> St -> Prop) :
  if_returns c s Q -> (forall a s', Q a s' -> R a s') -> if_returns c s R.
Proof. intros H HQR a s' Heq. apply HQR, H, Heq. Qed.

End Logic.

(** The accesses to the memory. *)

Lemma returns_get_info (p : Z) (i : allocator_info_t) (m : memory)
    (Q : allocator_info_t -> memory -> Prop) :
  p <> 0 -> infos m !! p = Some i -> Q i m -> returns (get_info p) m Q.
Proof.
  intros Hp Hi HQ. exists i, m. split; [|exact HQ].
  unfold get_info. rewrite Hi.
  destruct (Z.eqb_spec p 0); [contradiction|reflexivity].
Qed.

Lemma returns_put_info (p : Z) (i : allocator_info_t) (m : memory)
    (Q : unit -> memory -> Prop) :
  p <> 0 ->
  Q tt {| infos := <[p := i]> (infos m); d_next := d_next m; d_size := d_size m |} ->
  returns (put_info p i) m Q.
Proof.
  intros Hp HQ. eexists tt, _. split; [|exact HQ].
  unfold put_info. destruct (Z.eqb_spec p 0); [contradiction|reflexivity].
Qed.

Lemma returns_get_next (p v : Z) (m : memory) (Q : Z -> memory -> Prop) :
  p <> 0 -> d_next m !! p = Some v -> Q v m -> returns (get_next p) m Q.
Proof.
  intros Hp Hv HQ. exists v, m. split; [|exact HQ].
  unfold get_next. rewrite Hv.
  destruct (Z.eqb_spec p 0); [contradiction|reflexivity].
Qed.

Lemma returns_get_size (p v : Z) (m : memory) (Q : Z -> memory -> Prop) :
  p <> 0 -> d_size m !! p = Some v -> Q v m -> returns (get_size p) m Q.
Proof.
  intros Hp Hv HQ. exists v, m. split; [|exact HQ].
  unfold get_size. rewrite Hv.
  destruct (Z.eqb_spec p 0); [contradiction|reflexivity].
Qed.

Lemma returns_set_next (p v : Z) (m : memory) (Q : unit -> memory -> Prop) :
  p <> 0 ->
  Q tt {| infos := infos m; d_next := <[p := v]> (d_next m); d_size := d_size m |} ->
  returns (set_next p v) m Q.
Proof.
  intros Hp HQ. eexists tt, _. split; [|exact HQ].
  unfold set_next. destruct (Z.eqb_spec p 0); [contradiction|reflexivity].
Qed.

Lemma returns_set_size (p v : Z) (m : memory) (Q : unit -> memory -> Prop) :
  p <> 0 ->
  Q tt {| infos := infos m; d_next := d_next m; d_size := <[p := v]> (d_size m) |} ->
  returns (set_size p v) m Q.
Proof.
  intros Hp HQ. eexists tt, _. split; [|exact HQ].
  unfold set_size. destruct (Z.eqb_spec p 0); [contradiction|reflexivity].
Qed.

Lemma if_returns_get_info (p : Z) (i : allocator_info_t) (m : memory)
    (Q : allocator_info_t -> memory -> Prop) :
  infos m !! p = Some i -> Q i m -> if_returns (get_info p) m Q.
Proof.
  intros Hi HQ a m' Heq. unfold get_info in Heq. rewrite Hi in Heq.
  destruct (p =? 0); [discriminate Heq|]. injection Heq as <- <-. exact HQ.
Qed.

Lemma if_returns_put_info (p : Z) (i : allocator_info_t) (m : memory)
    (Q : unit -> memory -> Prop) :
  Q tt {| infos := <[p := i]> (infos m); d_next := d_next m; d_size := d_size m |} ->
  if_returns (put_info p i) m Q.
Proof.
  intros HQ [] m' Heq. unfold put_info in Heq.
  destruct (p =? 0); [discriminate Heq|]. injection Heq as <-. exact HQ.
Qed.

Lemma if_returns_get_next (p v : Z) (m : memory) (Q : Z -> memory -> Prop) :
  d_next m !! p = Some v -> Q v m -> if_returns (get_next p) m Q.
Proof.
  intros Hv HQ a m' Heq. unfold get_next in Heq. rewrite Hv in Heq.
  destruct (p =? 0); [discriminate Heq|]. injection Heq as <- <-. exact HQ.
Qed.

Lemma if_returns_get_size (p v : Z) (m : memory) (Q : Z -> memory -> Prop) :
  d_size m !! p = Some v -> Q v m -> if_returns (get_size p) m Q.
Proof.
  intros Hv HQ a m' Heq. unfold get_size in Heq. rewrite Hv in Heq.
  destruct (p =? 0); [discriminate Heq|]. injection Heq as <- <-. exact HQ.
Qed.

Lemma if_returns_set_next (p v : Z) (m : memory) (Q : unit -> memory -> Prop) :
  Q tt {| infos := infos m; d_next := <[p := v]> (d_next m); d_size := d_size m |} ->
  if_returns (set_next p v) m Q.
Proof.
  intros HQ [] m' Heq. unfold set_next in Heq.
  destruct (p =? 0); [discriminate Heq|]. injection Heq as <-. exact HQ.
Qed.

Lemma if_returns_set_size (p v : Z) (m : memory) (Q : unit -> memory -> Prop) :
  Q tt {| infos := infos m; d_next := d_next m; d_size := <[p := v]> (d_size m) |} ->
  if_returns (set_size p v) m Q.
Proof.
  intros HQ [] m' Heq. unfold set_size in Heq.
  destruct (p =? 0); [discriminate Heq|]. injection Heq as <-. exact HQ.
Qed.

(** The accesses to the world. *)

Lemma returns_get_map (p : Z) (h : shared_map_info_t) (w : world)
    (Q : shared_map_info_t -> world -> Prop) :
  p <> 0 -> maps w !! p = Some h -> Q h w -> returns (get_map p) w Q.
Proof.
  intros Hp Hh HQ. exists h, w. split; [|exact HQ].
  unfold get_map. rewrite Hh.
  destruct (Z.eqb_spec p 0); [contradiction|reflexivity].
Qed.

Lemma returns_put_map (p : Z) (h : shared_map_info_t) (w : world)
    (Q : unit -> world -> Prop) :
  p <> 0 ->
  Q tt {| heap := heap w; maps := <[p := h]> (maps w);
          objects := objects w; calls := calls w |} ->
  returns (put_map p h) w Q.
Proof.
  intros Hp HQ. eexists tt, _. split; [|exact HQ].
  unfold put_map. destruct (Z.eqb_spec p 0); [contradiction|reflexivity].
Qed.

Lemma returns_emit (e : event) (w : world) (Q : unit -> world -> Prop) :
  Q tt {| heap := heap w; maps := maps w; objects := objects w;
          calls := calls w ++ [e] |} ->
  returns (emit e) w Q.
Proof. intros HQ. eexists tt, _. split; [reflexivity|exact HQ]. Qed.

Lemma returns_call {OS : System} (e : event) (w : world)
    (Q : bool -> world -> Prop) :
  Q (negb (refuses (calls w) e))
    {| heap := heap w; maps := maps w; objects := objects w;
       calls := calls w ++ [e] |} ->
  returns (call e) w Q.
Proof. intros HQ. eexists _, _. split; [reflexivity|exact HQ]. Qed.

Lemma returns_call_granted {OS : System} (e : event) (w : world)
    (Q : bool -> world -> Prop) :
  refuses (calls w) e = false ->
  Q true {| heap := heap w; maps := maps w; objects := objects w;
            calls := calls w ++ [e] |} ->
  returns (call e) w Q.
Proof. intros Hok HQ. apply returns_call. rewrite Hok. exact HQ. Qed.

Lemma returns_get_objects (w : world) (Q : gset string -> world -> Prop) :
  Q (objects w) w -> returns get_objects w Q.
Proof. intros HQ. eexists _, _. split; [reflexivity|exact HQ]. Qed.

Lemma returns_set_objects (o : gset string) (w : world)
    (Q : unit -> world -> Prop) :
  Q tt {| heap := heap w; maps := maps w; objects := o; calls := calls w |} ->
  returns (set_objects o) w Q.
Proof. intros HQ. eexists tt, _. split; [reflexivity|exact HQ]. Qed.

Lemma returns_unmap (p len : Z) (w : world) (Q : unit -> world -> Prop) :
  Q tt {| heap := unmap_memory p (p + len) (heap w);
          maps := delete p (maps w);
          objects := objects w; calls := calls w |} ->
  returns (unmap p len) w Q.
Proof. intros HQ. eexists tt, _. split; [reflexivity|exact HQ]. Qed.

Lemma returns_on_heap {A} (c : M memory A) (w : world)
    (Q : A -> world -> Prop) :
  returns c (heap w)
    (fun a m => Q a {| heap := m; maps := maps w; objects := objects w;
                       calls := calls w |}) ->
  returns (on_heap c) w Q.
Proof.
  intros (a & m & Hc & HQ). eexists a, _. split; [|exact HQ].
  unfold on_heap. rewrite Hc. reflexivity.
Qed.

(** Look a field up in a memory built by stores. *)
Ltac lookup :=
  cbn [infos d_next d_size heap maps objects calls];
  repeat first
    [ rewrite lookup_insert_eq
    | rewrite lookup_insert_ne by lia ];
  first [ reflexivity | eassumption ].

(** One step of a method. *)
Ltac step1 :=
  lazymatch goal with
  | |- if_returns (bind _ _) _ _ => apply if_returns_bind
  | |- if_returns (ret _) _ _ => apply if_returns_ret
  | |- if_returns (throw _) _ _ => apply if_returns_throw
  | |- if_returns (get_info _) _ _ => eapply if_returns_get_info; [lookup|]
  | |- if_returns (get_next _) _ _ => eapply if_returns_get_next; [lookup|]
  | |- if_returns (get_size _) _ _ => eapply if_returns_get_size; [lookup|]
  | |- if_returns (put_info _ _) _ _ => apply if_returns_put_info
  | |- if_returns (set_next _ _) _ _ => apply if_returns_set_next
  | |- if_returns (set_size _ _) _ _ => apply if_returns_set_size
  | |- returns (bind _ _) _ _ => apply returns_bind
  | |- returns (ret _) _ _ => apply returns_ret
  | |- returns (get_info _) _ _ => eapply returns_get_info; [lia|lookup|]
  | |- returns (get_next _) _ _ => eapply returns_get_next; [lia|lookup|]
  | |- returns (get_size _) _ _ => eapply returns_get_size; [lia|lookup|]
  | |- returns (put_info _ _) _ _ => apply returns_put_info; [lia|]
  | |- returns (set_next _ _) _ _ => apply returns_set_next; [lia|]
  | |- returns (set_size _ _) _ _ => apply returns_set_size; [lia|]
  | |- returns (get_map _) _ _ => eapply returns_get_map; [lia|lookup|]
  | |- returns (put_map _ _) _ _ => apply returns_put_map; [lia|]
  | |- returns (emit _) _ _ => apply returns_emit
  | |- returns (call _) _ _ =>
      apply returns_call_granted;
      [first [assumption
             |match goal with H : @obliging _ |- _ => apply H end]|]
  | |- returns get_objects _ _ => apply returns_get_objects
  | |- returns (set_objects _) _ _ => apply returns_set_objects
  | |- returns (unmap _ _) _ _ => apply returns_unmap
  | |- returns (on_heap _) _ _ => apply returns_on_heap
  end.

Ltac step :=
  step1;
  cbn [infos d_next d_size heap maps objects calls
       static_memory_map free_memory_map capacity free_size free_list
       with_free_list with_free_size].

(** ** Pointers to blocks *)

Section Blocks.
Context {L : Layout}.

(** Block pointer arithmetic that stays inside the address space. *)
Lemma block_add_small (a n : Z) :
  0 <= a + n * unit_size < 2 ^ 64 -> Static.block_add a n = a + n * unit_size.
Proof. intros H. unfold Static.block_add. apply u64_small. exact H. Qed.

Lemma block_sub_add (b : Z) :
  0 <= b < 2 ^ 64 -> Static.block_sub (b + unit_size) 1 = b.
Proof.
  intros H. unfold Static.block_sub.
  replace (b + unit_size - 1 * unit_size) with b by ring.
  apply u64_small. exact H.
Qed.

End Blocks.

(** Run a method as far as the facts at hand decide its tests. *)
Ltac run :=
  repeat first
    [ step
    | progress (settle; cbn [andb negb])
    | rewrite block_add_small by lia
    | rewrite add64_small by lia
    | rewrite sub64_small by lia
    | rewrite mul64_small by lia ].


(** ** Multiples of the unit *)

Lemma units_le (a b u : Z) : 0 < u -> a <= b -> a * u <= b * u.
Proof. intros Hu H. apply Z.mul_le_mono_nonneg_r; lia. Qed.

Lemma units_lt (a b u : Z) : 0 < u -> a < b -> a * u < b * u.
Proof. intros Hu H. apply Z.mul_lt_mono_pos_r; lia. Qed.

Lemma units_one (a u : Z) : 0 < u -> 0 < a -> u <= a * u.
Proof. intros Hu H. pose proof (units_le 1 a u Hu). lia. Qed.

Lemma units_below (a u B : Z) : 0 < u -> 0 <= B -> a * u < B -> a < B.
Proof.
  intros Hu HB H. destruct (Z_lt_le_dec a B) as [Hlt|Hge]; [exact Hlt|].
  pose proof (units_le B a u Hu Hge).
  pose proof (Z.mul_le_mono_nonneg_l 1 u B HB). lia.
Qed.

Lemma units_same (a b u : Z) : 0 < u -> a * u = b * u -> a = b.
Proof. intros Hu H. apply (Z.mul_cancel_r a b u); [lia|exact H]. Qed.
(** ** The constructor *)

Section Arena.
Context {L : Layout} (HL : layout_ok L).

Lemma minimum_memory_size_eq :
  Static.minimum_memory_size = info_size + 2 * unit_size.
Proof.
  destruct HL. unfold Static.minimum_memory_size, add64, mul64.
  rewrite (u64_small (2 * unit_size)) by lia. apply u64_small. lia.
Qed.

(** The memory after a construction that succeeds. *)
Lemma construct_returns (buffer cap : Z) (m : memory) :
  info_size + 2 * unit_size <= cap < 2 ^ 64 ->
  buffer <> 0 ->
  Static.construct buffer cap m
  = Ret {| d_allocator_info_p := buffer |}
        {| infos :=
             <[buffer := {| static_memory_map := buffer;
                            free_memory_map := u64 (buffer + info_size);
                            capacity := cap;
                            free_size := cap - (info_size + 2 * unit_size);
                            free_list := 0 |}]> (infos m);
           d_next := d_next m;
           d_size := d_size m |}.
Proof.
  intros Hcap Hbuf. unfold Static.construct. rewrite minimum_memory_size_eq.
  destruct HL. settle. unfold bind, put_info, ret. settle.
  rewrite (sub64_small cap) by lia.
  unfold sub64, add64, mul64. rewrite (u64_small (2 * unit_size)) by lia.
  replace (buffer + (info_size + 2 * unit_size))
    with ((buffer + info_size) + 2 * unit_size) by ring.
  rewrite u64_add_sub. reflexivity.
Qed.

(** C8.  Constructing an arena over a buffer throws [bad_alloc] exactly
    when the capacity is below the size of the header plus two block
    headers, and then writes nothing.  Otherwise, over a buffer that is not
    null, it returns a handle to a header stored at the front of the buffer,
    whose free-byte count is the capacity minus that overhead and whose free
    list is null; no block header is written. *)
Theorem construct_spec (buffer cap : Z) (m : memory) :
  0 <= cap < 2 ^ 64 ->
  (Static.construct buffer cap m = Throw bad_alloc m
     <-> cap < info_size + 2 * unit_size)
  /\ (info_size + 2 * unit_size <= cap -> buffer <> 0 ->
      exists m' i,
        Static.construct buffer cap m = Ret {| d_allocator_info_p := buffer |} m'
        /\ infos m' !! buffer = Some i
        /\ static_memory_map i = buffer
        /\ capacity i = cap
        /\ free_size i = cap - (info_size + 2 * unit_size)
        /\ free_list i = 0
        /\ d_next m' = d_next m /\ d_size m' = d_size m).
Proof.
  intros Hcap. split.
  - unfold Static.construct. rewrite minimum_memory_size_eq. split.
    + intros H.
      destruct (Z.ltb_spec cap (info_size + 2 * unit_size)) as [|Hge];
        [assumption|exfalso].
      unfold bind, put_info in H. destruct (buffer =? 0); discriminate H.
    + intros Hlt. settle. reflexivity.
  - intros Hge Hbuf. eexists _, _.
    split; [apply construct_returns; [lia|exact Hbuf]|].
    cbn. rewrite lookup_insert_eq. repeat split.
Qed.

End Arena.

(** ** The argument checks of [deallocate] *)

Section Deallocate.
Context {L : Layout}.

(** The bounds test decides [range_within]. *)
Lemma in_bounds_spec (i : allocator_info_t) (ptr n_obj : Z) :
  Static.in_bounds i ptr n_obj = true <-> range_within i ptr n_obj.
Proof.
  unfold Static.in_bounds, range_within.
  rewrite andb_true_iff, Z.gtb_ltb, Z.ltb_lt, Z.leb_le. reflexivity.
Qed.

(** When neither end wraps around, the test is the comparison of the
    exact ends. *)
Lemma range_within_exact (i : allocator_info_t) (ptr n_obj : Z) :
  0 <= static_memory_map i ->
  0 <= capacity i ->
  static_memory_map i + capacity i < 2 ^ 64 ->
  0 <= ptr ->
  0 <= n_obj * sizeof_T ->
  ptr + n_obj * sizeof_T < 2 ^ 64 ->
  range_within i ptr n_obj
  <-> static_memory_map i < ptr
      /\ ptr + n_obj * sizeof_T <= static_memory_map i + capacity i.
Proof.
  intros Hb Hc Htop Hp Hn Hend. unfold range_within.
  rewrite (mul64_small n_obj) by lia.
  rewrite (add64_small ptr) by lia.
  rewrite (add64_small (static_memory_map i)) by lia. reflexivity.
Qed.

(** Reading the header through the handle. *)
Lemma get_info_at (m : memory) (this : Static_Allocator) (i : allocator_info_t) :
  arena_at m this i -> get_info (d_allocator_info_p this) m = Ret i m.
Proof.
  intros [Hp Hi]. unfold get_info. rewrite Hi.
  destruct (Z.eqb_spec (d_allocator_info_p this) 0); [contradiction|reflexivity].
Qed.

(** The checks [deallocate] makes.  On every arena, [deallocate] of a null
    pointer, or of a pointer that fails the bounds test of the code, where
    both ends are computed modulo [2^64], throws [invalid_argument], and
    the memory at the throw is the memory of the call: no header field, no
    block field has changed. *)
Theorem deallocate_rejects (m : memory) (this : Static_Allocator)
    (i : allocator_info_t) (ptr n_obj : Z) (fuel : nat) :
  arena_at m this i ->
  ptr = 0 \/ ~ range_within i ptr n_obj ->
  exists what,
    Static.deallocate this ptr n_obj fuel m = Throw (invalid_argument what) m.
Proof.
  intros Hat Hbad. unfold Static.deallocate.
  destruct (Z.eqb_spec ptr 0) as [Hnull|Hnn].
  - eexists. reflexivity.
  - destruct Hbad as [Hnull|Hout]; [contradiction|].
    unfold bind at 1. rewrite (get_info_at _ _ _ Hat).
    destruct (Static.in_bounds i ptr n_obj) eqn:Hin.
    + apply in_bounds_spec in Hin. contradiction.
    + eexists. reflexivity.
Qed.

(** C10.  Two calls of [deallocate] on the same memory with the same
    pointer, whose object counts both pass the bounds check, have the same
    outcome: the same memory after the call, or the same failure. *)
Theorem deallocate_count_irrelevant (m : memory) (this : Static_Allocator)
    (i : allocator_info_t) (ptr n1 n2 : Z) (fuel : nat) :
  arena_at m this i ->
  range_within i ptr n1 ->
  range_within i ptr n2 ->
  Static.deallocate this ptr n1 fuel m = Static.deallocate this ptr n2 fuel m.
Proof.
  intros Hat H1 H2. apply in_bounds_spec in H1, H2.
  unfold Static.deallocate.
  destruct (ptr =? 0); [reflexivity|].
  unfold bind. rewrite (get_info_at _ _ _ Hat), H1, H2. reflexivity.
Qed.

(** C9.  On an arena whose free list is still null, [deallocate] of a
    pointer that is not null and passes the bounds check enters the search
    loop and dereferences the null list head: the outcome is a fault, with
    the memory untouched, and not an exception. *)
Theorem deallocate_unchecked (m : memory) (this : Static_Allocator)
    (i : allocator_info_t) (ptr n_obj : Z) (fuel : nat) :
  arena_at m this i ->
  free_list i = 0 ->
  ptr <> 0 ->
  range_within i ptr n_obj ->
  Static.locate (S fuel) (Static.block_sub ptr 1) (free_list i) m
    = Fault null_dereference m
  /\ Static.deallocate this ptr n_obj (S fuel) m = Fault null_dereference m.
Proof.
  intros Hat Hfl Hnn Hin. apply in_bounds_spec in Hin.
  assert (Hloc : Static.locate (S fuel) (Static.block_sub ptr 1) (free_list i) m
                 = Fault null_dereference m).
  { rewrite Hfl. cbn [Static.locate]. unfold bind at 1.
    pose proof (u64_range (ptr - 1 * unit_size)) as Hb.
    unfold Static.block_sub. rewrite Z.geb_leb.
    rewrite (proj2 (Z.leb_le 0 _)) by lia.
    reflexivity. }
  split; [exact Hloc|].
  unfold Static.deallocate. settle.
  unfold bind at 1. rewrite (get_info_at _ _ _ Hat), Hin. cbn [negb].
  unfold Static.release, bind at 1. rewrite Hloc. reflexivity.
Qed.

(** The checks the other methods make on a null handle, which [deallocate]
    does not make. *)
Lemma null_handle_outcomes (m : memory) (ptr n : Z) (fuel : nat) :
  ptr <> 0 ->
  let null := {| d_allocator_info_p := 0 |} in
  Static.allocate_b null n fuel m
    = Throw (invalid_argument "Uninitialized static memory") m
  /\ Static.free_size null m
    = Throw (runtime_error "Uninitialized allocator information") m
  /\ Static.unified null m
    = Throw (runtime_error "Uninitialized allocator information") m
  /\ Static.deallocate null ptr n fuel m = Fault null_dereference m.
Proof.
  intros Hnn null. repeat split.
  unfold Static.deallocate. settle. reflexivity.
Qed.

End Deallocate.

(** ** [unified] *)

Section Unified.
Context {L : Layout}.

(** Reading a field that holds a value. *)
Lemma get_next_at (m : memory) (a v : Z) :
  a <> 0 -> d_next m !! a = Some v -> get_next a m = Ret v m.
Proof.
  intros Ha Hv. unfold get_next. rewrite Hv.
  destruct (Z.eqb_spec a 0); [contradiction|reflexivity].
Qed.

(** Taking the sentinel out of a list without repetition shortens it by
    one. *)
Lemma real_blocks_length (i : allocator_info_t) (l : list Z) :
  NoDup l -> free_memory_map i ∈ l ->
  S (length (real_blocks i l)) = length l.
Proof.
  unfold real_blocks. induction 1 as [|a l Ha Hl IH]; intros Hin.
  - inversion Hin.
  - destruct (decide (a = free_memory_map i)) as [->|Hne].
    + rewrite filter_cons_False by (intros H; apply H; reflexivity).
      cbn. f_equal.
      assert (Hall : Forall (fun a => a <> free_memory_map i) l).
      { apply Forall_forall. intros x Hx ->. contradiction. }
      clear -Hall. induction Hall as [|x l Hx _ IH]; [reflexivity|].
      rewrite filter_cons_True by exact Hx. cbn. f_equal. exact IH.
    + rewrite filter_cons_True by exact Hne. cbn. f_equal.
      apply IH. apply elem_of_cons in Hin as [Heq|Hin]; [|exact Hin].
      symmetry in Heq. contradiction.
Qed.

(** What [unified] computes on a circular list: whether it has at most two
    nodes. *)
Lemma unified_nodes (m : memory) (this : Static_Allocator)
    (i : allocator_info_t) (l : list Z) :
  arena_at m this i ->
  static_memory_map i <> 0 ->
  free_nodes m i l ->
  Static.unified this m = Ret (bool_decide (length l <= 2)%nat) m.
Proof.
  intros [Hp Hi] Hbase (Hring & Hnd & H0).
  unfold Static.unified. settle. unfold bind at 1.
  unfold get_info. settle. rewrite Hi. settle.
  destruct l as [|a l]; [contradiction|]. destruct Hring as [-> Hring].
  assert (Ha : free_list i <> 0).
  { intros Heq. apply H0. rewrite Heq. left. }
  settle.
  destruct l as [|b l]; cbn [linked] in Hring.
  - unfold bind. rewrite !(get_next_at _ _ _ Ha Hring). unfold ret.
    rewrite Z.eqb_refl. reflexivity.
  - destruct Hring as [Hab Hring].
    assert (Hb : b <> 0).
    { intros Heq. apply H0. rewrite Heq. right. left. }
    unfold bind. rewrite (get_next_at _ _ _ Ha Hab).
    destruct l as [|c l]; cbn [linked] in Hring.
    + rewrite (get_next_at _ _ _ Hb Hring). unfold ret.
      rewrite Z.eqb_refl. reflexivity.
    + destruct Hring as [Hbc _].
      rewrite (get_next_at _ _ _ Hb Hbc). unfold ret.
      assert (Hne : c <> free_list i).
      { intros Heq. apply NoDup_cons in Hnd as [Hnotin _].
        apply Hnotin. rewrite Heq. right. left. }
      settle. rewrite bool_decide_eq_false_2; [reflexivity|cbn; lia].
Qed.

(** C7, amended.  On a circular free list that holds the sentinel,
    [unified] returns true exactly when the list holds at most one block
    besides the sentinel: one block, or none when the sentinel is alone.  On
    a null handle it throws, and on a header whose memory map or free list is
    null it returns false. *)
Theorem unified_spec (m : memory) (this : Static_Allocator) :
  (forall i l,
      arena_at m this i ->
      static_memory_map i <> 0 ->
      free_nodes m i l ->
      free_memory_map i ∈ l ->
      exists r, Static.unified this m = Ret r m
                /\ (r = true <-> (length (real_blocks i l) <= 1)%nat))
  /\ (d_allocator_info_p this = 0 ->
      exists what, Static.unified this m = Throw (runtime_error what) m)
  /\ (forall i,
      arena_at m this i ->
      static_memory_map i = 0 \/ free_list i = 0 ->
      Static.unified this m = Ret false m).
Proof.
  split; [|split].
  - intros i l Hat Hbase Hnodes Hin. eexists. split.
    + apply (unified_nodes _ _ _ _ Hat Hbase Hnodes).
    + destruct Hnodes as (_ & Hnd & _).
      pose proof (real_blocks_length i l Hnd Hin) as Hlen.
      rewrite bool_decide_eq_true. lia.
  - intros Hnull. unfold Static.unified. rewrite Hnull. eexists. reflexivity.
  - intros i [Hp Hi] Hnil. unfold Static.unified. settle.
    unfold bind, get_info. settle. rewrite Hi.
    destruct Hnil as [H|H]; rewrite H; [reflexivity|].
    destruct (static_memory_map i =? 0); reflexivity.
Qed.

End Unified.

(** ** Allocating and releasing on an arena with no live allocation *)

Section RoundTrip.
Context {L : Layout} (HL : layout_ok L).

(** The rounding of a request: it is at least one unit; either nothing
    wraps around and the units after the header hold the request, or the
    sum wraps around and a single unit is computed. *)
Lemma blocks_needed_spec (n_bytes : Z) :
  0 < n_bytes < 2 ^ 64 ->
  1 <= Static.blocks_needed n_bytes < 2 ^ 64
  /\ (n_bytes + unit_size <= 2 ^ 64
      /\ n_bytes <= (Static.blocks_needed n_bytes - 1) * unit_size
                 <= n_bytes + unit_size - 1
      \/ 2 ^ 64 < n_bytes + unit_size /\ Static.blocks_needed n_bytes = 1).
Proof.
  intros Hn. destruct HL. unfold Static.blocks_needed, add64, sub64.
  rewrite u64_sub_l.
  destruct (Z_lt_le_dec (n_bytes + unit_size - 1) (2 ^ 64)) as [Hlt|Hge].
  - rewrite (u64_small (n_bytes + unit_size - 1)) by lia.
    assert (Hu0 : unit_size <> 0) by lia.
    assert (Hu1 : 0 < unit_size) by lia.
    pose proof (Z.div_mod (n_bytes + unit_size - 1) unit_size Hu0) as Hdm.
    pose proof (Z.mod_pos_bound (n_bytes + unit_size - 1) unit_size Hu1) as Hr.
    set (q := (n_bytes + unit_size - 1) / unit_size) in *.
    assert (0 <= q) by (apply Z.div_pos; lia).
    assert (q < 2 ^ 63) by nia.
    rewrite (u64_small (q + 1)) by lia. split; [lia|]. left.
    split; [lia|]. nia.
  - rewrite (u64_wrapped (n_bytes + unit_size - 1)) by lia.
    rewrite Z.div_small by lia. rewrite u64_small by lia.
    split; [lia|]. right. split; [lia|reflexivity].
Qed.

(** Without wrap-around in the rounding, a request for more bytes than are
    free returns null and changes nothing. *)
Lemma allocate_b_exhausted (m : memory) (this : Static_Allocator)
    (i : allocator_info_t) (n_bytes : Z) (fuel : nat) :
  arena_at m this i ->
  static_memory_map i <> 0 ->
  0 <= free_size i < n_bytes ->
  n_bytes + 2 * unit_size <= 2 ^ 64 ->
  Static.allocate_b this n_bytes fuel m = Ret 0 m.
Proof.
  intros [Hp Hi] Hbase Hfs Hbytes. pose proof HL as [Hu _ _ _ _].
  destruct (blocks_needed_spec n_bytes ltac:(lia)) as [Hn [Hle|[Hover _]]];
    [|lia].
  unfold Static.allocate_b. settle.
  unfold bind, get_info. settle. rewrite Hi. settle. settle.
  rewrite mul64_small by lia.
  rewrite (proj2 (Z.ltb_lt _ _)) by lia. reflexivity.
Qed.

(** The search on a free list made of the sentinel and one block: if it
    returns a pointer, the block was carved from the end of that block. *)
Lemma first_fit_whole (fuel : nat) (p : Z) (m : memory)
    (i : allocator_info_t) (s n : Z) :
  infos m !! p = Some i ->
  arena_ok i ->
  whole m i s ->
  1 <= n < 2 ^ 64 ->
  mul64 n unit_size <= free_size i ->
  if_returns
    (Static.first_fit fuel p n (free_memory_map i)
       (free_memory_map i + unit_size)) m
    (fun ptr m1 => ptr <> 0 -> carved p i s n ptr m1).
Proof.
  intros Hi [Hbase Htop Hmin Hhead] Hwhole Hn Hcheck.
  destruct HL as [Hu Hinfo _ _ _].
  destruct Hwhole as (Hfl & Hs0 & Hn0 & Hs1 & Hn1 & Hs & Hend & Hfs).
  set (head := free_memory_map i) in *.
  set (init := head + unit_size) in *.
  destruct fuel as [|fuel]; [intros ? ? H; discriminate H|].
  cbn [Static.first_fit]. step. step.
  rewrite Z.geb_leb. destruct (Z.leb_spec n s) as [Hfit|Hfit].
  - assert (Hnu : n * unit_size <= s * unit_size) by nia.
    assert (Hun : unit_size <= n * unit_size) by nia.
    assert (Hmul : mul64 n unit_size = n * unit_size).
    { unfold mul64. apply u64_small. nia. }
    rewrite Hmul in *.
    step. destruct (Z.eqb_spec s n) as [Heq|Hne].
    + subst s. repeat step.
      intros Hptr. unfold carved. fold head. fold init.
      replace (init + (n - n) * unit_size) with init by ring.
      rewrite block_add_small by lia.
      cbn [free_size with_free_list with_free_size].
      unfold sub64. rewrite u64_small by lia.
      repeat split; try lia; try lookup. left. split; [reflexivity|lookup].
    + assert (Hpos : 0 < (s - n) * unit_size) by nia.
      assert (Hsub : sub64 s n = s - n).
      { unfold sub64. apply u64_small. nia. }
      rewrite Hsub. step. step. step. step.
      rewrite (block_add_small init (s - n)) by lia.
      repeat step. intros Hptr. unfold carved. fold head. fold init.
      rewrite block_add_small by lia.
      cbn [free_size with_free_list with_free_size].
      unfold sub64. rewrite u64_small by lia.
      repeat split; try lia; try lookup. right.
      repeat split; try lia; lookup.
  - step. step.
    destruct Hfl as [Hfl|Hfl]; rewrite Hfl.
    + rewrite (proj2 (Z.eqb_neq init head)) by (unfold init; lia).
      step. step.
      destruct fuel as [|fuel]; [intros ? ? H; discriminate H|].
      cbn [Static.first_fit]. step. step.
      rewrite Z.geb_leb, (proj2 (Z.leb_gt n 0)) by lia.
      step. step. rewrite Hfl, Z.eqb_refl. step. intros Hptr. contradiction.
    + rewrite Z.eqb_refl. step. intros Hptr. contradiction.
Qed.

(** [allocate_b] on an arena with no live allocation: if it returns a
    pointer, the request was not empty and the block was carved from the one
    free block, which the call may have had to build first. *)
Lemma allocate_b_no_live (m : memory) (this : Static_Allocator)
    (i : allocator_info_t) (n_bytes : Z) (fuel : nat) :
  arena_at m this i ->
  arena_ok i ->
  no_live_allocations m i ->
  0 <= n_bytes < 2 ^ 64 ->
  if_returns (Static.allocate_b this n_bytes fuel) m
    (fun ptr m1 =>
       ptr <> 0 ->
       n_bytes <> 0
       /\ exists s,
           0 <= s
           /\ free_memory_map i + unit_size + s * unit_size
              <= static_memory_map i + capacity i
           /\ carved (d_allocator_info_p this) i s
                (Static.blocks_needed n_bytes) ptr m1).
Proof.
  intros [Hp Hi] Hok Hfree Hbytes.
  pose proof Hok as [Hbase Htop Hmin Hhead].
  pose proof HL as [Hu Hinfo _ _ _].
  unfold Static.allocate_b. settle. step. step. settle.
  destruct (Z.eqb_spec n_bytes 0) as [Hz|Hnz]; [step|].
  destruct (blocks_needed_spec n_bytes ltac:(lia)) as [Hn _].
  set (n := Static.blocks_needed n_bytes) in *.
  destruct (Z.ltb_spec (free_size i) (mul64 n unit_size)) as [Hlt|Hcheck].
  { step. intros Hptr. contradiction. }
  set (p := d_allocator_info_p this) in *.
  set (head := free_memory_map i) in *.
  step.
  destruct Hfree as [[Hfl Hfs]|[s Hwhole]].
  - rewrite Hfl. cbn [Z.eqb].
    rewrite (block_add_small head 1) by lia.
    replace (head + 1 * unit_size) with (head + unit_size) by ring.
    repeat step.
    eapply if_returns_weaken.
    + apply (first_fit_whole fuel p _ (with_free_list head i)
               (free_size i / unit_size) n).
      * lookup.
      * constructor; cbn; assumption.
      * assert (0 <= free_size i / unit_size) by (apply Z.div_pos; lia).
        assert (unit_size * (free_size i / unit_size) <= free_size i)
          by (apply Z.mul_div_le; lia).
        unfold whole. cbn [free_memory_map free_list with_free_list
                            static_memory_map capacity free_size].
        fold head.
        repeat split; try lia; try lookup.
      * exact Hn.
      * exact Hcheck.
    + cbn beta. intros ptr m1 H Hptr. split; [exact Hnz|].
      exists (free_size i / unit_size).
      assert (0 <= free_size i / unit_size) by (apply Z.div_pos; lia).
      assert (unit_size * (free_size i / unit_size) <= free_size i)
        by (apply Z.mul_div_le; lia).
      split; [lia|]. split; [fold head; lia|].
      exact (H Hptr).
  - pose proof Hwhole as (Hfl & Hs0 & Hn0 & Hs1 & Hn1 & Hs & Hend & Hfs).
    fold head in Hfl, Hs0, Hn0, Hs1, Hn1, Hend.
    assert (Hlemma : forall fuel,
      if_returns (Static.first_fit fuel p n head (head + unit_size)) m
        (fun ptr m1 =>
           ptr <> 0 ->
           n_bytes <> 0
           /\ exists s0,
               0 <= s0
               /\ head + unit_size + s0 * unit_size
                  <= static_memory_map i + capacity i
               /\ carved p i s0 n ptr m1)).
    { intros fuel'. eapply if_returns_weaken.
      - apply (first_fit_whole fuel' p m i s n Hi Hok Hwhole Hn Hcheck).
      - cbn beta. intros ptr m1 H Hptr. split; [exact Hnz|].
        exists s. split; [lia|]. split; [lia|]. exact (H Hptr). }
    destruct Hfl as [Hfl|Hfl]; rewrite Hfl.
    + rewrite (proj2 (Z.eqb_neq head 0)) by lia. repeat step. apply Hlemma.
    + rewrite (proj2 (Z.eqb_neq (head + unit_size) 0)) by lia. repeat step.
      destruct fuel as [|fuel]; [intros ? ? H; discriminate H|].
      cbn [Static.first_fit]. step. step.
      rewrite Z.geb_leb, (proj2 (Z.leb_gt n 0)) by lia.
      step. step. rewrite Hfl.
      rewrite (proj2 (Z.eqb_neq head (head + unit_size))) by lia.
      repeat step. apply Hlemma.
Qed.

(** Releasing the carved block puts the free list back to the sentinel and
    one block of the size it had, and the free-byte count back to what it
    was. *)
Lemma release_carved (fuel : nat) (p : Z) (i : allocator_info_t)
    (s n ptr : Z) (m1 : memory) :
  p <> 0 ->
  arena_ok i ->
  carved p i s n ptr m1 ->
  1 <= n ->
  free_memory_map i + unit_size + s * unit_size
    <= static_memory_map i + capacity i ->
  0 <= free_size i < 2 ^ 64 ->
  (2 <= fuel)%nat ->
  returns
    (Static.release p (Static.block_sub ptr 1) (free_memory_map i) fuel) m1
    (fun _ m2 =>
       exists i2,
         infos m2 !! p = Some i2
         /\ static_memory_map i2 = static_memory_map i
         /\ free_memory_map i2 = free_memory_map i
         /\ free_size i2 = free_size i
         /\ whole m2 i2 s).
Proof.
  intros Hp [Hbase Htop Hmin Hhead] Hcarved Hn Hend Hfs Hfuel.
  pose proof HL as [Hu Hinfo _ _ _].
  destruct Hcarved as (Hfit & Hptr & Hcheck & Hi1 & Hs0 & Hsb & Hshape).
  set (head := free_memory_map i) in *.
  set (init := head + unit_size) in *.
  assert (Hnu : n * unit_size <= s * unit_size) by nia.
  assert (Hun : unit_size <= n * unit_size) by nia.
  subst ptr. rewrite block_sub_add by lia.
  destruct fuel as [|[|fuel]]; [lia|lia|].
  unfold Static.release.
  destruct Hshape as [[Heq Hn0]|(Hlt & Hn0 & Hn1 & Hs1)].
  - subst s. replace (init + (n - n) * unit_size) with init in * by ring.
    cbn [Static.locate]. run.
    eexists. split; [lookup|].
    cbn [free_size with_free_list with_free_size static_memory_map
         free_memory_map].
    rewrite ?add64_small by lia.
    split; [reflexivity|]. split; [reflexivity|]. split; [ring|].
    unfold whole.
    cbn [free_size free_list free_memory_map static_memory_map capacity
         with_free_size with_free_list].
    fold head. fold init.
    repeat split; try lia; try lookup.
  - assert (Hpos : 0 < (s - n) * unit_size) by nia.
    assert (Hs64 : s < 2 ^ 64) by nia.
    set (b := init + (s - n) * unit_size) in *.
    cbn [Static.locate]. run.
    eexists. split; [lookup|].
    cbn [free_size with_free_list with_free_size static_memory_map
         free_memory_map].
    rewrite ?add64_small by lia.
    split; [reflexivity|]. split; [reflexivity|]. split; [ring|].
    unfold whole.
    cbn [free_size free_list free_memory_map static_memory_map capacity
         with_free_size with_free_list].
    fold head. fold init.
    repeat split; try lia; try lookup.
    cbn [d_size]. rewrite lookup_insert_eq. f_equal.
    rewrite ?add64_small by lia. ring.
Qed.

(** The payload of a block that lies in the arena passes the bounds test
    of [deallocate] with the count it was allocated for, also when the size
    in bytes of that count wraps around. *)
Lemma payload_in_bounds (i : allocator_info_t) (blk n_obj : Z) :
  0 < static_memory_map i ->
  static_memory_map i + capacity i < 2 ^ 64 ->
  static_memory_map i < blk ->
  mul64 n_obj sizeof_T <> 0 ->
  blk + Static.blocks_needed (mul64 n_obj sizeof_T) * unit_size
    <= static_memory_map i + capacity i ->
  range_within i (blk + unit_size) n_obj.
Proof.
  intros Hbase Htop Hblk Hnz Hend. pose proof HL as [Hu _ _ _ _].
  pose proof (u64_range (n_obj * sizeof_T)) as Hbytes.
  fold (mul64 n_obj sizeof_T) in Hbytes.
  set (n_bytes := mul64 n_obj sizeof_T) in *.
  destruct (blocks_needed_spec n_bytes ltac:(lia)) as [Hn Hcases].
  set (n := Static.blocks_needed n_bytes) in *.
  assert (Hun : unit_size <= n * unit_size) by nia.
  unfold range_within.
  rewrite (add64_small (static_memory_map i)) by lia.
  split; [lia|].
  destruct Hcases as [Hle|[Hover Hone]].
  - rewrite add64_small by lia. lia.
  - unfold add64. rewrite u64_wrapped by lia. lia.
Qed.

Lemma carved_in_bounds (p : Z) (i i1 : allocator_info_t) (s n_obj ptr : Z)
    (m1 : memory) :
  arena_ok i ->
  static_memory_map i1 = static_memory_map i ->
  capacity i1 = capacity i ->
  free_memory_map i + unit_size + s * unit_size
    <= static_memory_map i + capacity i ->
  mul64 n_obj sizeof_T <> 0 ->
  carved p i s (Static.blocks_needed (mul64 n_obj sizeof_T)) ptr m1 ->
  range_within i1 ptr n_obj.
Proof.
  intros [Hbase Htop Hmin Hhead] Hb1 Hc1 Hend Hnz Hcarved.
  pose proof HL as [Hu Hinfo _ _ _].
  destruct Hcarved as (Hfit & Hptr & _).
  assert (Hnu : Static.blocks_needed (mul64 n_obj sizeof_T) * unit_size
                <= s * unit_size) by nia.
  subst ptr. apply payload_in_bounds; rewrite ?Hb1, ?Hc1; lia.
Qed.

(** [unified] is true on the sentinel and one block. *)
Lemma unified_whole (m : memory) (this : Static_Allocator)
    (i : allocator_info_t) (s : Z) :
  arena_at m this i ->
  0 < static_memory_map i ->
  0 < free_memory_map i ->
  whole m i s ->
  Static.unified this m = Ret true m.
Proof.
  intros Hat Hbase Hhead (Hfl & _ & Hn0 & _ & Hn1 & _).
  pose proof HL as [Hu _ _ _ _].
  unfold Static.unified. destruct Hat as [Hp Hi]. settle.
  unfold bind. unfold get_info. settle. rewrite Hi. settle.
  assert (Hh0 : free_memory_map i <> 0) by lia.
  assert (Hi0 : free_memory_map i + unit_size <> 0) by lia.
  destruct Hfl as [Hfl|Hfl]; rewrite Hfl; settle.
  - rewrite (get_next_at _ _ _ Hh0 Hn0), (get_next_at _ _ _ Hi0 Hn1).
    unfold ret. rewrite Z.eqb_refl. reflexivity.
  - rewrite (get_next_at _ _ _ Hi0 Hn1), (get_next_at _ _ _ Hh0 Hn0).
    unfold ret. rewrite Z.eqb_refl. reflexivity.
Qed.

(** C3.  On an arena with no live allocation, when [allocate(n_obj)]
    returns a pointer that is not null, [deallocate] of that pointer with
    the same count returns, [free_size()] is then what it was before the
    allocation, and [unified()] is true. *)
Theorem round_trip (m : memory) (this : Static_Allocator)
    (i : allocator_info_t) (n_obj : Z) (fuel fuel' : nat) (ptr : Z)
    (m1 : memory) :
  arena_at m this i ->
  arena_ok i ->
  no_live_allocations m i ->
  Static.allocate this n_obj fuel m = Ret ptr m1 ->
  ptr <> 0 ->
  (2 <= fuel')%nat ->
  exists m2,
    Static.deallocate this ptr n_obj fuel' m1 = Ret tt m2
    /\ Static.free_size this m = Ret (free_size i) m
    /\ Static.free_size this m2 = Ret (free_size i) m2
    /\ Static.unified this m2 = Ret true m2.
Proof.
  intros Hat Hok Hfree Halloc Hptr Hfuel.
  pose proof Hat as [Hp Hi].
  pose proof Hok as [Hbase Htop Hmin Hhead].
  pose proof HL as [Hu Hinfo _ _ _].
  assert (Hfs : 0 <= free_size i < 2 ^ 64).
  { destruct Hfree as [[_ Hfs]|[s Hw]]; [lia|apply Hw]. }
  unfold Static.allocate in Halloc.
  destruct (allocate_b_no_live m this i (mul64 n_obj sizeof_T) fuel
              Hat Hok Hfree (u64_range _) ptr m1 Halloc Hptr)
    as (Hnz & s & Hs & Hend & Hcarved).
  set (p := d_allocator_info_p this) in *.
  pose proof Hcarved as (Hfit & _ & _ & Hi1 & _).
  assert (Hbytes : 0 < mul64 n_obj sizeof_T < 2 ^ 64).
  { pose proof (u64_range (n_obj * sizeof_T)). unfold mul64 in *. lia. }
  destruct (blocks_needed_spec _ Hbytes) as [[Hn _] _].
  destruct (release_carved fuel' p i s _ ptr m1 Hp Hok Hcarved
              Hn Hend Hfs Hfuel)
    as ([] & m2 & Hrel & i2 & Hi2 & Hb2 & Hh2 & Hfs2 & Hwhole).
  exists m2. split; [|split; [|split]].
  - unfold Static.deallocate. fold p. settle.
    unfold bind, get_info. settle. rewrite Hi1.
    rewrite (proj2 (in_bounds_spec _ ptr n_obj)).
    + exact Hrel.
    + eapply (carved_in_bounds p i); eauto.
  - unfold Static.free_size, bind, get_info. fold p. settle. rewrite Hi.
    reflexivity.
  - unfold Static.free_size, bind, get_info. fold p. settle. rewrite Hi2, Hfs2.
    reflexivity.
  - apply (unified_whole m2 this i2 s); [split; assumption|lia|lia|exact Hwhole].
Qed.

End RoundTrip.

(** ** The free-byte count across releases *)

Section Conservation.
Context {L : Layout} (HL : layout_ok L).

(** [deallocate] of a pointer that passes the checks is the release of its
    block. *)
Lemma returns_deallocate (this : Static_Allocator) (i : allocator_info_t)
    (ptr n_obj : Z) (fuel : nat) (m : memory) (Q : unit -> memory -> Prop) :
  arena_at m this i ->
  ptr <> 0 ->
  range_within i ptr n_obj ->
  returns (Static.release (d_allocator_info_p this) (Static.block_sub ptr 1)
             (free_list i) fuel) m Q ->
  returns (Static.deallocate this ptr n_obj fuel) m Q.
Proof.
  intros Hat Hptr Hin (a & m' & Hrel & HQ). exists a, m'. split; [|exact HQ].
  unfold Static.deallocate. settle.
  unfold bind at 1. rewrite (get_info_at _ _ _ Hat).
  rewrite (proj2 (in_bounds_spec _ _ _) Hin). exact Hrel.
Qed.


(** C1, where the code departs from it.  On every fresh arena, two
    allocations that leave room in the free block, released in the order
    they were made, return; the arena is then unified with no live
    allocation, and [free_size()] is the usable capacity plus the size of the
    first block: the second release merges forward with the first block and
    counts it again. *)
Theorem forward_merge_counts_twice (m : memory) (this : Static_Allocator)
    (i : allocator_info_t) (n_obj1 n_obj2 : Z) :
  arena_at m this i ->
  arena_ok i ->
  pristine i ->
  mul64 n_obj1 sizeof_T <> 0 ->
  mul64 n_obj2 sizeof_T <> 0 ->
  Static.blocks_needed (mul64 n_obj1 sizeof_T)
    + Static.blocks_needed (mul64 n_obj2 sizeof_T)
    < free_size i / unit_size ->
  returns (release_in_order_made this n_obj1 n_obj2) m
    (fun r _ =>
       r = (add64 (free_size i)
              (Static.blocks_needed (mul64 n_obj1 sizeof_T) * unit_size),
            true)).
Proof.
  intros [Hp Hi] [Hbase Htop Hmin Hhead] [Hfl Hfs] Hnz1 Hnz2 Hroom.
  pose proof HL as [Hu Hinfo _ _ _].
  pose proof (u64_range (n_obj1 * sizeof_T)) as Hb1.
  pose proof (u64_range (n_obj2 * sizeof_T)) as Hb2.
  fold (mul64 n_obj1 sizeof_T) in Hb1. fold (mul64 n_obj2 sizeof_T) in Hb2.
  assert (Hb1' : 0 < mul64 n_obj1 sizeof_T < 2 ^ 64) by lia.
  assert (Hb2' : 0 < mul64 n_obj2 sizeof_T < 2 ^ 64) by lia.
  destruct (blocks_needed_spec HL _ Hb1') as [Hn1 _].
  destruct (blocks_needed_spec HL _ Hb2') as [Hn2 _].
  set (n1 := Static.blocks_needed (mul64 n_obj1 sizeof_T)) in *.
  set (n2 := Static.blocks_needed (mul64 n_obj2 sizeof_T)) in *.
  assert (Hs0 : 0 <= free_size i / unit_size) by (apply Z.div_pos; lia).
  assert (Hsu : unit_size * (free_size i / unit_size) <= free_size i)
    by (apply Z.mul_div_le; lia).
  assert (Hu1 : unit_size <= n1 * unit_size) by nia.
  assert (Hu2 : unit_size <= n2 * unit_size) by nia.
  assert (Hroom' : n1 * unit_size + n2 * unit_size + unit_size
                   <= free_size i / unit_size * unit_size) by nia.
  assert (Hs64 : free_size i / unit_size < 2 ^ 64) by nia.
  unfold release_in_order_made, Static.allocate, Static.allocate_b.
  fold n1 n2.
  cbn [Static.first_fit]. run.
  rewrite !Z.mul_1_l.
  eapply returns_deallocate.
  { split; [exact Hp|lookup]. }
  { lia. }
  { apply (payload_in_bounds HL);
      cbn [static_memory_map capacity with_free_size with_free_list];
      fold n1; lia. }
  cbn [free_list with_free_size with_free_list].
  unfold Static.release. rewrite block_sub_add by lia.
  cbn [Static.locate]. run.
  eapply returns_deallocate.
  { split; [exact Hp|lookup]. }
  { lia. }
  { apply (payload_in_bounds HL);
      cbn [static_memory_map capacity with_free_size with_free_list];
      fold n2; lia. }
  cbn [free_list with_free_size with_free_list].
  unfold Static.release. rewrite block_sub_add by lia.
  cbn [Static.locate]. run.
  unfold Static.free_size, Static.unified. run.
  rewrite (add64_small n2 n1) by lia. rewrite mul64_small by lia.
  unfold add64. do 2 f_equal. ring.
Qed.

(** C4, where the code departs from it.  On every fresh arena, three
    allocations A, B, C of the same count that leave room in the free block,
    released in the order B, A, C, return; [unified()] is then true, and
    [free_size()] is the usable capacity plus twice the size of one block:
    the release of C merges forward with the block made of B and A and
    counts both again. *)
Theorem middle_block_first (m : memory) (this : Static_Allocator)
    (i : allocator_info_t) (n_obj : Z) :
  arena_at m this i ->
  arena_ok i ->
  pristine i ->
  mul64 n_obj sizeof_T <> 0 ->
  3 * Static.blocks_needed (mul64 n_obj sizeof_T) < free_size i / unit_size ->
  returns (release_middle_first this n_obj) m
    (fun r _ =>
       r = (true,
            add64 (free_size i)
              (2 * Static.blocks_needed (mul64 n_obj sizeof_T) * unit_size))).
Proof.
  intros [Hp Hi] [Hbase Htop Hmin Hhead] [Hfl Hfs] Hnz Hroom.
  pose proof HL as [Hu Hinfo _ _ _].
  pose proof (u64_range (n_obj * sizeof_T)) as Hb.
  fold (mul64 n_obj sizeof_T) in Hb.
  assert (Hb' : 0 < mul64 n_obj sizeof_T < 2 ^ 64) by lia.
  destruct (blocks_needed_spec HL _ Hb') as [Hn _].
  set (n := Static.blocks_needed (mul64 n_obj sizeof_T)) in *.
  assert (Hs0 : 0 <= free_size i / unit_size) by (apply Z.div_pos; lia).
  assert (Hsu : unit_size * (free_size i / unit_size) <= free_size i)
    by (apply Z.mul_div_le; lia).
  assert (Hun : unit_size <= n * unit_size) by nia.
  assert (Hroom' : 3 * (n * unit_size) + unit_size
                   <= free_size i / unit_size * unit_size) by nia.
  assert (Hs64 : free_size i / unit_size < 2 ^ 64) by nia.
  unfold release_middle_first, Static.allocate, Static.allocate_b. fold n.
  cbn [Static.first_fit]. run.
  rewrite !Z.mul_1_l.
  eapply returns_deallocate.
  { split; [exact Hp|lookup]. }
  { lia. }
  { apply (payload_in_bounds HL);
      cbn [static_memory_map capacity with_free_size with_free_list];
      fold n; lia. }
  cbn [free_list with_free_size with_free_list].
  unfold Static.release. rewrite block_sub_add by lia.
  cbn [Static.locate]. run.
  eapply returns_deallocate.
  { split; [exact Hp|lookup]. }
  { lia. }
  { apply (payload_in_bounds HL);
      cbn [static_memory_map capacity with_free_size with_free_list];
      fold n; lia. }
  cbn [free_list with_free_size with_free_list].
  unfold Static.release. rewrite block_sub_add by lia.
  cbn [Static.locate]. run.
  eapply returns_deallocate.
  { split; [exact Hp|lookup]. }
  { lia. }
  { apply (payload_in_bounds HL);
      cbn [static_memory_map capacity with_free_size with_free_list];
      fold n; lia. }
  cbn [free_list with_free_size with_free_list].
  unfold Static.release. rewrite block_sub_add by lia.
  cbn [Static.locate]. run.
  unfold Static.free_size, Static.unified. run.
  rewrite (add64_small n (n + n)) by lia. rewrite mul64_small by lia.
  unfold add64. do 2 f_equal. ring.
Qed.

End Conservation.

(** ** Requests beyond the free space *)

Section Exhaustion.
Context {L : Layout} (HL : layout_ok L).

(** C5, where the code departs from it.  On every fresh arena with at
    least one unit free, a request of more than [2^64 - unit_size] bytes,
    which is more than any arena has free, is rounded to a single unit:
    [allocate_b] returns a pointer that is not null, builds the free list
    and takes one unit off the free-byte count. *)
Theorem allocate_b_rounding_wraps (m : memory) (this : Static_Allocator)
    (i : allocator_info_t) (n_bytes : Z) :
  arena_at m this i ->
  arena_ok i ->
  pristine i ->
  unit_size <= free_size i < n_bytes ->
  2 ^ 64 - unit_size < n_bytes < 2 ^ 64 ->
  returns (Static.allocate_b this n_bytes 1) m
    (fun ptr m1 =>
       ptr <> 0
       /\ exists i1,
           infos m1 !! d_allocator_info_p this = Some i1
           /\ free_size i1 = free_size i - unit_size
           /\ free_list i1 = free_memory_map i).
Proof.
  intros [Hp Hi] [Hbase Htop Hmin Hhead] [Hfl Hfs] Hfree Hbytes.
  pose proof HL as [Hu Hinfo _ _ _].
  assert (Hb : 0 < n_bytes < 2 ^ 64) by lia.
  destruct (blocks_needed_spec HL _ Hb) as [_ [Hle|[_ Hone]]]; [lia|].
  assert (Hs1 : 1 <= free_size i / unit_size)
    by (apply Z.div_le_lower_bound; lia).
  assert (Hsu : unit_size * (free_size i / unit_size) <= free_size i)
    by (apply Z.mul_div_le; lia).
  assert (Hs64 : free_size i / unit_size < 2 ^ 64) by nia.
  unfold Static.allocate_b. rewrite Hone. cbn [Static.first_fit]. run.
  rewrite !Z.mul_1_l.
  destruct (Z.eq_dec (free_size i / unit_size) 1) as [Heq|Hne].
  - rewrite Heq in *. run.
    split; [lia|]. eexists. split; [lookup|].
    cbn [free_size free_list with_free_size with_free_list].
    split; [lia|reflexivity].
  - assert (Hpos : unit_size <= (free_size i / unit_size - 1) * unit_size)
      by nia.
    run. split; [lia|]. eexists. split; [lookup|].
    cbn [free_size free_list with_free_size with_free_list].
    split; [lia|reflexivity].
Qed.

End Exhaustion.

(** ** Releases in the reverse order of the allocations *)

Section ReverseOrder.
Context {L : Layout} (HL : layout_ok L).

(** X4.  On every fresh arena, two allocations that leave room in the free
    block, released last made first, return; every release merges backward
    only, [free_size()] is then again the usable capacity, and the arena is
    unified. *)
Theorem reverse_order_restores (m : memory) (this : Static_Allocator)
    (i : allocator_info_t) (n_obj1 n_obj2 : Z) :
  arena_at m this i ->
  arena_ok i ->
  pristine i ->
  mul64 n_obj1 sizeof_T <> 0 ->
  mul64 n_obj2 sizeof_T <> 0 ->
  Static.blocks_needed (mul64 n_obj1 sizeof_T)
    + Static.blocks_needed (mul64 n_obj2 sizeof_T)
    < free_size i / unit_size ->
  returns (release_in_reverse_order this n_obj1 n_obj2) m
    (fun r _ => r = (free_size i, true)).
Proof.
  intros [Hp Hi] [Hbase Htop Hmin Hhead] [Hfl Hfs] Hnz1 Hnz2 Hroom.
  pose proof HL as [Hu Hinfo _ _ _].
  pose proof (u64_range (n_obj1 * sizeof_T)) as Hb1.
  pose proof (u64_range (n_obj2 * sizeof_T)) as Hb2.
  fold (mul64 n_obj1 sizeof_T) in Hb1. fold (mul64 n_obj2 sizeof_T) in Hb2.
  assert (Hb1' : 0 < mul64 n_obj1 sizeof_T < 2 ^ 64) by lia.
  assert (Hb2' : 0 < mul64 n_obj2 sizeof_T < 2 ^ 64) by lia.
  destruct (blocks_needed_spec HL _ Hb1') as [Hn1 _].
  destruct (blocks_needed_spec HL _ Hb2') as [Hn2 _].
  set (n1 := Static.blocks_needed (mul64 n_obj1 sizeof_T)) in *.
  set (n2 := Static.blocks_needed (mul64 n_obj2 sizeof_T)) in *.
  assert (Hs0 : 0 <= free_size i / unit_size) by (apply Z.div_pos; lia).
  assert (Hsu : unit_size * (free_size i / unit_size) <= free_size i)
    by (apply Z.mul_div_le; lia).
  assert (Hu0 : 0 < unit_size) by lia.
  assert (Hu1 : unit_size <= n1 * unit_size) by (apply units_one; lia).
  assert (Hu2 : unit_size <= n2 * unit_size) by (apply units_one; lia).
  assert (Hroom' : n1 * unit_size + n2 * unit_size + unit_size
                   <= free_size i / unit_size * unit_size).
  { pose proof (units_le (n1 + n2 + 1) (free_size i / unit_size) unit_size Hu0).
    lia. }
  assert (Hs64 : free_size i / unit_size < 2 ^ 64).
  { apply Z.div_lt_upper_bound; lia. }
  unfold release_in_reverse_order, Static.allocate, Static.allocate_b.
  fold n1 n2.
  cbn [Static.first_fit]. run.
  rewrite !Z.mul_1_l.
  eapply returns_deallocate.
  { split; [exact Hp|lookup]. }
  { lia. }
  { apply (payload_in_bounds HL);
      cbn [static_memory_map capacity with_free_size with_free_list];
      fold n2; lia. }
  cbn [free_list with_free_size with_free_list].
  unfold Static.release. rewrite block_sub_add by lia.
  cbn [Static.locate]. run.
  eapply returns_deallocate.
  { split; [exact Hp|lookup]. }
  { lia. }
  { apply (payload_in_bounds HL);
      cbn [static_memory_map capacity with_free_size with_free_list];
      fold n1; lia. }
  cbn [free_list with_free_size with_free_list].
  unfold Static.release. rewrite block_sub_add by lia.
  cbn [Static.locate]. run.
  unfold Static.free_size, Static.unified. run.
  f_equal. ring.
Qed.

End ReverseOrder.

(** ** The argument checks of the allocation *)

Section AllocateChecks.
Context {L : Layout}.

(** X1.  [allocate_b] throws [invalid_argument] on a null handle and on a header
    whose memory map is null, whatever the request, and on a request of zero
    bytes; [allocate], with or without a hint, throws it for every count
    whose size in bytes is zero modulo [2^64], the count zero among them.
    The memory at the throw is the memory of the call. *)
Theorem allocate_b_rejects (m : memory) (this : Static_Allocator) (fuel : nat) :
  (forall n_bytes,
      d_allocator_info_p this = 0 ->
      Static.allocate_b this n_bytes fuel m
        = Throw (invalid_argument "Uninitialized static memory") m)
  /\ (forall i n_bytes,
      arena_at m this i ->
      static_memory_map i = 0 ->
      Static.allocate_b this n_bytes fuel m
        = Throw (invalid_argument "Uninitialized static memory") m)
  /\ (forall i,
      arena_at m this i ->
      static_memory_map i <> 0 ->
      Static.allocate_b this 0 fuel m
        = Throw (invalid_argument "Cannot allocate zero bytes") m
      /\ forall n_obj hint,
          mul64 n_obj sizeof_T = 0 ->
          Static.allocate this n_obj fuel m
            = Throw (invalid_argument "Cannot allocate zero bytes") m
          /\ Static.allocate_hint this n_obj hint fuel m
            = Throw (invalid_argument "Cannot allocate zero bytes") m).
Proof.
  split; [|split].
  - intros n_bytes Hnull. unfold Static.allocate_b. rewrite Hnull. reflexivity.
  - intros i n_bytes Hat Hmap. pose proof Hat as [Hp _].
    unfold Static.allocate_b. settle. unfold bind.
    rewrite (get_info_at _ _ _ Hat), Hmap. reflexivity.
  - intros i Hat Hmap. pose proof Hat as [Hp _].
    assert (Hzero : Static.allocate_b this 0 fuel m
                    = Throw (invalid_argument "Cannot allocate zero bytes") m).
    { unfold Static.allocate_b. settle. unfold bind.
      rewrite (get_info_at _ _ _ Hat). settle. reflexivity. }
    split; [exact Hzero|]. intros n_obj hint Hbytes.
    unfold Static.allocate_hint, Static.allocate. rewrite Hbytes.
    split; exact Hzero.
Qed.

End AllocateChecks.

(** ** The reference count of the shared region *)

Section Region.
Context {L : Layout} {OS : System} (HL : layout_ok L) (Hos : obliging).

(** Taking the semaphore when it is free, and dropping it when it is held. *)
Lemma take_sem_free (w : world) (p : Z) (h : shared_map_info_t)
    (Q : unit -> world -> Prop) :
  p <> 0 ->
  maps w !! p = Some h ->
  sem h = Some 1 ->
  Q tt {| heap := heap w; maps := <[p := with_sem (Some 0) h]> (maps w);
          objects := objects w; calls := calls w ++ [sem_wait p] |} ->
  returns (Shared.take_sem p) w Q.
Proof.
  intros Hp Hh Hsem HQ. unfold Shared.take_sem. step. step. step. step.
  rewrite Hsem. cbn [negb Z.eqb]. step. exact HQ.
Qed.

Lemma drop_sem_held (w : world) (p : Z) (h : shared_map_info_t)
    (Q : unit -> world -> Prop) :
  p <> 0 ->
  maps w !! p = Some h ->
  sem h = Some 0 ->
  Q tt {| heap := heap w; maps := <[p := with_sem (Some 1) h]> (maps w);
          objects := objects w; calls := calls w ++ [sem_post p] |} ->
  returns (Shared.drop_sem p) w Q.
Proof.
  intros Hp Hh Hsem HQ. unfold Shared.drop_sem. step. step. step. step.
  rewrite Hsem. change (0 >=? SEM_VALUE_MAX) with false.
  change (0 + 1) with 1. cbn [negb orb]. step. exact HQ.
Qed.

(** One step of a method of the shared allocator. *)
Ltac wstep :=
  first
    [ step
    | lazymatch goal with
      | |- returns (Shared.take_sem _) _ _ =>
          eapply take_sem_free; [lia|lookup|first [reflexivity|eassumption]|]
      | |- returns (Shared.drop_sem _) _ _ =>
          eapply drop_sem_held; [lia|lookup|first [reflexivity|eassumption]|]
      end ];
  cbn [sem ref_count shm_map_ptr shm_map_size shm_map_name
       with_sem with_ref_count negb orb].

(** A copy on a live region. *)
Lemma copy_live (h : Shared_Allocator) (w : world) (hdr : shared_map_info_t) :
  region_live w (d_shared_map_info_p h) hdr ->
  exists w',
    Shared.copy h w = Ret h w'
    /\ region_live w' (d_shared_map_info_p h)
         (with_ref_count (u32 (ref_count hdr + 1)) hdr)
    /\ calls w' = calls w
         ++ [sem_wait (d_shared_map_info_p h);
             ref_count_store (d_shared_map_info_p h) (u32 (ref_count hdr + 1));
             sem_post (d_shared_map_info_p h)]
    /\ heap w' = heap w /\ objects w' = objects w.
Proof.
  destruct h as [p [a]]. cbn [d_shared_map_info_p].
  intros (Hp & Hh & Hsem & Hrc & Hname).
  assert (H : returns (Shared.copy {| d_shared_map_info_p := p;
                          d_static_allocator := {| d_allocator_info_p := a |} |}) w
                (fun r w' =>
                   r = {| d_shared_map_info_p := p;
                          d_static_allocator := {| d_allocator_info_p := a |} |}
                   /\ region_live w' p (with_ref_count (u32 (ref_count hdr + 1)) hdr)
                   /\ calls w' = calls w
                        ++ [sem_wait p;
                            ref_count_store p (u32 (ref_count hdr + 1));
                            sem_post p]
                   /\ heap w' = heap w /\ objects w' = objects w)).
  { unfold Shared.copy. cbn [d_shared_map_info_p d_static_allocator].
    repeat wstep.
    split; [reflexivity|]. split.
    - split; [exact Hp|]. split.
      + cbn [maps]. rewrite lookup_insert_eq.
        unfold with_sem, with_ref_count. cbn. rewrite Hsem. reflexivity.
      + split; [exact Hsem|]. split; [apply u32_range|exact Hname].
    - split; [|split; reflexivity].
      rewrite <- !app_assoc. reflexivity. }
  destruct H as (r & w' & Heq & -> & H). exists w'. split; [exact Heq|exact H].
Qed.

(** An [unsigned int] minus one is zero only for one. *)
Lemma u32_pred_zero (rc : Z) :
  0 <= rc < 2 ^ 32 -> (u32 (rc - 1) = 0 <-> rc = 1).
Proof.
  intros Hrc. destruct (Z.eq_dec rc 0) as [->|Hnz].
  - assert (Hmax : u32 (0 - 1) = 4294967295) by (vm_compute; reflexivity).
    rewrite Hmax. lia.
  - rewrite u32_small by lia. lia.
Qed.

(** A destruction that leaves other references: the region stays live. *)
Lemma destruct_live (h : Shared_Allocator) (w : world)
    (hdr : shared_map_info_t) :
  region_live w (d_shared_map_info_p h) hdr ->
  ref_count hdr <> 1 ->
  exists w',
    Shared.destruct h w = Ret tt w'
    /\ region_live w' (d_shared_map_info_p h)
         (with_ref_count (u32 (ref_count hdr - 1)) hdr)
    /\ calls w' = calls w
         ++ [sem_wait (d_shared_map_info_p h);
             ref_count_store (d_shared_map_info_p h) (u32 (ref_count hdr - 1));
             sem_post (d_shared_map_info_p h)]
    /\ heap w' = heap w /\ objects w' = objects w.
Proof.
  set (p := d_shared_map_info_p h).
  intros (Hp & Hh & Hsem & Hrc & Hname) Hne.
  assert (Hnz : u32 (ref_count hdr - 1) <> 0).
  { rewrite u32_pred_zero by exact Hrc. exact Hne. }
  assert (H : returns (Shared.destruct h) w
                (fun _ w' =>
                   region_live w' p (with_ref_count (u32 (ref_count hdr - 1)) hdr)
                   /\ calls w' = calls w
                        ++ [sem_wait p;
                            ref_count_store p (u32 (ref_count hdr - 1));
                            sem_post p]
                   /\ heap w' = heap w /\ objects w' = objects w)).
  { unfold Shared.destruct. fold p. repeat wstep.
    rewrite (proj2 (Z.eqb_neq _ 0) Hnz). repeat wstep.
    split.
    - split; [exact Hp|]. split.
      + cbn [maps]. rewrite lookup_insert_eq.
        unfold with_sem, with_ref_count. cbn. rewrite Hsem. reflexivity.
      + split; [exact Hsem|]. split; [apply u32_range|exact Hname].
    - split; [|split; reflexivity].
      rewrite <- !app_assoc. reflexivity. }
  destruct H as ([] & w' & Heq & H). exists w'. split; [exact Heq|exact H].
Qed.

(** The destruction of the last reference tears the region down. *)
Lemma destruct_last (h : Shared_Allocator) (w : world)
    (hdr : shared_map_info_t) :
  region_live w (d_shared_map_info_p h) hdr ->
  ref_count hdr = 1 ->
  exists w',
    Shared.destruct h w = Ret tt w'
    /\ maps w' !! d_shared_map_info_p h = None
    /\ (shm_map_name hdr ∉ objects w')
    /\ calls w' = calls w
         ++ [sem_wait (d_shared_map_info_p h);
             ref_count_store (d_shared_map_info_p h) 0;
             sem_post (d_shared_map_info_p h);
             sem_destroy (d_shared_map_info_p h);
             munmap (d_shared_map_info_p h)
                    (add64 (shm_map_size hdr) map_info_size);
             shm_unlink (shm_map_name hdr)].
Proof.
  set (p := d_shared_map_info_p h).
  intros (Hp & Hh & Hsem & Hrc & Hname) Hone.
  assert (H : returns (Shared.destruct h) w
                (fun _ w' =>
                   maps w' !! p = None
                   /\ (shm_map_name hdr ∉ objects w')
                   /\ calls w' = calls w
                        ++ [sem_wait p; ref_count_store p 0; sem_post p;
                            sem_destroy p;
                            munmap p (add64 (shm_map_size hdr) map_info_size);
                            shm_unlink (shm_map_name hdr)])).
  { unfold Shared.destruct. fold p. repeat wstep. rewrite Hone.
    change (u32 (1 - 1)) with 0. cbn [Z.eqb]. repeat wstep.
    rewrite decide_True by exact Hname. repeat wstep.
    split; [apply lookup_delete_eq|]. split.
    { intros Hin. apply elem_of_difference in Hin as [_ Hn]. apply Hn.
      apply elem_of_singleton. reflexivity. }
    rewrite <- !app_assoc. reflexivity. }
  destruct H as ([] & w' & Heq & H). exists w'. split; [exact Heq|exact H].
Qed.

(** The construction makes a live region with one reference. *)
Lemma construct_live (name : string) (size base : Z) (w0 : world) :
  (String.length name <= MAX_SHM_MAP_NAME_SIZE)%nat ->
  0 < base ->
  base + map_info_size < 2 ^ 64 ->
  info_size + 2 * unit_size <= size ->
  size + map_info_size <= OFF_MAX ->
  exists h w1 hdr,
    Shared.construct name size base w0 = Ret h w1
    /\ d_shared_map_info_p h = base
    /\ region_live w1 base hdr
    /\ ref_count hdr = 1
    /\ shm_map_name hdr = name
    /\ calls w1 = calls w0
         ++ [shm_open name; ftruncate (add64 size map_info_size);
             mmap (add64 size map_info_size); close;
             ref_count_store base 1; sem_init base 1].
Proof.
  intros Hname Hbase Hfit Hmin Hoff. pose proof HL as [Hu Hinfo _ Hmap _].
  assert (Hoff' : size + map_info_size < 2 ^ 63)
    by (unfold OFF_MAX in Hoff; lia).
  assert (Hsize : info_size + 2 * unit_size <= size < 2 ^ 64) by lia.
  assert (Hnf : base <> MAP_FAILED).
  { unfold MAP_FAILED. rewrite u64_borrowed by lia. lia. }
  assert (Hnz : base + map_info_size <> 0) by lia.
  assert (Hlen : (OFF_MAX <? add64 size map_info_size) = false).
  { apply Z.ltb_ge. rewrite add64_small by lia. exact Hoff. }
  clear Hoff'.
  assert (Hc := construct_returns HL (base + map_info_size) size (heap w0)
                  Hsize Hnz).
  assert (H : returns (Shared.construct name size base) w0
                (fun h w1 =>
                   d_shared_map_info_p h = base
                   /\ region_live w1 base
                        {| sem := Some 1; ref_count := 1;
                           shm_map_ptr := base + map_info_size;
                           shm_map_size := size; shm_map_name := name |}
                   /\ calls w1 = calls w0
                        ++ [shm_open name; ftruncate (add64 size map_info_size);
                            mmap (add64 size map_info_size); close;
                            ref_count_store base 1; sem_init base 1])).
  { unfold Shared.construct.
    rewrite (proj2 (Nat.leb_gt _ _)) by (unfold MAX_SHM_MAP_NAME_SIZE in *; lia).
    repeat wstep. rewrite Hlen. repeat wstep.
    rewrite (proj2 (Z.eqb_neq _ _) Hnf). repeat wstep.
    rewrite (add64_small base) by lia.
    eexists {| d_allocator_info_p := base + map_info_size |}, _.
    split; [exact Hc|]. repeat wstep.
    split; [reflexivity|]. split.
    - split; [lia|]. split; [lookup|]. split; [reflexivity|].
      split; [cbn; lia|]. cbn. apply elem_of_union_l, elem_of_singleton.
      reflexivity.
    - rewrite <- !app_assoc. reflexivity. }
  destruct H as (h & w1 & Heq & Hp & Hlive & Hcalls).
  exists h, w1. eexists. split; [exact Heq|]. split; [exact Hp|].
  split; [exact Hlive|]. split; [reflexivity|]. split; [reflexivity|exact Hcalls].
Qed.

Lemma count_app (f : event -> bool) (a b : list event) :
  count f (a ++ b) = (count f a + count f b)%nat.
Proof. unfold count. rewrite List.filter_app, length_app. reflexivity. Qed.

(** Once the header is unmapped, the first copy or destruction enters
    [sem_wait] and faults there: nothing more is done. *)
Lemma perform_all_unmapped (h : Shared_Allocator) (l : list action) (w : world) :
  maps w !! d_shared_map_info_p h = None ->
  exists w',
    world_of (perform_all h l w) = Some w'
    /\ maps w' = maps w
    /\ (calls w' = calls w
        \/ calls w' = calls w ++ [sem_wait (d_shared_map_info_p h)]).
Proof.
  intros Hnone. induction l as [|a l IH].
  - exists w. cbn. auto.
  - set (w1 := {| heap := heap w; maps := maps w; objects := objects w;
                  calls := calls w ++ [sem_wait (d_shared_map_info_p h)] |}).
    assert (Hget : exists f, get_map (d_shared_map_info_p h) w1 = Fault f w1).
    { unfold get_map. cbn [w1 maps]. rewrite Hnone.
      destruct (d_shared_map_info_p h =? 0); eexists; reflexivity. }
    destruct Hget as [f Hf].
    assert (Htake : Shared.take_sem (d_shared_map_info_p h) w = Fault f w1).
    { unfold Shared.take_sem, bind, call. fold w1. rewrite Hf. reflexivity. }
    destruct a; cbn [perform_all perform].
    + exists w1. unfold bind, Shared.copy, bind. rewrite Htake.
      cbn. auto.
    + destruct IH as (w' & Hw & H). exists w'. split; [|exact H].
      unfold bind at 1 2. cbn. exact Hw.
    + exists w1. unfold bind, Shared.destruct, bind. rewrite Htake.
      cbn. auto.
Qed.

(** The teardown steps in the events of any sequence of copies, moves and
    destructions on a live region: none while the header is mapped, one of
    each once it is not. *)
Lemma perform_all_teardown (h : Shared_Allocator) (l : list action) :
  forall (w : world) (hdr : shared_map_info_t),
    region_live w (d_shared_map_info_p h) hdr ->
    exists w' tr,
      world_of (perform_all h l w) = Some w'
      /\ calls w' = calls w ++ tr
      /\ let k := match maps w' !! d_shared_map_info_p h with
                  | Some _ => 0%nat
                  | None => 1%nat
                  end in
         count (is_sem_destroy (d_shared_map_info_p h)) tr = k
         /\ count (is_munmap (d_shared_map_info_p h)) tr = k
         /\ count (is_shm_unlink (shm_map_name hdr)) tr = k.
Proof.
  set (p := d_shared_map_info_p h).
  induction l as [|a l IH]; intros w hdr Hlive.
  - exists w, []. cbn [perform_all ret world_of]. split; [reflexivity|].
    split; [rewrite app_nil_r; reflexivity|].
    destruct Hlive as (_ & Hh & _). rewrite Hh. cbn. auto.
  - destruct a; cbn [perform_all perform].
    + destruct (copy_live h w hdr Hlive) as (w1 & Hc & Hlive1 & Hcalls & _).
      destruct (IH w1 _ Hlive1) as (w' & tr & Hw & Htr & Hk).
      exists w', ([sem_wait p; ref_count_store p (u32 (ref_count hdr + 1));
                   sem_post p] ++ tr).
      split; [unfold bind at 1 2; rewrite Hc; exact Hw|].
      split; [rewrite Htr, Hcalls, <- app_assoc; reflexivity|].
      rewrite !count_app. exact Hk.
    + destruct (IH w hdr Hlive) as (w' & tr & Hw & Htr & Hk).
      exists w', tr. split; [exact Hw|]. split; [exact Htr|exact Hk].
    + destruct (Z.eq_dec (ref_count hdr) 1) as [Hone|Hne].
      * destruct (destruct_last h w hdr Hlive Hone)
          as (w1 & Hd & Hnone & _ & Hcalls).
        destruct (perform_all_unmapped h l w1 Hnone)
          as (w' & Hw & Hmaps & Htail).
        assert (Htr : exists tr2,
                   calls w' = calls w1 ++ tr2
                   /\ (tr2 = [] \/ tr2 = [sem_wait p])).
        { destruct Htail as [Ht|Ht].
          - exists []. rewrite app_nil_r. auto.
          - exists [sem_wait p]. auto. }
        destruct Htr as (tr2 & Htr2 & Hcase).
        exists w'. eexists. split; [unfold bind; rewrite Hd; exact Hw|].
        split; [rewrite Htr2, Hcalls, <- app_assoc; reflexivity|].
        fold p in Hnone. rewrite Hmaps, Hnone.
        rewrite !count_app.
        destruct Hcase as [->| ->]; unfold count; cbn; rewrite Z.eqb_refl;
          rewrite bool_decide_eq_true_2 by reflexivity; cbn; auto.
      * destruct (destruct_live h w hdr Hlive Hne)
          as (w1 & Hd & Hlive1 & Hcalls & _).
        destruct (IH w1 _ Hlive1) as (w' & tr & Hw & Htr & Hk).
        exists w', ([sem_wait p; ref_count_store p (u32 (ref_count hdr - 1));
                     sem_post p] ++ tr).
        split; [unfold bind; rewrite Hd; exact Hw|].
        split; [rewrite Htr, Hcalls, <- app_assoc; reflexivity|].
        rewrite !count_app. exact Hk.
Qed.

(** C2.  When the system refuses no call and the size with the header is
    an [off_t], constructing a [Shared_Allocator] from a name maps a
    control header whose reference count is 1.  On a live region every copy
    construction stores the count plus one (modulo [2^32]) between a
    [sem_wait] and a [sem_post]; move assignment leaves the world as it is;
    every destruction stores the count minus one between a [sem_wait] and a
    [sem_post], and goes on to [sem_destroy], [munmap] and [shm_unlink]
    exactly when the count it found was 1, that is when it stored 0.  In
    the events of any sequence of copies, moves and destructions after the
    construction, each of the three teardown steps occurs once if the
    header has been unmapped and not at all while it is mapped. *)
Theorem shared_lifecycle (name : string) (size base : Z) (w0 : world) :
  (String.length name <= MAX_SHM_MAP_NAME_SIZE)%nat ->
  0 < base ->
  base + map_info_size < 2 ^ 64 ->
  info_size + 2 * unit_size <= size ->
  size + map_info_size <= OFF_MAX ->
  exists h w1 hdr1,
    Shared.construct name size base w0 = Ret h w1
    /\ d_shared_map_info_p h = base
    /\ region_live w1 base hdr1
    /\ ref_count hdr1 = 1
    /\ (forall w hdr,
          region_live w base hdr ->
          exists w',
            Shared.copy h w = Ret h w'
            /\ region_live w' base
                 (with_ref_count (u32 (ref_count hdr + 1)) hdr)
            /\ calls w' = calls w
                 ++ [sem_wait base;
                     ref_count_store base (u32 (ref_count hdr + 1));
                     sem_post base])
    /\ (forall this w, Shared.move_assign this h w = Ret h w)
    /\ (forall w hdr,
          region_live w base hdr ->
          exists w',
            Shared.destruct h w = Ret tt w'
            /\ if decide (ref_count hdr = 1)
               then maps w' !! base = None
                    /\ (shm_map_name hdr ∉ objects w')
                    /\ calls w' = calls w
                         ++ [sem_wait base; ref_count_store base 0;
                             sem_post base; sem_destroy base;
                             munmap base
                               (add64 (shm_map_size hdr) map_info_size);
                             shm_unlink (shm_map_name hdr)]
               else region_live w' base
                      (with_ref_count (u32 (ref_count hdr - 1)) hdr)
                    /\ calls w' = calls w
                         ++ [sem_wait base;
                             ref_count_store base (u32 (ref_count hdr - 1));
                             sem_post base])
    /\ (forall l,
          exists w' tr,
            world_of (perform_all h l w1) = Some w'
            /\ calls w' = calls w1 ++ tr
            /\ let k := match maps w' !! base with
                        | Some _ => 0%nat
                        | None => 1%nat
                        end in
               count (is_sem_destroy base) tr = k
               /\ count (is_munmap base) tr = k
               /\ count (is_shm_unlink name) tr = k).
Proof.
  intros Hname Hbase Hfit Hsize Hoff.
  destruct (construct_live name size base w0 Hname Hbase Hfit Hsize Hoff)
    as (h & w1 & hdr1 & Hc & Hp & Hlive & Hone & Hn & _).
  exists h, w1, hdr1. split; [exact Hc|]. split; [exact Hp|].
  split; [exact Hlive|]. split; [exact Hone|].
  subst base. split; [|split; [|split]].
  - intros w hdr Hl. destruct (copy_live h w hdr Hl) as (w' & H1 & H2 & H3 & _).
    exists w'. split; [exact H1|]. split; [exact H2|exact H3].
  - intros this w. destruct h as [p [a]]. reflexivity.
  - intros w hdr Hl. destruct (decide (ref_count hdr = 1)) as [Hr|Hr].
    + destruct (destruct_last h w hdr Hl Hr) as (w' & H1 & H2).
      exists w'. split; [exact H1|exact H2].
    + destruct (destruct_live h w hdr Hl Hr) as (w' & H1 & H2 & H3 & _).
      exists w'. split; [exact H1|]. split; [exact H2|exact H3].
  - intros l. rewrite <- Hn. apply (perform_all_teardown h l w1 hdr1 Hlive).
Qed.

End Region.

(** ** Failures of the construction, and handles that are handed over *)

(** One step of a method of the shared allocator, on a free semaphore and
    a system that refuses nothing. *)
Ltac region_step :=
  first
    [ step
    | lazymatch goal with
      | |- returns (Shared.take_sem _) _ _ =>
          eapply take_sem_free;
          [eassumption|lia|lookup|first [reflexivity|eassumption]|]
      | |- returns (Shared.drop_sem _) _ _ =>
          eapply drop_sem_held;
          [eassumption|lia|lookup|first [reflexivity|eassumption]|]
      end ];
  cbn [sem ref_count shm_map_ptr shm_map_size shm_map_name
       with_sem with_ref_count negb orb].

Section RegionFailures.
Context {L : Layout} {OS : System} (HL : layout_ok L).



(** X7.  A name of more than [MAX_SHM_MAP_NAME_SIZE] characters is refused
    before any system call: the world at the throw is the world of the
    call. *)
Theorem construct_name_too_long (name : string) (size base : Z) (w : world) :
  (MAX_SHM_MAP_NAME_SIZE < String.length name)%nat ->
  Shared.construct name size base w
    = Throw (invalid_argument "Shared map name too long") w.
Proof.
  intros Hlen. unfold Shared.construct.
  rewrite (proj2 (Nat.leb_le _ _)) by lia. reflexivity.
Qed.


End RegionFailures.

Section RegionMore.
Context {L : Layout} {OS : System} (HL : layout_ok L) (Hos : obliging).

(** X10.  When the system refuses no call, a region constructed with a
    size the arena accepts reports the size less the header and the two
    blocks of the arena as free, and is not unified: its free list is not
    built yet. *)
Theorem fresh_region_reports (name : string) (size base : Z) (w0 : world) :
  (String.length name <= MAX_SHM_MAP_NAME_SIZE)%nat ->
  0 < base ->
  base + map_info_size < 2 ^ 64 ->
  info_size + 2 * unit_size <= size ->
  size + map_info_size <= OFF_MAX ->
  returns (fresh_region_report name size base) w0
    (fun r _ => r = (size - (info_size + 2 * unit_size), false)).
Proof.
  intros Hname Hbase Hfit Hmin Hoff. pose proof HL as [Hu Hinfo _ Hmap _].
  assert (Hoff' : size + map_info_size < 2 ^ 63)
    by (unfold OFF_MAX in Hoff; lia).
  assert (Hsize : info_size + 2 * unit_size <= size < 2 ^ 64) by lia.
  assert (Hnf : base <> MAP_FAILED).
  { unfold MAP_FAILED. rewrite u64_borrowed by lia. lia. }
  assert (Hnz : base + map_info_size <> 0) by lia.
  assert (Hlen : (OFF_MAX <? add64 size map_info_size) = false).
  { apply Z.ltb_ge. rewrite add64_small by lia. exact Hoff. }
  clear Hoff'.
  pose proof (construct_returns HL (base + map_info_size) size (heap w0)
                Hsize Hnz) as Hc.
  unfold fresh_region_report, Shared.construct.
  rewrite (proj2 (Nat.leb_gt _ _)) by (unfold MAX_SHM_MAP_NAME_SIZE in *; lia).
  repeat region_step. rewrite Hlen. repeat region_step.
  rewrite (proj2 (Z.eqb_neq _ _) Hnf). repeat region_step.
  rewrite (add64_small base) by lia.
  eexists {| d_allocator_info_p := base + map_info_size |}, _.
  split; [exact Hc|]. repeat region_step.
  unfold Shared.free_size, Shared.unified, Static.free_size, Static.unified.
  cbn [d_static_allocator Static.copy d_allocator_info_p].
  rewrite (proj2 (Z.eqb_neq _ 0) Hnz).
  repeat region_step.
  rewrite (proj2 (Z.eqb_neq _ 0) Hnz). cbn [Z.eqb]. repeat region_step.
  reflexivity.
Qed.



End RegionMore.

(** ** Rows of blocks *)

Section RowFacts.
Context {L : Layout}.

Lemma span_app (bs1 bs2 : list row_block) :
  span (bs1 ++ bs2) = span bs1 + span bs2.
Proof. induction bs1 as [|b bs1 IH]; cbn [span app]; lia. Qed.

Lemma span_nonneg (bs : list row_block) :
  Forall sized bs -> 0 < unit_size -> 0 <= span bs.
Proof.
  intros H Hu. induction H as [|b bs Hb _ IH]; cbn [span]; [lia|].
  unfold sized in Hb. pose proof (units_one _ _ Hu Hb). lia.
Qed.

Lemma span_cons_pos (b : row_block) (bs : list row_block) :
  Forall sized (b :: bs) -> 0 < unit_size ->
  unit_size <= block_size b * unit_size /\ 0 <= span bs.
Proof.
  intros H Hu. apply Forall_cons in H as [Hb H].
  split; [exact (units_one _ _ Hu Hb)|apply span_nonneg; assumption].
Qed.

Lemma first_free_app (z a : Z) (bs1 bs2 : list row_block) :
  first_free z a (bs1 ++ bs2)
  = first_free (first_free z (a + span bs1) bs2) a bs1.
Proof.
  revert a. induction bs1 as [|[s|s] bs1 IH]; intros a;
    cbn [first_free span app block_size].
  - f_equal. lia.
  - reflexivity.
  - rewrite IH. do 2 f_equal. lia.
Qed.

Lemma last_free_app (z a : Z) (bs1 bs2 : list row_block) :
  last_free z a (bs1 ++ bs2)
  = last_free (last_free z a bs1) (a + span bs1) bs2.
Proof.
  revert z a. induction bs1 as [|[s|s] bs1 IH]; intros z a;
    cbn [last_free span app block_size].
  - f_equal. lia.
  - rewrite IH. f_equal. lia.
  - rewrite IH. f_equal. lia.
Qed.

Lemma free_addresses_app (a : Z) (bs1 bs2 : list row_block) :
  free_addresses a (bs1 ++ bs2)
  = free_addresses a bs1 ++ free_addresses (a + span bs1) bs2.
Proof.
  revert a. induction bs1 as [|[s|s] bs1 IH]; intros a;
    cbn [free_addresses span app block_size].
  - f_equal. lia.
  - rewrite IH. cbn [app]. do 3 f_equal. lia.
  - rewrite IH. do 2 f_equal. lia.
Qed.

Lemma live_blocks_app (a : Z) (bs1 bs2 : list row_block) :
  live_blocks a (bs1 ++ bs2)
  = live_blocks a bs1 ++ live_blocks (a + span bs1) bs2.
Proof.
  revert a. induction bs1 as [|[s|s] bs1 IH]; intros a;
    cbn [live_blocks span app block_size].
  - f_equal. lia.
  - rewrite IH. do 2 f_equal. lia.
  - rewrite IH. cbn [app]. do 3 f_equal. lia.
Qed.

Lemma count_free_app (bs1 bs2 : list row_block) :
  count_free (bs1 ++ bs2) = (count_free bs1 + count_free bs2)%nat.
Proof. unfold count_free. rewrite List.filter_app, length_app. reflexivity. Qed.

Lemma laid_out_positive (m : memory) (z a : Z) (bs : list row_block) :
  laid_out m z a bs -> Forall sized bs.
Proof.
  revert a. induction bs as [|b bs IH]; intros a H; [constructor|].
  destruct H as (Hb & _ & _ & H). constructor; [exact Hb|exact (IH _ H)].
Qed.

Lemma laid_out_app (m : memory) (z a : Z) (bs1 bs2 : list row_block) :
  laid_out m z a (bs1 ++ bs2)
  <-> laid_out m (first_free z (a + span bs1) bs2) a bs1
      /\ laid_out m z (a + span bs1) bs2.
Proof.
  revert a. induction bs1 as [|b bs1 IH]; intros a; cbn [laid_out span app].
  - replace (a + 0) with a by lia. tauto.
  - rewrite IH, first_free_app.
    replace (a + block_size b * unit_size + span bs1)
      with (a + (block_size b * unit_size + span bs1)) by lia.
    tauto.
Qed.

(** The memory outside a row does not matter to it. *)
Lemma laid_out_frame (m m' : memory) (z a : Z) (bs : list row_block) :
  0 < unit_size ->
  (forall x, a <= x < a + span bs ->
             d_size m' !! x = d_size m !! x /\ d_next m' !! x = d_next m !! x) ->
  laid_out m z a bs -> laid_out m' z a bs.
Proof.
  intros Hu. revert a. induction bs as [|b bs IH]; intros a Hsame H; [exact I|].
  pose proof (laid_out_positive _ _ _ _ H) as Hpos.
  destruct (span_cons_pos _ _ Hpos Hu) as [Hb Hs].
  destruct H as (Hp & Hsz & Hnx & H). cbn [span] in Hsame.
  destruct (Hsame a ltac:(lia)) as [Hs' Hn'].
  split; [exact Hp|]. split; [rewrite Hs'; exact Hsz|].
  split; [intros Hf; rewrite Hn'; exact (Hnx Hf)|].
  apply IH; [|exact H]. intros x Hx. apply Hsame. lia.
Qed.

(** Where the first and the last free block of a row are. *)
Lemma first_free_cases (z a : Z) (bs : list row_block) :
  Forall sized bs -> 0 < unit_size ->
  (first_free z a bs = z /\ Forall (fun b => is_free b = false) bs)
  \/ a <= first_free z a bs < a + span bs.
Proof.
  intros H Hu. revert a. induction H as [|b bs Hb Hbs IH]; intros a.
  - left. split; [reflexivity|constructor].
  - pose proof (span_nonneg bs Hbs Hu) as Hs.
    pose proof (units_one _ _ Hu Hb) as Hbu.
    destruct b as [s|s]; cbn [first_free span block_size] in *.
    + right. lia.
    + destruct (IH (a + s * unit_size)) as [[Hz Hall]|Hin].
      * left. split; [exact Hz|]. constructor; [reflexivity|exact Hall].
      * right. lia.
Qed.

Lemma last_free_cases (z a : Z) (bs : list row_block) :
  Forall sized bs -> 0 < unit_size ->
  (last_free z a bs = z /\ Forall (fun b => is_free b = false) bs)
  \/ exists bs1 s bs2,
       bs = bs1 ++ free_block s :: bs2
       /\ last_free z a bs = a + span bs1
       /\ Forall (fun b => is_free b = false) bs2.
Proof.
  intros H Hu. revert z a. induction H as [|b bs Hb Hbs IH]; intros z a.
  - left. split; [reflexivity|constructor].
  - destruct b as [s|s]; cbn [last_free].
    + right. destruct (IH a (a + s * unit_size)) as [[Hz Hall]|Hin].
      * exists [], s, bs. cbn [app span]. rewrite Hz.
        split; [reflexivity|]. split; [lia|exact Hall].
      * destruct Hin as (bs1 & s' & bs2 & -> & Hl & Hall).
        exists (free_block s :: bs1), s', bs2. cbn [app span block_size].
        rewrite Hl. split; [reflexivity|]. split; [lia|exact Hall].
    + destruct (IH z (a + s * unit_size)) as [[Hz Hall]|Hin].
      * left. split; [exact Hz|]. constructor; [reflexivity|exact Hall].
      * right. destruct Hin as (bs1 & s' & bs2 & -> & Hl & Hall).
        exists (live_block s :: bs1), s', bs2. cbn [app span block_size].
        rewrite Hl. split; [reflexivity|]. split; [lia|exact Hall].
Qed.

Lemma first_free_none (z a : Z) (bs : list row_block) :
  Forall (fun b => is_free b = false) bs -> first_free z a bs = z.
Proof.
  intros H. revert a. induction H as [|[s|s] bs Hb _ IH]; intros a;
    cbn [first_free]; [reflexivity|discriminate Hb|apply IH].
Qed.

Lemma last_free_none (z a : Z) (bs : list row_block) :
  Forall (fun b => is_free b = false) bs -> last_free z a bs = z.
Proof.
  intros H. revert a. induction H as [|[s|s] bs Hb _ IH]; intros a;
    cbn [last_free]; [reflexivity|discriminate Hb|apply IH].
Qed.

Lemma free_addresses_none (a : Z) (bs : list row_block) :
  Forall (fun b => is_free b = false) bs -> free_addresses a bs = [].
Proof.
  intros H. revert a. induction H as [|[s|s] bs Hb _ IH]; intros a;
    cbn [free_addresses]; [reflexivity|discriminate Hb|apply IH].
Qed.

(** Every address of a free block marks a place in the row. *)
Lemma elem_of_free_addresses (x a : Z) (bs : list row_block) :
  x ∈ free_addresses a bs ->
  exists bs1 s bs2, bs = bs1 ++ free_block s :: bs2 /\ x = a + span bs1.
Proof.
  revert a. induction bs as [|[s|s] bs IH]; intros a Hx;
    cbn [free_addresses] in Hx.
  - inversion Hx.
  - apply elem_of_cons in Hx as [->|Hx].
    + exists [], s, bs. cbn [app span]. split; [reflexivity|lia].
    + destruct (IH _ Hx) as (bs1 & s' & bs2 & -> & ->).
      exists (free_block s :: bs1), s', bs2. cbn [app span block_size].
      split; [reflexivity|lia].
  - destruct (IH _ Hx) as (bs1 & s' & bs2 & -> & ->).
    exists (live_block s :: bs1), s', bs2. cbn [app span block_size].
    split; [reflexivity|lia].
Qed.

Lemma elem_of_live_blocks (x sx a : Z) (bs : list row_block) :
  (x, sx) ∈ live_blocks a bs ->
  exists bs1 bs2,
    bs = bs1 ++ live_block sx :: bs2 /\ x = a + span bs1 + unit_size.
Proof.
  revert a. induction bs as [|[s|s] bs IH]; intros a Hx;
    cbn [live_blocks] in Hx.
  - inversion Hx.
  - destruct (IH _ Hx) as (bs1 & bs2 & -> & ->).
    exists (free_block s :: bs1), bs2. cbn [app span block_size].
    split; [reflexivity|lia].
  - apply elem_of_cons in Hx as [Heq|Hx].
    + injection Heq as -> ->. exists [], bs. cbn [app span].
      split; [reflexivity|lia].
    + destruct (IH _ Hx) as (bs1 & bs2 & -> & ->).
      exists (live_block s :: bs1), bs2. cbn [app span block_size].
      split; [reflexivity|lia].
Qed.

Lemma free_addresses_bounds (x a : Z) (bs : list row_block) :
  Forall sized bs -> 0 < unit_size ->
  x ∈ free_addresses a bs -> a <= x < a + span bs.
Proof.
  intros Hpos Hu Hx.
  destruct (elem_of_free_addresses _ _ _ Hx) as (bs1 & s & bs2 & -> & ->).
  apply Forall_app in Hpos as [H1 H2].
  pose proof (span_nonneg _ H1 Hu).
  destruct (span_cons_pos _ _ H2 Hu).
  rewrite span_app. cbn [span block_size] in *. lia.
Qed.

Lemma last_free_elem (z a : Z) (bs : list row_block) :
  last_free z a bs ∈ z :: free_addresses a bs.
Proof.
  revert z a. induction bs as [|[s|s] bs IH]; intros z a;
    cbn [last_free free_addresses].
  - left.
  - specialize (IH a (a + s * unit_size)). right. exact IH.
  - specialize (IH z (a + s * unit_size)). exact IH.
Qed.

(** The first block of a row that a request fits. *)
Lemma first_fitting (n : Z) (bs : list row_block) :
  Forall (too_small n) bs
  \/ exists bs1 s bs2,
       bs = bs1 ++ free_block s :: bs2
       /\ Forall (too_small n) bs1 /\ n <= s.
Proof.
  induction bs as [|b bs IH].
  - left. constructor.
  - destruct b as [s|s].
    + destruct (Z_lt_le_dec s n) as [Hlt|Hge].
      * destruct IH as [Hall|(bs1 & s' & bs2 & -> & Hall & Hfit)].
        -- left. constructor; [intros _; exact Hlt|exact Hall].
        -- right. exists (free_block s :: bs1), s', bs2.
           split; [reflexivity|]. split; [|exact Hfit].
           constructor; [intros _; exact Hlt|exact Hall].
      * right. exists [], s, bs. split; [reflexivity|].
        split; [constructor|exact Hge].
    + destruct IH as [Hall|(bs1 & s' & bs2 & -> & Hall & Hfit)].
      * left. constructor; [intros H; discriminate H|exact Hall].
      * right. exists (live_block s :: bs1), s', bs2.
        split; [reflexivity|]. split; [|exact Hfit].
        constructor; [intros H; discriminate H|exact Hall].
Qed.

(** Neighbours in a row. *)
Lemma coalesced_tail (b : row_block) (bs : list row_block) :
  coalesced (b :: bs) -> coalesced bs.
Proof.
  destruct b as [s|s], bs as [|[s'|s'] bs]; cbn; tauto.
Qed.

Lemma coalesced_app_cons (bs1 : list row_block) (b : row_block)
    (bs2 : list row_block) :
  coalesced (bs1 ++ b :: bs2)
  <-> coalesced (bs1 ++ [b]) /\ coalesced (b :: bs2).
Proof.
  induction bs1 as [|x bs1 IH].
  - cbn [app]. destruct b as [s|s]; cbn; tauto.
  - destruct bs1 as [|y bs1].
    + cbn [app] in *.
      destruct x as [sx|sx], b as [s|s], bs2 as [|[s2|s2] bs2]; cbn; tauto.
    + cbn [app] in *.
      destruct x as [sx|sx], y as [sy|sy]; cbn [coalesced] in *; tauto.
Qed.

Lemma coalesced_snoc (bs1 : list row_block) (b b' : row_block) :
  (is_free b' = true -> is_free b = true) ->
  coalesced (bs1 ++ [b]) -> coalesced (bs1 ++ [b']).
Proof.
  intros Hf. induction bs1 as [|x bs1 IH].
  - destruct b' as [s|s]; cbn; tauto.
  - destruct bs1 as [|y bs1].
    + cbn [app] in *.
      destruct x as [sx|sx], b as [s|s], b' as [s'|s']; cbn in *;
        try tauto; discriminate (Hf eq_refl).
    + cbn [app] in *.
      destruct x as [sx|sx], y as [sy|sy]; cbn [coalesced] in *; tauto.
Qed.

Lemma coalesced_init (bs1 : list row_block) (b : row_block) :
  coalesced (bs1 ++ [b]) -> coalesced bs1.
Proof.
  induction bs1 as [|x bs1 IH]; [intros _; exact I|].
  destruct bs1 as [|y bs1].
  - intros _. destruct x; exact I.
  - cbn [app] in *.
    destruct x as [sx|sx], y as [sy|sy]; cbn [coalesced] in *; tauto.
Qed.

(** An allocation keeps free blocks apart. *)
Lemma coalesced_carve (bs1 : list row_block) (s n : Z)
    (bs2 : list row_block) :
  coalesced (bs1 ++ free_block s :: bs2) ->
  coalesced (bs1 ++ carve s n ++ bs2).
Proof.
  intros H. apply coalesced_app_cons in H as [H1 H2].
  apply coalesced_tail in H2. unfold carve.
  destruct (s =? n); cbn [app].
  - apply coalesced_app_cons. split.
    + apply (coalesced_snoc bs1 (free_block s)); [intros Hf; discriminate Hf|].
      exact H1.
    + exact H2.
  - apply coalesced_app_cons. split.
    + apply (coalesced_snoc bs1 (free_block s)); [reflexivity|exact H1].
    + exact H2.
Qed.

(** What a release makes of a row. *)
Lemma put_back_snoc_free (x : list row_block) (sp f : Z)
    (rest : list row_block) :
  put_back (x ++ [free_block sp]) f rest = x ++ free_block (sp + f) :: rest.
Proof.
  induction x as [|b x IH]; [reflexivity|].
  cbn [app put_back]. rewrite IH.
  destruct b as [sb|sb]; [|reflexivity].
  destruct x; reflexivity.
Qed.

Lemma put_back_snoc_live (x : list row_block) (sl f : Z)
    (rest : list row_block) :
  put_back (x ++ [live_block sl]) f rest
  = (x ++ [live_block sl]) ++ free_block f :: rest.
Proof.
  induction x as [|b x IH]; [reflexivity|].
  cbn [app put_back]. rewrite IH.
  destruct b as [sb|sb]; [|reflexivity].
  destruct x; reflexivity.
Qed.

Lemma snoc_cases (bs : list row_block) :
  bs = [] \/ exists x b, bs = x ++ [b].
Proof.
  induction bs as [|a bs IH]; [left; reflexivity|right].
  destruct IH as [->|(x & b & ->)].
  - exists [], a. reflexivity.
  - exists (a :: x), b. reflexivity.
Qed.

Lemma absorb_next_span (s : Z) (bs2 : list row_block) :
  (absorb_next s bs2).1 * unit_size + span (absorb_next s bs2).2
  = s * unit_size + span bs2.
Proof.
  destruct bs2 as [|[s2|s2] bs2]; cbn [absorb_next fst snd span block_size]; lia.
Qed.

Lemma span_put_back (bs1 : list row_block) (f : Z) (rest : list row_block) :
  span (put_back bs1 f rest) = span bs1 + f * unit_size + span rest.
Proof.
  destruct (snoc_cases bs1) as [->|(x & [sp|sl] & ->)].
  - cbn [put_back span block_size]. lia.
  - rewrite put_back_snoc_free, !span_app. cbn [span block_size]. lia.
  - rewrite put_back_snoc_live, !span_app. cbn [span block_size]. lia.
Qed.

Lemma span_release_block (bs1 : list row_block) (s : Z)
    (bs2 : list row_block) :
  span (release_block bs1 s bs2) = span (bs1 ++ live_block s :: bs2).
Proof.
  unfold release_block. rewrite span_put_back, span_app.
  pose proof (absorb_next_span s bs2). cbn [span block_size]. lia.
Qed.

(** A release keeps free blocks apart. *)
Lemma coalesced_absorb (s : Z) (bs2 : list row_block) :
  coalesced (live_block s :: bs2) ->
  coalesced (free_block (absorb_next s bs2).1 :: (absorb_next s bs2).2).
Proof.
  destruct bs2 as [|[s2|s2] [|[s3|s3] bs2]]; cbn; tauto.
Qed.

Lemma coalesced_release (bs1 : list row_block) (s : Z)
    (bs2 : list row_block) :
  coalesced (bs1 ++ live_block s :: bs2) ->
  coalesced (release_block bs1 s bs2).
Proof.
  unfold release_block. intros H.
  apply coalesced_app_cons in H as [H1 H2].
  apply coalesced_absorb in H2.
  set (f := (absorb_next s bs2).1) in *.
  set (rest := (absorb_next s bs2).2) in *.
  destruct (snoc_cases bs1) as [->|(x & [sp|sl] & ->)].
  - exact H2.
  - rewrite put_back_snoc_free.
    apply coalesced_init in H1.
    apply coalesced_app_cons. split.
    + apply (coalesced_snoc x (free_block sp)); [reflexivity|exact H1].
    + destruct rest as [|[s2|s2] rest]; cbn in *; tauto.
  - rewrite put_back_snoc_live.
    apply coalesced_init in H1.
    apply coalesced_app_cons. split; [|exact H2].
    rewrite <- app_assoc. cbn [app].
    apply coalesced_app_cons. split; [exact H1|exact I].
Qed.

(** Where a free block of a row lies when the row is cut in parts. *)
Lemma boundary_step (P : list row_block) (b : row_block)
    (R bsA : list row_block) (c : row_block) (bsB : list row_block) :
  P ++ b :: R = bsA ++ c :: bsB ->
  Forall sized (P ++ b :: R) -> 0 < unit_size ->
  span P < span bsA ->
  span P + block_size b * unit_size <= span bsA.
Proof.
  intros Heq Hpos Hu Hlt.
  apply Forall_app in Hpos as [HP HR]. apply Forall_cons in HR as [_ HR].
  apply app_eq_inv in Heq as [(k & -> & Hk)|(k & -> & Hk)].
  - rewrite span_app in Hlt. apply Forall_app in HP as [_ Hk'].
    pose proof (span_nonneg _ Hk' Hu). lia.
  - destruct k as [|b' k].
    + rewrite app_nil_r in Hlt. lia.
    + cbn [app] in Hk. injection Hk as <- ->.
      apply Forall_app in HR as [Hk' _].
      pose proof (span_nonneg _ Hk' Hu).
      rewrite span_app. cbn [span]. lia.
Qed.

Lemma free_in_part (X M Y bsA : list row_block) (sx : Z)
    (bsB : list row_block) :
  X ++ M ++ Y = bsA ++ free_block sx :: bsB ->
  Forall sized (X ++ M ++ Y) -> 0 < unit_size ->
  span X <= span bsA < span X + span M ->
  free_block sx ∈ M.
Proof.
  intros Heq Hpos Hu Hin.
  apply Forall_app in Hpos as [HX HMY]. apply Forall_app in HMY as [HM HY].
  apply app_eq_inv in Heq as [(k & -> & Hk)|(k & -> & Hk)].
  - apply Forall_app in HX as [_ Hk'].
    rewrite span_app in Hin.
    destruct k as [|b k].
    + cbn [app] in Hk. destruct M as [|b M]; [cbn [span] in Hin; lia|].
      cbn [app] in Hk. injection Hk as <- _. left.
    + destruct (span_cons_pos _ _ Hk' Hu). cbn [span] in Hin. lia.
  - rewrite span_app in Hin.
    apply app_eq_inv in Hk as [(k' & -> & Hk')|(k' & -> & Hk')].
    + rewrite span_app in Hin. destruct k' as [|b k'].
      * cbn [span] in Hin. lia.
      * cbn [app] in Hk'. injection Hk' as <- _.
        apply elem_of_app. right. left.
    + rewrite Hk' in HY. apply Forall_app in HY as [Hk'' _].
      rewrite span_app in Hin. pose proof (span_nonneg _ Hk'' Hu). lia.
Qed.

Lemma too_small_in (n sx : Z) (M : list row_block) :
  Forall (too_small n) M -> free_block sx ∈ M -> sx < n.
Proof.
  intros Hall Hin. rewrite Forall_forall in Hall.
  exact (Hall _ Hin eq_refl).
Qed.

(** The live blocks of a row. *)
Lemma live_blocks_free (a : Z) (bs1 : list row_block) (s : Z)
    (bs2 : list row_block) :
  live_blocks a (bs1 ++ free_block s :: bs2)
  = live_blocks a bs1
    ++ live_blocks (a + span bs1 + s * unit_size) bs2.
Proof. rewrite live_blocks_app. reflexivity. Qed.

Lemma live_blocks_live (a : Z) (bs1 : list row_block) (s : Z)
    (bs2 : list row_block) :
  live_blocks a (bs1 ++ live_block s :: bs2)
  = live_blocks a bs1
    ++ (a + span bs1 + unit_size, s)
       :: live_blocks (a + span bs1 + s * unit_size) bs2.
Proof. rewrite live_blocks_app. reflexivity. Qed.

Lemma live_blocks_carve (a : Z) (bs1 : list row_block) (s n : Z)
    (bs2 : list row_block) :
  live_blocks a (bs1 ++ carve s n ++ bs2)
  = live_blocks a bs1
    ++ (a + span bs1 + (s - n) * unit_size + unit_size, n)
       :: live_blocks (a + span bs1 + s * unit_size) bs2.
Proof.
  rewrite live_blocks_app. f_equal. unfold carve.
  destruct (Z.eqb_spec s n) as [->|_]; cbn [app live_blocks].
  - f_equal; try lia. f_equal. lia.
  - f_equal; try lia; f_equal; lia.
Qed.

Lemma live_blocks_put_back (a : Z) (bs1 : list row_block) (f : Z)
    (rest : list row_block) :
  live_blocks a (put_back bs1 f rest)
  = live_blocks a bs1
    ++ live_blocks (a + span bs1 + f * unit_size) rest.
Proof.
  destruct (snoc_cases bs1) as [->|(x & [sp|sl] & ->)].
  - cbn [put_back live_blocks span app]. f_equal. lia.
  - rewrite put_back_snoc_free, !live_blocks_app, span_app.
    cbn [live_blocks span block_size]. rewrite app_nil_r.
    do 2 f_equal. lia.
  - rewrite put_back_snoc_live. apply live_blocks_free.
Qed.

Lemma live_blocks_release (a : Z) (bs1 : list row_block) (s : Z)
    (bs2 : list row_block) :
  live_blocks a (release_block bs1 s bs2)
  = live_blocks a bs1
    ++ live_blocks (a + span bs1 + s * unit_size) bs2.
Proof.
  unfold release_block. rewrite live_blocks_put_back. f_equal.
  destruct bs2 as [|[s2|s2] bs2]; cbn [absorb_next fst snd live_blocks];
    try reflexivity.
  f_equal. lia.
Qed.

(** A live block lies within its row. *)
Lemma live_blocks_bounds (x sx a : Z) (bs : list row_block) :
  Forall sized bs -> 0 < unit_size ->
  (x, sx) ∈ live_blocks a bs ->
  a + unit_size <= x /\ x - unit_size + sx * unit_size <= a + span bs
  /\ 0 < sx.
Proof.
  intros Hpos Hu Hx.
  destruct (elem_of_live_blocks _ _ _ _ Hx) as (bs1 & bs2 & -> & ->).
  apply Forall_app in Hpos as [H1 H2].
  pose proof (span_nonneg _ H1 Hu).
  destruct (span_cons_pos _ _ H2 Hu).
  apply Forall_cons in H2 as [H2 _]. unfold sized in H2.
  rewrite span_app. cbn [span block_size] in *. lia.
Qed.

Lemma live_blocks_NoDup (a : Z) (bs : list row_block) :
  Forall sized bs -> 0 < unit_size -> NoDup (live_blocks a bs).*1.
Proof.
  intros Hpos Hu. revert a.
  induction Hpos as [|b bs Hb Hbs IH]; intros a; [constructor|].
  unfold sized in Hb.
  destruct b as [s|s]; cbn [live_blocks block_size fmap list_fmap fst] in *;
    [apply IH|].
  constructor; [|apply IH]. intros Hin.
  apply list_elem_of_fmap in Hin as ([x sx] & Hx & Hin). cbn [fst] in Hx.
  pose proof (live_blocks_bounds _ _ _ _ Hbs Hu Hin).
  pose proof (units_one _ _ Hu Hb). lia.
Qed.

(** Two live blocks of a row with different pointers do not overlap. *)
Lemma live_blocks_apart (x sx y sy a : Z) (bs : list row_block) :
  Forall sized bs -> 0 < unit_size ->
  (x, sx) ∈ live_blocks a bs ->
  (y, sy) ∈ live_blocks a bs ->
  x <> y ->
  x - unit_size + sx * unit_size <= y - unit_size
  \/ y - unit_size + sy * unit_size <= x - unit_size.
Proof.
  intros Hpos Hu Hx Hy Hne.
  destruct (elem_of_live_blocks _ _ _ _ Hx) as (bs1 & bs2 & -> & ->).
  rewrite live_blocks_live in Hy.
  apply Forall_app in Hpos as [H1 H2]. apply Forall_cons in H2 as [_ H2].
  apply elem_of_app in Hy as [Hy|Hy].
  - right. pose proof (live_blocks_bounds _ _ _ _ H1 Hu Hy). lia.
  - apply elem_of_cons in Hy as [Heq|Hy].
    + injection Heq as -> ->. contradiction.
    + left. pose proof (live_blocks_bounds _ _ _ _ H2 Hu Hy). lia.
Qed.

(** A row with no live block whose free blocks are apart is one free block
    at most. *)
Lemma all_free_coalesced (a : Z) (bs : list row_block) :
  live_blocks a bs = [] -> coalesced bs ->
  bs = [] \/ exists s, bs = [free_block s].
Proof.
  destruct bs as [|[s|s] [|[s'|s'] bs]]; cbn; intros Hl Hc;
    try discriminate Hl; try contradiction; eauto.
Qed.

Lemma count_free_span (bs : list row_block) :
  Forall sized bs -> 0 < unit_size ->
  Z.of_nat (count_free bs) * unit_size <= span bs.
Proof.
  intros Hpos Hu. induction Hpos as [|b bs Hb Hbs IH]; [cbn; lia|].
  pose proof (units_one _ _ Hu Hb) as Hbu.
  destruct b as [s|s]; cbn [span block_size] in *.
  - change (count_free (free_block s :: bs)) with (S (count_free bs)). lia.
  - change (count_free (live_block s :: bs)) with (count_free bs). lia.
Qed.

End RowFacts.

(** ** Rows in the memory *)

Section RowMemory.
Context {L : Layout}.

Lemma last_free_range (q0 a : Z) (bs : list row_block) :
  Forall sized bs -> 0 < unit_size ->
  last_free q0 a bs = q0 \/ a <= last_free q0 a bs < a + span bs.
Proof.
  intros Hpos Hu.
  pose proof (last_free_elem q0 a bs) as Hin.
  apply elem_of_cons in Hin as [Heq|Hin]; [left; exact Heq|right].
  apply free_addresses_bounds; assumption.
Qed.

(** Pointing the last free block of a row, or the node before the row when
    it has none, to another address. *)
Lemma relink (m m' : memory) (z z' : Z) (bs : list row_block) :
  0 < unit_size ->
  forall a q0,
    q0 < a ->
    d_next m !! q0 = Some (first_free z a bs) ->
    laid_out m z a bs ->
    d_size m' = d_size m ->
    d_next m' = <[last_free q0 a bs := z']> (d_next m) ->
    d_next m' !! q0 = Some (first_free z' a bs) /\ laid_out m' z' a bs.
Proof.
  intros Hu. induction bs as [|b bs IH]; intros a q0 Hq Hn H Hsz Hnx.
  - cbn [first_free last_free laid_out] in *. rewrite Hnx, lookup_insert_eq.
    split; [reflexivity|exact I].
  - pose proof (laid_out_positive _ _ _ _ H) as Hpos.
    destruct (span_cons_pos _ _ Hpos Hu) as [Hb Hs].
    apply Forall_cons in Hpos as [_ Hpos'].
    destruct H as (Hp & Hsize & Hnext & H).
    destruct b as [s|s]; cbn [first_free last_free laid_out block_size is_free] in *.
    + specialize (Hnext eq_refl).
      assert (Hlt : a < a + s * unit_size) by lia.
      destruct (IH (a + s * unit_size) a Hlt Hnext H Hsz Hnx) as [Ha Hl].
      assert (Hne : last_free a (a + s * unit_size) bs <> q0).
      { destruct (last_free_range a (a + s * unit_size) bs Hpos' Hu); lia. }
      split.
      * rewrite Hnx, lookup_insert_ne by exact Hne. exact Hn.
      * split; [exact Hp|]. split; [rewrite Hsz; exact Hsize|].
        split; [intros _; exact Ha|exact Hl].
    + assert (Hlt : q0 < a + s * unit_size) by lia.
      destruct (IH (a + s * unit_size) q0 Hlt Hn H Hsz Hnx) as [Ha Hl].
      split; [exact Ha|].
      split; [exact Hp|]. split; [rewrite Hsz; exact Hsize|].
      split; [intros Hf; discriminate Hf|exact Hl].
Qed.

(** The last free block of a row points past the row. *)
Lemma next_of_last_free (m : memory) (z : Z) (bs : list row_block) :
  forall a q0,
    d_next m !! q0 = Some (first_free z a bs) ->
    laid_out m z a bs ->
    d_next m !! last_free q0 a bs = Some z.
Proof.
  induction bs as [|[s|s] bs IH]; intros a q0 Hn H;
    cbn [first_free last_free laid_out block_size is_free] in *.
  - exact Hn.
  - destruct H as (_ & _ & Hnext & H). apply (IH _ _ (Hnext eq_refl) H).
  - destruct H as (_ & _ & _ & H). apply (IH _ _ Hn H).
Qed.

(** The size in the header of the last free block of a row, and where the
    block ends. *)
Lemma size_of_last_free (m : memory) (z : Z) (bs1 : list row_block)
    (s : Z) (bs2 : list row_block) (a : Z) :
  laid_out m z a (bs1 ++ free_block s :: bs2) ->
  d_size m !! (a + span bs1) = Some s
  /\ d_next m !! (a + span bs1)
     = Some (first_free z (a + span bs1 + s * unit_size) bs2)
  /\ 0 < s.
Proof.
  intros H. apply laid_out_app in H as [_ H].
  destruct H as (Hp & Hs & Hn & _). cbn [block_size is_free] in *.
  split; [exact Hs|]. split; [exact (Hn eq_refl)|exact Hp].
Qed.

End RowMemory.

(** ** The search of [allocate_b] on a row *)

Section Search.
Context {L : Layout} (HL : layout_ok L).

Lemma get_size_at (m : memory) (a v : Z) :
  a <> 0 -> d_size m !! a = Some v -> get_size a m = Ret v m.
Proof.
  intros Ha Hv. unfold get_size. rewrite Hv.
  destruct (Z.eqb_spec a 0); [contradiction|reflexivity].
Qed.

Lemma get_info_eq (m : memory) (p : Z) (i : allocator_info_t) :
  p <> 0 -> infos m !! p = Some i -> get_info p m = Ret i m.
Proof.
  intros Hp Hi. unfold get_info. rewrite Hi.
  destruct (Z.eqb_spec p 0); [contradiction|reflexivity].
Qed.

(** One iteration on a block that is too small: the search moves on, or
    stops with null on the block [free_list] points to. *)
Lemma first_fit_pass (fuel : nat) (p n last curr sz nx : Z) (m : memory)
    (i : allocator_info_t) :
  p <> 0 -> infos m !! p = Some i ->
  curr <> 0 -> d_size m !! curr = Some sz -> sz < n ->
  curr <> free_list i -> d_next m !! curr = Some nx ->
  Static.first_fit (S fuel) p n last curr m
  = Static.first_fit fuel p n curr nx m.
Proof.
  intros Hp Hi Hc Hsz Hlt Hne Hnx. cbn [Static.first_fit]. unfold bind at 1.
  rewrite (get_size_at _ _ _ Hc Hsz).
  rewrite Z.geb_leb, (proj2 (Z.leb_gt _ _)) by lia.
  unfold bind at 1. rewrite (get_info_eq _ _ _ Hp Hi).
  rewrite (proj2 (Z.eqb_neq _ _) Hne).
  unfold bind at 1. rewrite (get_next_at _ _ _ Hc Hnx). reflexivity.
Qed.

Lemma first_fit_stop (fuel : nat) (p n last curr sz : Z) (m : memory)
    (i : allocator_info_t) :
  p <> 0 -> infos m !! p = Some i ->
  curr <> 0 -> d_size m !! curr = Some sz -> sz < n ->
  curr = free_list i ->
  Static.first_fit (S fuel) p n last curr m = Ret 0 m.
Proof.
  intros Hp Hi Hc Hsz Hlt Heq. cbn [Static.first_fit]. unfold bind at 1.
  rewrite (get_size_at _ _ _ Hc Hsz).
  rewrite Z.geb_leb, (proj2 (Z.leb_gt _ _)) by lia.
  unfold bind at 1. rewrite (get_info_eq _ _ _ Hp Hi).
  rewrite (proj2 (Z.eqb_eq _ _) Heq). reflexivity.
Qed.

(** The search passes over a row of blocks that are too small and do not
    include the block [free_list] points to, one iteration for each free
    block. *)
Lemma first_fit_skip (p n : Z) (m : memory) (i : allocator_info_t) (z : Z)
    (bs : list row_block) :
  p <> 0 -> infos m !! p = Some i ->
  forall (a last : Z) (fuel : nat),
    0 < a ->
    laid_out m z a bs ->
    Forall (too_small n) bs ->
    free_list i < a \/ a + span bs <= free_list i ->
    Static.first_fit (count_free bs + fuel) p n last (first_free z a bs) m
    = Static.first_fit fuel p n (last_free last a bs) z m.
Proof.
  intros Hp Hi. pose proof HL as [Hu _ _ _ _].
  assert (Hu0 : 0 < unit_size) by lia.
  induction bs as [|b bs IH]; intros a last fuel Ha H Hsmall Hfl.
  - reflexivity.
  - pose proof (laid_out_positive _ _ _ _ H) as Hpos.
    destruct (span_cons_pos _ _ Hpos Hu0) as [Hb Hs].
    destruct H as (Hsized & Hsize & Hnext & H).
    apply Forall_cons in Hsmall as [Hsm Hsmall].
    cbn [span] in Hfl.
    destruct b as [s|s]; cbn [first_free last_free block_size is_free] in *.
    + change (count_free (free_block s :: bs)) with (S (count_free bs)).
      cbn [Nat.add].
      assert (Ha0 : a <> 0) by lia.
      assert (Hne : a <> free_list i) by lia.
      rewrite (first_fit_pass _ p n last a s _ m i Hp Hi Ha0 Hsize
                 (Hsm eq_refl) Hne (Hnext eq_refl)).
      apply IH; [lia|exact H|exact Hsmall|lia].
    + change (count_free (live_block s :: bs)) with (count_free bs).
      apply IH; [lia|exact H|exact Hsmall|lia].
Qed.

Lemma span_carve (s n : Z) : span (carve s n) = s * unit_size.
Proof.
  unfold carve. destruct (Z.eqb_spec s n) as [->|_]; cbn [span block_size]; lia.
Qed.

Lemma last_free_in_row (q0 a : Z) (bs1 bs2 : list row_block) :
  last_free q0 a bs1 ∈ q0 :: free_addresses a (bs1 ++ bs2).
Proof.
  pose proof (last_free_elem q0 a bs1) as H.
  rewrite free_addresses_app. apply elem_of_cons in H as [H|H].
  - rewrite H. left.
  - right. apply elem_of_app. left. exact H.
Qed.

(** The search on a block that the request fits: the block, or its end, is
    handed out, and the arena is the row with that block carved. *)
Lemma first_fit_take (fuel : nat) (p : Z) (m : memory) (i : allocator_info_t)
    (bs1 : list row_block) (s : Z) (bs2 : list row_block) (n : Z) :
  p <> 0 -> infos m !! p = Some i ->
  arena_ok i ->
  arena_row m i (bs1 ++ free_block s :: bs2) ->
  1 <= n <= s ->
  mul64 n unit_size <= free_size i ->
  returns
    (Static.first_fit (S fuel) p n
       (last_free (free_memory_map i) (free_memory_map i + unit_size) bs1)
       (free_memory_map i + unit_size + span bs1)) m
    (fun ptr m' =>
       ptr = free_memory_map i + unit_size + span bs1
             + (s - n) * unit_size + unit_size
       /\ exists i',
           infos m' !! p = Some i'
           /\ same_place i i'
           /\ free_size i' = free_size i - n * unit_size
           /\ arena_row m' i' (bs1 ++ carve s n ++ bs2)).
Proof.
  intros Hp Hi [Hbase Htop Hmin Hhead] Hrow Hn Hcheck.
  pose proof HL as [Hu Hinfo _ _ _].
  assert (Hu0 : 0 < unit_size) by lia.
  destruct Hrow as (Hs0 & Hn0 & Hlaid & Hco & Hend & Hfl & Hfs).
  set (head := free_memory_map i) in *.
  set (init := head + unit_size) in *.
  set (c := init + span bs1) in *.
  pose proof (laid_out_positive _ _ _ _ Hlaid) as Hpos.
  apply Forall_app in Hpos as [Hpos1 Hpos2].
  pose proof (span_nonneg _ Hpos1 Hu0) as Hsp1.
  destruct (span_cons_pos _ _ Hpos2 Hu0) as [Hsu Hsp2].
  apply Forall_cons in Hpos2 as [_ Hpos2].
  cbn [block_size] in Hsu.
  rewrite span_app in Hend. cbn [span block_size] in Hend.
  rewrite first_free_app in Hn0. cbn [first_free] in Hn0. fold c in Hn0.
  apply laid_out_app in Hlaid as [Hl1 Hl2].
  cbn [first_free] in Hl1. fold c in Hl1, Hl2.
  destruct Hl2 as (Hspos & Hsc & Hnc & Hl2). specialize (Hnc eq_refl).
  cbn [block_size] in Hspos, Hsc, Hnc, Hl2.
  set (nx := first_free head (c + s * unit_size) bs2) in *.
  set (last := last_free head init bs1) in *.
  assert (Hlast : last = head \/ init <= last < c).
  { apply last_free_range; assumption. }
  assert (Hh0 : 0 < head) by lia.
  assert (Hnu : n * unit_size <= s * unit_size) by (apply units_le; lia).
  assert (Hun : unit_size <= n * unit_size) by (apply units_one; lia).
  assert (Hmul : mul64 n unit_size = n * unit_size).
  { unfold mul64. apply u64_small. lia. }
  rewrite Hmul in Hcheck.
  assert (Hs64 : s < 2 ^ 64) by (apply (units_below s unit_size); lia).
  assert (Hspan : span (bs1 ++ carve s n ++ bs2)
                  = span bs1 + s * unit_size + span bs2).
  { rewrite !span_app, span_carve. lia. }
  assert (Hflin : last ∈ head :: free_addresses init (bs1 ++ carve s n ++ bs2)).
  { apply last_free_in_row. }
  pose proof (coalesced_carve bs1 s n bs2 Hco) as Hco'.
  cbn [Static.first_fit]. step. step.
  rewrite Z.geb_leb, (proj2 (Z.leb_le n s)) by lia.
  step. destruct (Z.eqb_spec s n) as [Heq|Hne].
  - subst s. repeat step.
    rewrite block_add_small by lia. rewrite Hmul.
    split; [lia|]. eexists. split; [lookup|].
    split; [repeat split|].
    cbn [free_size with_free_size with_free_list].
    rewrite sub64_small by lia. split; [reflexivity|].
    unfold carve in *. rewrite Z.eqb_refl in *. cbn [app] in *.
    unfold arena_row.
    cbn [free_memory_map static_memory_map capacity free_list free_size
         with_free_size with_free_list].
    fold head. fold init.
    edestruct (relink m
                 {| infos := <[p := with_free_size (free_size i - n * unit_size)
                                       (with_free_list last i)]>
                               (<[p := with_free_list last i]> (infos m));
                    d_next := <[last := nx]> (d_next m);
                    d_size := d_size m |}
                 c nx bs1 Hu0 init head) as [Hhd Hrow1];
      [lia|exact Hn0|exact Hl1|reflexivity|reflexivity|].
    split; [exact Hs0|]. split.
    { rewrite first_free_app. cbn [first_free]. fold c. exact Hhd. }
    split.
    { apply laid_out_app. cbn [first_free]. fold c. split; [exact Hrow1|].
      cbn [laid_out block_size is_free]. split; [lia|]. split; [exact Hsc|].
      split; [intros Hf; discriminate Hf|].
      eapply laid_out_frame; [exact Hu0| |exact Hl2].
      intros x Hx. cbn [d_size d_next]. split; [reflexivity|].
      apply lookup_insert_ne. lia. }
    split; [exact Hco'|]. split; [rewrite Hspan; lia|].
    split; [exact Hflin|lia].
  - assert (Hsub : sub64 s n = s - n).
    { unfold sub64. apply u64_small. lia. }
    rewrite Hsub. step. step. step. step.
    assert (Hpart : 0 < (s - n) * unit_size)
      by (pose proof (units_lt n s unit_size Hu0); lia).
    rewrite (block_add_small c (s - n)) by lia.
    repeat step.
    rewrite block_add_small by lia. rewrite Hmul.
    split; [lia|]. eexists. split; [lookup|].
    split; [repeat split|].
    cbn [free_size with_free_size with_free_list].
    rewrite sub64_small by lia. split; [reflexivity|].
    unfold carve in *. rewrite (proj2 (Z.eqb_neq s n) Hne) in *.
    cbn [app] in *.
    unfold arena_row.
    cbn [free_memory_map static_memory_map capacity free_list free_size
         with_free_size with_free_list d_size d_next].
    fold head. fold init.
    split; [rewrite !lookup_insert_ne by lia; exact Hs0|]. split.
    { rewrite first_free_app. cbn [first_free]. fold c. exact Hn0. }
    split.
    { apply laid_out_app. cbn [first_free]. fold c. split.
      - eapply laid_out_frame; [exact Hu0| |exact Hl1].
        intros x Hx. cbn [d_size d_next]. split; [|reflexivity].
        rewrite !lookup_insert_ne by lia. reflexivity.
      - cbn [laid_out block_size is_free first_free].
        split; [lia|]. split; [lookup|]. split.
        { intros _. cbn [d_next].
          replace (c + (s - n) * unit_size + n * unit_size)
            with (c + s * unit_size) by ring.
          exact Hnc. }
        split; [lia|]. split; [lookup|].
        split; [intros Hf; discriminate Hf|].
        replace (c + (s - n) * unit_size + n * unit_size)
          with (c + s * unit_size) by ring.
        eapply laid_out_frame; [exact Hu0| |exact Hl2].
        intros x Hx. cbn [d_size d_next]. split; [|reflexivity].
        rewrite !lookup_insert_ne by lia. reflexivity. }
    split; [exact Hco'|]. split; [rewrite Hspan; lia|].
    split; [exact Hflin|lia].
Qed.

Lemma returns_weaken {St A} (c : M St A) (s : St) (Q R : A -> St -> Prop) :
  returns c s Q -> (forall a s', Q a s' -> R a s') -> returns c s R.
Proof.
  intros (a & s' & Hc & HQ) HQR. exists a, s'. split; [exact Hc|auto].
Qed.

Lemma returns_eq {St A} (c c' : M St A) (s : St) (Q : A -> St -> Prop) :
  c s = c' s -> returns c' s Q -> returns c s Q.
Proof. intros Heq (a & s' & Hc & HQ). exists a, s'. rewrite Heq. auto. Qed.

(** The search of [allocate_b] on an arena that is a row: with a budget of
    one iteration for every node of the free list it returns; it returns
    null, and leaves the memory as it is, when no free block holds the
    request; otherwise one free block that holds it is carved, the header
    counts the units taken, and the arena is the row that results. *)
Lemma search_row (fuel : nat) (p : Z) (m : memory) (i : allocator_info_t)
    (bs : list row_block) (n : Z) :
  p <> 0 -> infos m !! p = Some i ->
  arena_ok i ->
  arena_row m i bs ->
  1 <= n < 2 ^ 64 ->
  mul64 n unit_size <= free_size i ->
  (count_free bs + 1 <= fuel)%nat ->
  returns
    (curr <- get_next (free_list i) ;;
     Static.first_fit fuel p n (free_list i) curr) m
    (fun ptr m' =>
       (ptr = 0 /\ m' = m /\ Forall (too_small n) bs)
       \/ exists bs1 s bs2 i',
            bs = bs1 ++ free_block s :: bs2
            /\ n <= s
            /\ (forall bsA sx bsB,
                  bs = bsA ++ free_block sx :: bsB ->
                  passed_over (free_list i)
                    (free_memory_map i + unit_size + span bs1)
                    (free_memory_map i + unit_size + span bsA) ->
                  sx < n)
            /\ ptr = free_memory_map i + unit_size + span bs1
                     + (s - n) * unit_size + unit_size
            /\ infos m' !! p = Some i'
            /\ same_place i i'
            /\ free_size i' = free_size i - n * unit_size
            /\ arena_row m' i' (bs1 ++ carve s n ++ bs2)).
Proof.
  intros Hp Hi Hok Hrow Hn Hcheck Hfuel.
  pose proof Hok as [Hbase Htop Hmin Hhead].
  pose proof HL as [Hu Hinfo _ _ _].
  assert (Hu0 : 0 < unit_size) by lia.
  pose proof Hrow as (Hs0 & Hn0 & Hlaid & Hco & Hend & Hfl & Hfs).
  set (head := free_memory_map i) in *.
  set (init := head + unit_size) in *.
  assert (Hh0 : 0 < head) by lia.
  assert (Hhne : head <> 0) by lia.
  assert (Hi0 : 0 < init) by (unfold init; lia).
  pose proof (laid_out_positive _ _ _ _ Hlaid) as Hpos.
  match goal with |- returns _ _ ?Q => set (post := Q) end.
  (* what the take gives, in the form of the statement *)
  assert (Htake : forall f bs1 s bs2,
    bs = bs1 ++ free_block s :: bs2 -> n <= s ->
    (forall bsA sx bsB,
        bs = bsA ++ free_block sx :: bsB ->
        passed_over (free_list i) (init + span bs1) (init + span bsA) ->
        sx < n) ->
    returns (Static.first_fit (S f) p n (last_free head init bs1)
               (init + span bs1)) m post).
  { intros f bs1 s bs2 Hbs Hfit Hord.
    eapply returns_weaken.
    - apply (first_fit_take f p m i bs1 s bs2 n Hp Hi Hok); [|lia|exact Hcheck].
      rewrite <- Hbs. exact Hrow.
    - cbn beta. intros ptr m' (Hptr & i' & H1 & H2 & H3 & H4). right.
      exists bs1, s, bs2, i'. fold head. fold init.
      split; [exact Hbs|]. split; [exact Hfit|]. split; [exact Hord|].
      auto 10. }
  (* the free blocks of a part of the row that is too small *)
  assert (Hpart : forall X M Y,
    bs = X ++ M ++ Y -> Forall (too_small n) M ->
    forall bsA sx bsB,
      bs = bsA ++ free_block sx :: bsB ->
      span X <= span bsA < span X + span M -> sx < n).
  { intros X M Y HXMY Hall bsA sx bsB HbsA Hin.
    apply (too_small_in n sx M Hall).
    apply (free_in_part X M Y bsA sx bsB); [|rewrite <- HXMY; exact Hpos
                                           |exact Hu0|exact Hin].
    rewrite <- HXMY. exact HbsA. }
  assert (Hstep : forall P b R bsA sx bsB,
    bs = P ++ b :: R -> bs = bsA ++ free_block sx :: bsB ->
    span P < span bsA -> span P + block_size b * unit_size <= span bsA).
  { intros P b R bsA sx bsB HP HbsA Hlt.
    apply (boundary_step P b R bsA (free_block sx) bsB);
      [rewrite <- HP; exact HbsA|rewrite <- HP; exact Hpos|exact Hu0|exact Hlt]. }
  assert (Hinside : forall bsA sx bsB,
    bs = bsA ++ free_block sx :: bsB -> 0 <= span bsA < span bs).
  { intros bsA sx bsB HbsA. pose proof Hpos as Hpos'. rewrite HbsA in Hpos'.
    apply Forall_app in Hpos' as [HA HB].
    pose proof (span_nonneg _ HA Hu0).
    destruct (span_cons_pos _ _ HB Hu0).
    rewrite HbsA, span_app. cbn [span block_size] in *. lia. }
  (* the sentinel is too small and ends the search when [free_list] is it *)
  apply elem_of_cons in Hfl as [Hfl|Hfl].
  - (* the search starts at the sentinel *)
    eapply returns_bind, returns_get_next; [lia|rewrite Hfl; exact Hn0|].
    rewrite Hfl.
    destruct (first_fitting n bs) as [Hall|(bs1 & s & bs2 & Hbs & Hall1 & Hfit)].
    + assert (Hf : fuel = (count_free bs + S (fuel - count_free bs - 1))%nat)
        by lia.
      rewrite Hf. eapply returns_eq.
      { apply (first_fit_skip p n m i head bs Hp Hi init head _ Hi0 Hlaid Hall).
        left. rewrite Hfl. unfold init. lia. }
      eapply returns_eq.
      { eapply first_fit_stop;
          [exact Hp|exact Hi|exact Hhne|exact Hs0|lia|symmetry; exact Hfl]. }
      apply returns_ret. left. auto.
    + pose proof Hlaid as Hlaid'. rewrite Hbs in Hlaid'.
      apply laid_out_app in Hlaid' as [Hl1 _]. cbn [first_free] in Hl1.
      rewrite Hbs, first_free_app. cbn [first_free].
      assert (Hcf : (count_free bs1 + 1 <= fuel)%nat).
      { rewrite Hbs, count_free_app in Hfuel.
        change (count_free (free_block s :: bs2)) with (S (count_free bs2))
          in Hfuel. lia. }
      assert (Hf : fuel = (count_free bs1 + S (fuel - count_free bs1 - 1))%nat)
        by lia.
      rewrite Hf. eapply returns_eq.
      { apply (first_fit_skip p n m i _ bs1 Hp Hi init head _ Hi0 Hl1 Hall1).
        left. rewrite Hfl. unfold init. lia. }
      apply (Htake _ bs1 s bs2 Hbs Hfit).
      intros bsA sx bsB HbsA Hpass. rewrite Hfl in Hpass.
      destruct (Hinside _ _ _ Hbs) as [Hb1 _].
      destruct (Hinside _ _ _ HbsA) as [HA0 _].
      apply (Hpart [] bs1 (free_block s :: bs2) Hbs Hall1 bsA sx bsB HbsA).
      cbn [span]. unfold passed_over, init in Hpass. lia.
  - (* the search starts at a free block *)
    destruct (elem_of_free_addresses _ _ _ Hfl) as (bsP & sf & bsQ & Hbs & Hfla).
    pose proof Hlaid as Hlaid'. rewrite Hbs in Hlaid'.
    destruct (size_of_last_free _ _ _ _ _ _ Hlaid') as (Hsf & Hnf & Hsfpos).
    apply laid_out_app in Hlaid' as [HlP HlQ]. cbn [first_free] in HlP.
    destruct HlQ as (_ & _ & _ & HlQ). cbn [block_size] in HlQ.
    pose proof Hpos as Hpos'. rewrite Hbs in Hpos'.
    apply Forall_app in Hpos' as [HposP HposQ].
    pose proof (span_nonneg _ HposP Hu0) as HspP.
    destruct (span_cons_pos _ _ HposQ Hu0) as [Hsfu HspQ].
    cbn [block_size] in Hsfu.
    rewrite <- Hfla in Hsf, Hnf, HlP, HlQ.
    set (fl := free_list i) in *.
    assert (Hflne : fl <> 0) by lia.
    assert (Hafter : 0 < fl + sf * unit_size) by lia.
    assert (Hcount : count_free bs = (count_free bsP + S (count_free bsQ))%nat).
    { rewrite Hbs, count_free_app. reflexivity. }
    assert (Hafter_fl : Forall (too_small n) bsQ ->
      forall bsA sx bsB,
        bs = bsA ++ free_block sx :: bsB -> fl < init + span bsA -> sx < n).
    { intros HallQ bsA sx bsB HbsA Hx.
      assert (HXMY : bs = (bsP ++ [free_block sf]) ++ bsQ ++ []).
      { rewrite Hbs, app_nil_r, <- app_assoc. reflexivity. }
      apply (Hpart _ bsQ [] HXMY HallQ bsA sx bsB HbsA).
      pose proof (Hstep bsP _ bsQ bsA sx bsB Hbs HbsA) as Hst.
      pose proof (Hinside _ _ _ HbsA) as Hins.
      rewrite Hbs in Hins. rewrite !span_app in *.
      cbn [span block_size] in *. lia. }
    eapply returns_bind, returns_get_next; [lia|exact Hnf|].
    destruct (first_fitting n bsQ) as [HallQ|(q1 & s & q2 & HbsQ & Hall1 & Hfit)].
    + (* nothing after [free_list]: on to the sentinel and the front *)
      assert (Hf : fuel = (count_free bsQ + S (fuel - count_free bsQ - 1))%nat)
        by lia.
      rewrite Hf. eapply returns_eq.
      { apply (first_fit_skip p n m i head bsQ Hp Hi (fl + sf * unit_size)
                 fl _ Hafter HlQ HallQ).
        left. lia. }
      eapply returns_eq.
      { eapply first_fit_pass;
          [exact Hp|exact Hi|exact Hhne|exact Hs0|lia|lia|exact Hn0]. }
      destruct (first_fitting n bsP) as [HallP|(p1 & s & p2 & HbsP & Hall1 & Hfit)].
      * rewrite Hbs, first_free_app. cbn [first_free]. rewrite <- Hfla.
        assert (Hf' : (fuel - count_free bsQ - 1
                       = count_free bsP + S (fuel - count_free bs - 1))%nat)
          by lia.
        rewrite Hf'. eapply returns_eq.
        { apply (first_fit_skip p n m i fl bsP Hp Hi init head _ Hi0 HlP HallP).
          right. lia. }
        destruct (Z_lt_le_dec sf n) as [Hsmall|Hfit].
        -- eapply returns_eq.
           { eapply first_fit_stop;
               [exact Hp|exact Hi|exact Hflne|exact Hsf|exact Hsmall|reflexivity]. }
           apply returns_ret. left. split; [reflexivity|]. split; [reflexivity|].
           rewrite Hbs. apply Forall_app. split; [exact HallP|].
           constructor; [intros _; exact Hsmall|exact HallQ].
        -- rewrite Hfla. apply (Htake _ bsP sf bsQ Hbs Hfit).
           intros bsA sx bsB HbsA Hpass. fold fl in Hpass.
           rewrite <- Hfla in Hpass.
           destruct (Z_lt_le_dec fl (init + span bsA)) as [Hx|Hx].
           ++ exact (Hafter_fl HallQ bsA sx bsB HbsA Hx).
           ++ destruct (Hinside _ _ _ HbsA) as [HA0 _].
              apply (Hpart [] bsP (free_block sf :: bsQ) Hbs HallP
                       bsA sx bsB HbsA).
              cbn [span]. unfold passed_over in Hpass. lia.
      * assert (Hbs' : bs = p1 ++ free_block s :: (p2 ++ free_block sf :: bsQ)).
        { rewrite Hbs, HbsP, <- app_assoc. reflexivity. }
        rewrite Hbs', first_free_app. cbn [first_free].
        pose proof HlP as HlP'. rewrite HbsP in HlP'.
        apply laid_out_app in HlP' as [Hl1 _]. cbn [first_free] in Hl1.
        assert (Hsp : init + span p1 < fl).
        { rewrite Hfla, HbsP, span_app. rewrite HbsP in HposP.
          apply Forall_app in HposP as [Hp1 Hp2].
          pose proof (span_nonneg _ Hp1 Hu0).
          destruct (span_cons_pos _ _ Hp2 Hu0). cbn [span block_size] in *.
          lia. }
        assert (Hc1 : (count_free p1 + 1 <= fuel - count_free bsQ - 1)%nat).
        { rewrite HbsP, count_free_app in Hcount.
          change (count_free (free_block s :: p2)) with (S (count_free p2))
            in Hcount. lia. }
        assert (Hf' : (fuel - count_free bsQ - 1
                       = count_free p1
                         + S (fuel - count_free bsQ - 1 - count_free p1 - 1))%nat)
          by lia.
        rewrite Hf'. eapply returns_eq.
        { apply (first_fit_skip p n m i _ p1 Hp Hi init head _ Hi0 Hl1 Hall1).
          right. lia. }
        apply (Htake _ p1 s _ Hbs' Hfit).
        intros bsA sx bsB HbsA Hpass. fold fl in Hpass.
        destruct (Z_lt_le_dec fl (init + span bsA)) as [Hx|Hx].
        { exact (Hafter_fl HallQ bsA sx bsB HbsA Hx). }
        destruct (Hinside _ _ _ HbsA) as [HA0 _].
        apply (Hpart [] p1 _ Hbs' Hall1 bsA sx bsB HbsA).
        cbn [span]. unfold passed_over in Hpass. lia.
    + (* a block after [free_list] holds the request *)
      assert (Hbs' : bs = (bsP ++ free_block sf :: q1) ++ free_block s :: q2).
      { rewrite Hbs, HbsQ, <- app_assoc. reflexivity. }
      pose proof HlQ as HlQ'. rewrite HbsQ in HlQ'.
      apply laid_out_app in HlQ' as [Hl1 _]. cbn [first_free] in Hl1.
      rewrite HbsQ, first_free_app. cbn [first_free].
      assert (Hc1 : (count_free q1 + 1 <= fuel)%nat).
      { rewrite HbsQ, count_free_app in Hcount.
        change (count_free (free_block s :: q2)) with (S (count_free q2))
          in Hcount. lia. }
      assert (Hf : fuel = (count_free q1 + S (fuel - count_free q1 - 1))%nat)
        by lia.
      rewrite Hf. eapply returns_eq.
      { apply (first_fit_skip p n m i _ q1 Hp Hi (fl + sf * unit_size)
                 fl _ Hafter Hl1 Hall1).
        left. lia. }
      assert (Hlast : last_free fl (fl + sf * unit_size) q1
                      = last_free head init (bsP ++ free_block sf :: q1)).
      { rewrite last_free_app. cbn [last_free]. rewrite <- Hfla. reflexivity. }
      assert (Hc : fl + sf * unit_size + span q1
                   = init + span (bsP ++ free_block sf :: q1)).
      { rewrite span_app. cbn [span block_size]. lia. }
      rewrite Hlast, Hc.
      apply (Htake _ _ s q2 Hbs' Hfit).
      intros bsA sx bsB HbsA Hpass. fold fl in Hpass. rewrite <- Hc in Hpass.
      assert (HXMY : bs = (bsP ++ [free_block sf]) ++ q1
                          ++ free_block s :: q2).
      { rewrite Hbs, HbsQ, <- app_assoc. reflexivity. }
      apply (Hpart _ q1 _ HXMY Hall1 bsA sx bsB HbsA).
      pose proof (Hstep bsP _ bsQ bsA sx bsB Hbs HbsA) as Hst.
      assert (Hq1 : 0 <= span q1).
      { apply span_nonneg; [|exact Hu0]. pose proof HposQ as HQ.
        rewrite HbsQ in HQ. apply Forall_cons in HQ as [_ HQ].
        apply Forall_app in HQ as [HQ _]. exact HQ. }
      rewrite !span_app in *. cbn [span block_size] in *.
      unfold passed_over in Hpass. lia.
Qed.

End Search.

(** ** The release of a block of a row *)

(** The comparisons among the hypotheses, as propositions. *)
Ltac compared :=
  repeat match goal with
  | H : (_ >=? _) = _ |- _ => rewrite Z.geb_leb in H
  | H : (_ >? _) = _ |- _ => rewrite Z.gtb_ltb in H
  | H : (_ <=? _) = true |- _ => apply Z.leb_le in H
  | H : (_ <=? _) = false |- _ => apply Z.leb_gt in H
  | H : (_ <? _) = true |- _ => apply Z.ltb_lt in H
  | H : (_ <? _) = false |- _ => apply Z.ltb_ge in H
  end.

Section Locate.
Context {L : Layout} (HL : layout_ok L).

(** One iteration of the search of [deallocate]: it ends at [p] when the
    block lies between [p] and the next node, or when [p] is the last node
    by address and the block lies after it or before the first one. *)
Lemma locate_stop (fuel : nat) (b p pn : Z) (m : memory) :
  p <> 0 -> d_next m !! p = Some pn ->
  p <= b < pn \/ (pn <= p /\ (p < b \/ b < pn)) ->
  Static.locate (S fuel) b p m = Ret p m.
Proof.
  intros Hp Hn Hcond. pose proof (get_next_at _ _ _ Hp Hn) as Hg.
  cbn [Static.locate]. unfold bind, ret.
  destruct (b >=? p) eqn:E1; destruct (b <? pn) eqn:E2;
    destruct (p >=? pn) eqn:E3; destruct (b >? p) eqn:E4;
    repeat (rewrite ?Hg, ?E1, ?E2, ?E3, ?E4; cbn [andb]);
    try reflexivity; exfalso; compared; lia.
Qed.

Lemma locate_pass (fuel : nat) (b p pn : Z) (m : memory) :
  p <> 0 -> d_next m !! p = Some pn ->
  ~ (p <= b < pn) -> ~ (pn <= p /\ (p < b \/ b < pn)) ->
  Static.locate (S fuel) b p m = Static.locate fuel b pn m.
Proof.
  intros Hp Hn Hc1 Hc2. pose proof (get_next_at _ _ _ Hp Hn) as Hg.
  cbn [Static.locate]. unfold bind, ret.
  destruct (b >=? p) eqn:E1; destruct (b <? pn) eqn:E2;
    destruct (p >=? pn) eqn:E3; destruct (b >? p) eqn:E4;
    repeat (rewrite ?Hg, ?E1, ?E2, ?E3, ?E4; cbn [andb]);
    try reflexivity; exfalso; compared; lia.
Qed.

(** The search walks up a row that lies below the block, one iteration
    for each free block of the row. *)
Lemma locate_low (b : Z) (m : memory) (z : Z) (bs : list row_block) :
  forall (a q : Z) (fuel : nat),
    0 < q < a ->
    d_next m !! q = Some (first_free z a bs) ->
    laid_out m z a bs ->
    a + span bs <= b ->
    Static.locate (count_free bs + fuel) b q m
    = Static.locate fuel b (last_free q a bs) m.
Proof.
  pose proof HL as [Hu _ _ _ _].
  assert (Hu0 : 0 < unit_size) by lia.
  induction bs as [|x bs IH]; intros a q fuel Hq Hn H Hb.
  - reflexivity.
  - pose proof (laid_out_positive _ _ _ _ H) as Hpos.
    destruct (span_cons_pos _ _ Hpos Hu0) as [Hx Hs].
    destruct H as (_ & _ & Hnext & H). cbn [span] in Hb.
    destruct x as [s|s]; cbn [first_free last_free block_size is_free] in *.
    + change (count_free (free_block s :: bs)) with (S (count_free bs)).
      cbn [Nat.add].
      assert (Hq0 : q <> 0) by lia.
      rewrite (locate_pass _ b q a m Hq0 Hn) by lia.
      apply IH; [lia|exact (Hnext eq_refl)|exact H|lia].
    + change (count_free (live_block s :: bs)) with (count_free bs).
      apply IH; [lia|exact Hn|exact H|lia].
Qed.

(** The search walks up a row that lies above the block and on to the
    sentinel. *)
Lemma locate_high (b head : Z) (m : memory) (bs : list row_block) :
  forall (a q : Z) (fuel : nat),
    0 < head < b -> b < q < a ->
    d_next m !! q = Some (first_free head a bs) ->
    laid_out m head a bs ->
    Static.locate (count_free bs + S fuel) b q m
    = Static.locate fuel b head m.
Proof.
  pose proof HL as [Hu _ _ _ _].
  assert (Hu0 : 0 < unit_size) by lia.
  induction bs as [|x bs IH]; intros a q fuel Hh Hq Hn H.
  - cbn [first_free] in Hn. cbn [count_free List.filter length Nat.add].
    assert (Hq0 : q <> 0) by lia.
    apply (locate_pass _ b q head m Hq0 Hn); lia.
  - pose proof (laid_out_positive _ _ _ _ H) as Hpos.
    destruct (span_cons_pos _ _ Hpos Hu0) as [Hx Hs].
    destruct H as (_ & _ & Hnext & H).
    destruct x as [s|s]; cbn [first_free last_free block_size is_free] in *.
    + change (count_free (free_block s :: bs)) with (S (count_free bs)).
      cbn [Nat.add].
      assert (Hq0 : q <> 0) by lia.
      rewrite (locate_pass _ b q a m Hq0 Hn) by lia.
      apply (IH (a + s * unit_size)); [lia|lia|exact (Hnext eq_refl)|exact H].
    + change (count_free (live_block s :: bs)) with (count_free bs).
      apply (IH (a + s * unit_size)); [lia|lia|exact Hn|exact H].
Qed.

(** On an arena that is a row, the search for the place of a live block
    ends, within one iteration for every node of the free list, at the last
    free block before it, or at the sentinel when there is none. *)
Lemma locate_row (fuel : nat) (m : memory) (i : allocator_info_t)
    (bs1 : list row_block) (s : Z) (bs2 : list row_block) :
  arena_ok i ->
  arena_row m i (bs1 ++ live_block s :: bs2) ->
  (count_free (bs1 ++ live_block s :: bs2) + 1 <= fuel)%nat ->
  Static.locate fuel (free_memory_map i + unit_size + span bs1)
    (free_list i) m
  = Ret (last_free (free_memory_map i) (free_memory_map i + unit_size) bs1) m.
Proof.
  intros [Hbase Htop Hmin Hhead] Hrow Hfuel.
  pose proof HL as [Hu Hinfo _ _ _].
  assert (Hu0 : 0 < unit_size) by lia.
  destruct Hrow as (Hs0 & Hn0 & Hlaid & Hco & Hend & Hfl & Hfs).
  set (head := free_memory_map i) in *.
  set (init := head + unit_size) in *.
  set (b := init + span bs1) in *.
  pose proof (laid_out_positive _ _ _ _ Hlaid) as Hpos.
  apply Forall_app in Hpos as [Hpos1 Hpos2].
  pose proof (span_nonneg _ Hpos1 Hu0) as Hsp1.
  destruct (span_cons_pos _ _ Hpos2 Hu0) as [Hsu Hsp2].
  apply Forall_cons in Hpos2 as [_ Hpos2].
  cbn [block_size] in Hsu.
  rewrite span_app in Hend. cbn [span block_size] in Hend.
  rewrite first_free_app in Hn0. cbn [first_free] in Hn0. fold b in Hn0.
  apply laid_out_app in Hlaid as [Hl1 Hl2].
  cbn [first_free] in Hl1. fold b in Hl1, Hl2.
  destruct Hl2 as (_ & _ & _ & Hl2). cbn [block_size] in Hl2.
  set (pn := first_free head (b + s * unit_size) bs2) in *.
  set (pred := last_free head init bs1) in *.
  assert (Hpred : pred = head \/ init <= pred < b).
  { apply last_free_range; assumption. }
  assert (Hpn : pn = head \/ b + s * unit_size <= pn).
  { destruct (first_free_cases head (b + s * unit_size) bs2 Hpos2 Hu0)
      as [[H _]|H]; [left; exact H|right; apply H]. }
  assert (Hnp : d_next m !! pred = Some pn).
  { apply (next_of_last_free m pn bs1 init head Hn0 Hl1). }
  assert (Hh0 : 0 < head) by lia.
  assert (Hstop : forall f, Static.locate (S f) b pred m = Ret pred m).
  { intros f. apply (locate_stop f b pred pn m); [lia|exact Hnp|lia]. }
  assert (Hfront : forall f,
    Static.locate (count_free bs1 + S f) b head m = Ret pred m).
  { intros f.
    rewrite (locate_low b m pn bs1 init head (S f)); [apply Hstop| |exact Hn0|exact Hl1|].
    - unfold init. lia.
    - fold b. lia. }
  rewrite count_free_app in Hfuel.
  change (count_free (live_block s :: bs2)) with (count_free bs2) in Hfuel.
  rewrite free_addresses_app in Hfl. cbn [free_addresses] in Hfl. fold b in Hfl.
  apply elem_of_cons in Hfl as [Hfl|Hfl].
  - rewrite Hfl.
    replace fuel with (count_free bs1 + S (fuel - count_free bs1 - 1))%nat
      by lia.
    apply Hfront.
  - apply elem_of_app in Hfl as [Hfl|Hfl].
    + destruct (elem_of_free_addresses _ _ _ Hfl) as (x & sf & y & Hbs & Hfla).
      pose proof Hl1 as Hl1'. rewrite Hbs in Hl1'.
      destruct (size_of_last_free _ _ _ _ _ _ Hl1') as (_ & Hnf & Hsfpos).
      apply laid_out_app in Hl1' as [_ Hly].
      destruct Hly as (_ & _ & _ & Hly). cbn [block_size] in Hly.
      pose proof Hpos1 as Hpos1'. rewrite Hbs in Hpos1'.
      apply Forall_app in Hpos1' as [Hposx Hposy].
      pose proof (span_nonneg _ Hposx Hu0) as Hspx.
      destruct (span_cons_pos _ _ Hposy Hu0) as [Hsfu Hspy].
      cbn [block_size] in Hsfu.
      rewrite <- Hfla in Hnf, Hly.
      assert (Hb : b = free_list i + sf * unit_size + span y).
      { unfold b. rewrite Hbs, span_app. cbn [span block_size]. lia. }
      assert (Hcf : count_free bs1 = (count_free x + S (count_free y))%nat).
      { rewrite Hbs, count_free_app. reflexivity. }
      assert (Hlast : last_free (free_list i)
                        (free_list i + sf * unit_size) y = pred).
      { unfold pred. rewrite Hbs, last_free_app. cbn [last_free].
        rewrite <- Hfla. reflexivity. }
      replace fuel with (count_free y + S (fuel - count_free y - 1))%nat by lia.
      rewrite (locate_low b m pn y (free_list i + sf * unit_size)
                 (free_list i) _); [rewrite Hlast; apply Hstop| |exact Hnf|exact Hly|].
      * lia.
      * lia.
    + destruct (elem_of_free_addresses _ _ _ Hfl) as (x & sf & y & Hbs & Hfla).
      pose proof Hl2 as Hl2'. rewrite Hbs in Hl2'.
      destruct (size_of_last_free _ _ _ _ _ _ Hl2') as (_ & Hnf & Hsfpos).
      apply laid_out_app in Hl2' as [_ Hly].
      destruct Hly as (_ & _ & _ & Hly). cbn [block_size] in Hly.
      pose proof Hpos2 as Hpos2'. rewrite Hbs in Hpos2'.
      apply Forall_app in Hpos2' as [Hposx Hposy].
      pose proof (span_nonneg _ Hposx Hu0) as Hspx.
      destruct (span_cons_pos _ _ Hposy Hu0) as [Hsfu Hspy].
      cbn [block_size] in Hsfu.
      rewrite <- Hfla in Hnf, Hly.
      assert (Hcf : count_free bs2 = (count_free x + S (count_free y))%nat).
      { rewrite Hbs, count_free_app. reflexivity. }
      replace fuel
        with (count_free y
              + S (count_free bs1
                   + S (fuel - count_free y - 1 - count_free bs1 - 1)))%nat
        by lia.
      rewrite (locate_high b head m y (free_list i + sf * unit_size)
                 (free_list i) _); [apply Hfront| | |exact Hnf|exact Hly].
      * unfold b, init. lia.
      * lia.
Qed.

End Locate.

Section Release.
Context {L : Layout} (HL : layout_ok L).

(** The stores of a release, once the search has ended at [p]: the block
    [b] of [s] units takes in the block at [pn] when that one starts where
    [b] ends ([fwd]), and is taken in by [p] when [p] ends where [b] starts
    ([bwd]); [f] is the size of [b] after the first step and [zb] the node
    it then points to. *)
Lemma release_at (q b hd p : Z) (fuel : nat) (m : memory)
    (i : allocator_info_t) (s pn ps f zb : Z) (fwd bwd : bool)
    (Q : unit -> memory -> Prop) :
  Static.locate fuel b hd m = Ret p m ->
  q <> 0 -> 0 < b -> 0 < p -> p <> b ->
  infos m !! q = Some i ->
  d_size m !! b = Some s ->
  d_next m !! p = Some pn ->
  d_size m !! p = Some ps ->
  0 < s -> b + s * unit_size < 2 ^ 64 ->
  0 <= ps -> p + ps * unit_size < 2 ^ 64 ->
  (if fwd
   then b + s * unit_size = pn
        /\ exists s2, d_size m !! pn = Some s2 /\ d_next m !! pn = Some zb
                      /\ f = s + s2 /\ 0 <= s2 /\ f < 2 ^ 64
   else b + s * unit_size <> pn /\ f = s /\ zb = pn) ->
  (if bwd
   then p + ps * unit_size = b /\ ps + f < 2 ^ 64
   else p + ps * unit_size <> b) ->
  Q tt {| infos :=
            <[q := with_free_size
                     (add64 (free_size i) (mul64 f unit_size))
                     (with_free_list p i)]>
              (<[q := with_free_list p i]> (infos m));
          d_next := <[p := if bwd then zb else b]> (<[b := zb]> (d_next m));
          d_size :=
            (if bwd then <[p := ps + f]> else (fun x => x))
              ((if fwd then <[b := f]> else (fun x => x)) (d_size m)) |} ->
  returns (Static.release q b hd fuel) m Q.
Proof.
  intros Hloc Hq Hb Hp Hpb Hi Hsb Hnp Hsp Hs Hbe Hps Hpe Hfwd Hbwd HQ.
  pose proof HL as [Hu _ _ _ _].
  unfold Static.release. apply returns_bind. exists p, m.
  split; [exact Hloc|].
  destruct fwd.
  - destruct Hfwd as (Hpn & s2 & Hs2 & Hzb & Hf & Hs2pos & Hf64).
    assert (Hsu : unit_size <= s * unit_size) by (apply units_one; lia).
    assert (Hpn0 : 0 < pn) by lia.
    assert (Hpnb : pn <> b) by lia.
    destruct bwd.
    + destruct Hbwd as (Hpb' & Hpf). subst f. run.
      rewrite (add64_small s s2), (add64_small ps (s + s2)) by lia. exact HQ.
    + subst f. run. rewrite (add64_small s s2) by lia. exact HQ.
  - destruct Hfwd as (Hpn & -> & ->).
    destruct bwd.
    + destruct Hbwd as (Hpb' & Hpf). run.
      rewrite (add64_small ps s) by lia.
      rewrite (mul64_small s unit_size) in HQ by lia. exact HQ.
    + run. rewrite (mul64_small s unit_size) in HQ by lia. exact HQ.
Qed.

(** The release of a live block of an arena that is a row: it returns
    within one iteration of the search for every node of the free list; the
    arena is then the row with the block put back, merged with the free
    blocks next to it; the header counts the size of the block, and with it
    the size of the free block that followed it, if any. *)
Lemma release_row (fuel : nat) (q : Z) (m : memory) (i : allocator_info_t)
    (bs1 : list row_block) (s : Z) (bs2 : list row_block) :
  q <> 0 -> infos m !! q = Some i ->
  arena_ok i ->
  arena_row m i (bs1 ++ live_block s :: bs2) ->
  (count_free (bs1 ++ live_block s :: bs2) + 1 <= fuel)%nat ->
  returns
    (Static.release q (free_memory_map i + unit_size + span bs1)
       (free_list i) fuel) m
    (fun _ m' =>
       exists i',
         infos m' !! q = Some i'
         /\ same_place i i'
         /\ free_size i'
            = add64 (free_size i) (units_counted s bs2 * unit_size)
         /\ arena_row m' i' (release_block bs1 s bs2)).
Proof.
  intros Hq Hi Hok Hrow Hfuel.
  pose proof (locate_row HL fuel m i bs1 s bs2 Hok Hrow Hfuel) as Hloc.
  pose proof Hok as [Hbase Htop Hmin Hhead].
  pose proof HL as [Hu Hinfo _ _ _].
  assert (Hu0 : 0 < unit_size) by lia.
  destruct Hrow as (Hs0 & Hn0 & Hlaid & Hco & Hend & Hfl & Hfs).
  set (head := free_memory_map i) in *.
  set (init := head + unit_size) in *.
  set (b := init + span bs1) in *.
  assert (Hbdef : b = init + span bs1) by reflexivity.
  pose proof (laid_out_positive _ _ _ _ Hlaid) as Hpos.
  apply Forall_app in Hpos as [Hpos1 Hpos2].
  pose proof (span_nonneg _ Hpos1 Hu0) as Hsp1.
  destruct (span_cons_pos _ _ Hpos2 Hu0) as [Hsu Hsp2].
  apply Forall_cons in Hpos2 as [Hspos Hpos2].
  unfold sized in Hspos. cbn [block_size] in Hsu, Hspos.
  pose proof (span_release_block bs1 s bs2) as Hspan.
  rewrite span_app in Hend, Hspan. cbn [span block_size] in Hend, Hspan.
  rewrite first_free_app in Hn0. cbn [first_free] in Hn0. fold b in Hn0.
  apply laid_out_app in Hlaid as [Hl1 Hl2].
  cbn [first_free] in Hl1. fold b in Hl1, Hl2.
  destruct Hl2 as (_ & Hsb & _ & Hl2). cbn [block_size] in Hsb, Hl2.
  set (pn := first_free head (b + s * unit_size) bs2) in *.
  set (pred := last_free head init bs1) in *.
  assert (Hpred : pred = head \/ init <= pred < b).
  { apply last_free_range; assumption. }
  assert (Hnp : d_next m !! pred = Some pn).
  { apply (next_of_last_free m pn bs1 init head Hn0 Hl1). }
  assert (Hh0 : 0 < head) by lia.
  pose proof (coalesced_release bs1 s bs2 Hco) as Hco'.
  pose proof (absorb_next_span s bs2) as Habs.
  unfold units_counted, release_block in *.
  set (f := (absorb_next s bs2).1) in *.
  set (rest := (absorb_next s bs2).2) in *.
  set (zb := first_free head (b + f * unit_size) rest).
  (* the block that follows *)
  assert (Hforward : exists fwd : bool,
    (if fwd
     then b + s * unit_size = pn
          /\ exists s2, d_size m !! pn = Some s2 /\ d_next m !! pn = Some zb
                        /\ f = s + s2 /\ 0 <= s2 /\ f < 2 ^ 64
     else b + s * unit_size <> pn /\ f = s /\ zb = pn)
    /\ 0 < f /\ 0 <= span rest
    /\ laid_out m head (b + f * unit_size) rest).
  { subst zb f rest pn. destruct bs2 as [|[s2|s2] bs2];
      cbn [absorb_next fst snd first_free] in *.
    - exists false. repeat split; lia.
    - destruct (span_cons_pos _ _ Hpos2 Hu0) as [Hs2u Hsp3].
      destruct Hl2 as (Hs2pos & Hs2 & Hn2 & Hl3).
      cbn [block_size is_free span] in *.
      replace (b + (s + s2) * unit_size)
        with (b + s * unit_size + s2 * unit_size) by ring.
      exists true. split; [split; [reflexivity|]|].
      + exists s2. split; [exact Hs2|]. split; [exact (Hn2 eq_refl)|].
        split; [reflexivity|]. split; [lia|].
        apply (units_below (s + s2) unit_size); lia.
      + split; [lia|]. split; [lia|exact Hl3].
    - destruct (span_cons_pos _ _ Hpos2 Hu0) as [Hs2u Hsp3].
      apply Forall_cons in Hpos2 as [_ Hpos3].
      cbn [block_size span] in *.
      exists false. split; [split; [|split; [reflexivity|reflexivity]]|].
      + destruct (first_free_cases head (b + s * unit_size + s2 * unit_size)
                    bs2 Hpos3 Hu0) as [[H _]|H]; lia.
      + split; [lia|]. split; [lia|exact Hl2]. }
  destruct Hforward as (fwd & Hfwd & Hfpos & Hsprest & Hlrest).
  assert (Hfu : unit_size <= f * unit_size) by (apply units_one; lia).
  assert (Hf64 : f * unit_size < 2 ^ 64) by lia.
  assert (Hmul : mul64 f unit_size = f * unit_size).
  { apply mul64_small. lia. }
  (* the memory after the stores *)
  set (size1 := (if fwd then <[b := f]> else (fun x => x)) (d_size m)).
  assert (Hsize1b : size1 !! b = Some f).
  { subst size1. destruct fwd; [apply lookup_insert_eq|].
    destruct Hfwd as (_ & -> & _). exact Hsb. }
  assert (Hsize1 : forall x, x <> b -> size1 !! x = d_size m !! x).
  { intros x Hx. subst size1. destruct fwd; [|reflexivity].
    apply lookup_insert_ne. lia. }
  assert (Hsuffix : forall m',
    d_size m' !! b = Some f -> d_next m' !! b = Some zb ->
    (forall x, b + f * unit_size <= x ->
               d_size m' !! x = d_size m !! x
               /\ d_next m' !! x = d_next m !! x) ->
    laid_out m' head b (free_block f :: rest)).
  { intros m' H1 H2 H3. cbn [laid_out block_size is_free].
    split; [exact Hfpos|]. split; [exact H1|]. split; [intros _; exact H2|].
    eapply laid_out_frame; [exact Hu0| |exact Hlrest].
    intros x Hx. apply H3. lia. }
  assert (Hcases :
    (exists x sp, bs1 = x ++ [free_block sp])
    \/ (put_back bs1 f rest = bs1 ++ free_block f :: rest
        /\ exists ps, d_size m !! pred = Some ps
                      /\ 0 <= ps /\ pred + ps * unit_size < b)).
  { destruct (snoc_cases bs1) as [Hbs1|(x & [sp|sl] & Hbs1)].
    - right. subst pred b. rewrite Hbs1. cbn [put_back app last_free span].
      split; [reflexivity|]. exists 0. split; [exact Hs0|]. unfold init. lia.
    - left. exists x, sp. exact Hbs1.
    - right. split; [rewrite Hbs1; apply put_back_snoc_live|].
      assert (Hpredx : pred = last_free head init x).
      { subst pred. rewrite Hbs1, last_free_app. cbn [last_free]. reflexivity. }
      pose proof Hpos1 as Hpos1'. rewrite Hbs1 in Hpos1'.
      apply Forall_app in Hpos1' as [Hposx Hposl].
      pose proof (span_nonneg _ Hposx Hu0) as Hspx.
      destruct (span_cons_pos _ _ Hposl Hu0) as [Hslu _].
      cbn [block_size] in Hslu.
      assert (Hb : b = init + span x + sl * unit_size).
      { subst b. rewrite Hbs1, span_app. cbn [span block_size]. lia. }
      pose proof Hl1 as Hl1'. rewrite Hbs1 in Hl1'.
      apply laid_out_app in Hl1' as [Hlx _]. cbn [first_free] in Hlx.
      destruct (last_free_cases head init x Hposx Hu0)
        as [[Hl _]|(x1 & sp & x2 & Hx & Hl & _)].
      + exists 0. rewrite Hpredx, Hl. split; [exact Hs0|lia].
      + exists sp. rewrite Hx in Hlx, Hposx.
        destruct (size_of_last_free _ _ _ _ _ _ Hlx) as (Hsp & _ & Hsppos).
        apply Forall_app in Hposx as [Hposx1 Hposx2].
        pose proof (span_nonneg _ Hposx1 Hu0).
        destruct (span_cons_pos _ _ Hposx2 Hu0) as [? ?].
        rewrite Hpredx, Hl. split; [exact Hsp|]. split; [lia|].
        rewrite Hb, Hx, span_app. cbn [span block_size] in *. lia. }
  destruct Hcases as [(x & sp & Hbs1)|(Hshape & ps & Hsp & Hpspos & Hpsb)].
  - (* a free block ends where the block starts, and takes it in *)
    assert (Hpredx : pred = init + span x).
    { subst pred. rewrite Hbs1, last_free_app. cbn [last_free]. reflexivity. }
    pose proof Hl1 as Hl1'. rewrite Hbs1 in Hl1'.
    destruct (size_of_last_free _ _ _ _ _ _ Hl1') as (Hsp & _ & Hsppos).
    apply laid_out_app in Hl1' as [Hlx _]. cbn [first_free] in Hlx.
    rewrite <- Hpredx in Hsp, Hlx.
    pose proof Hpos1 as Hpos1'. rewrite Hbs1 in Hpos1'.
    apply Forall_app in Hpos1' as [Hposx _].
    pose proof (span_nonneg _ Hposx Hu0) as Hspx.
    assert (Hb : pred + sp * unit_size = b).
    { subst b. rewrite Hbs1, span_app. cbn [span block_size]. lia. }
    assert (Hspu : unit_size <= sp * unit_size) by (apply units_one; lia).
    assert (Hn0' : d_next m !! head = Some (first_free pred init x)).
    { rewrite Hn0, Hbs1, first_free_app. cbn [first_free].
      rewrite <- Hpredx. reflexivity. }
    rewrite Hbs1, put_back_snoc_free in *.
    eapply (release_at q b (free_list i) pred fuel m i s pn sp f zb fwd true);
      try eassumption; try lia.
    { split; [exact Hb|]. apply (units_below (sp + f) unit_size); lia. }
    eexists. split; [lookup|]. split; [repeat split|].
    cbn [free_size with_free_size with_free_list].
    rewrite Hmul. split; [reflexivity|].
    unfold arena_row.
    cbn [free_memory_map static_memory_map capacity free_list free_size
         with_free_size with_free_list d_size d_next].
    fold head. fold init. fold size1.
    split.
    { rewrite lookup_insert_ne by lia. rewrite Hsize1 by lia. exact Hs0. }
    split.
    { rewrite !lookup_insert_ne by lia.
      rewrite first_free_app. cbn [first_free]. rewrite <- Hpredx. exact Hn0'. }
    split.
    { apply laid_out_app. cbn [first_free]. rewrite <- Hpredx. split.
      - eapply laid_out_frame; [exact Hu0| |exact Hlx].
        intros y Hy. cbn [d_size d_next]. split.
        + rewrite lookup_insert_ne by lia. apply Hsize1. lia.
        + rewrite !lookup_insert_ne by lia. reflexivity.
      - cbn [laid_out block_size is_free d_size d_next].
        replace (pred + (sp + f) * unit_size) with (b + f * unit_size) by lia.
        split; [lia|]. split; [apply lookup_insert_eq|].
        split; [intros _; apply lookup_insert_eq|].
        eapply laid_out_frame; [exact Hu0| |exact Hlrest].
        intros y Hy. cbn [d_size d_next]. split.
        + rewrite lookup_insert_ne by lia. apply Hsize1. lia.
        + rewrite !lookup_insert_ne by lia. reflexivity. }
    split; [exact Hco'|]. split; [lia|].
    split; [|apply u64_range].
    right. rewrite free_addresses_app. apply elem_of_app. right.
    cbn [free_addresses]. rewrite <- Hpredx. left.
  - (* no free block ends where the block starts: the last free block
       before it, or the sentinel, points to the block *)
    rewrite Hshape in *.
    eapply (release_at q b (free_list i) pred fuel m i s pn ps f zb fwd false);
      try eassumption; try lia.
    eexists. split; [lookup|]. split; [repeat split|].
    cbn [free_size with_free_size with_free_list].
    rewrite Hmul. split; [reflexivity|].
    unfold arena_row.
    cbn [free_memory_map static_memory_map capacity free_list free_size
         with_free_size with_free_list d_size d_next].
    fold head. fold init. fold size1.
    edestruct (relink
                 {| infos := infos m; d_next := <[b := zb]> (d_next m);
                    d_size := size1 |}
                 {| infos :=
                      <[q := with_free_size
                               (add64 (free_size i) (f * unit_size))
                               (with_free_list pred i)]>
                        (<[q := with_free_list pred i]> (infos m));
                    d_next := <[pred := b]> (<[b := zb]> (d_next m));
                    d_size := size1 |}
                 pn b bs1 Hu0 init head) as [Hhd Hrow1].
    { unfold init. lia. }
    { cbn [d_next]. rewrite lookup_insert_ne by lia. exact Hn0. }
    { eapply laid_out_frame; [exact Hu0| |exact Hl1].
      intros y Hy. cbn [d_size d_next]. split; [apply Hsize1; lia|].
      rewrite lookup_insert_ne by lia. reflexivity. }
    { reflexivity. }
    { reflexivity. }
    cbn [d_size d_next] in Hhd.
    split; [rewrite Hsize1 by lia; exact Hs0|].
    split.
    { rewrite first_free_app. cbn [first_free]. fold b. exact Hhd. }
    split.
    { apply laid_out_app. cbn [first_free]. fold b. split; [exact Hrow1|].
      apply Hsuffix; cbn [d_size d_next].
      - exact Hsize1b.
      - rewrite lookup_insert_ne by lia. apply lookup_insert_eq.
      - intros y Hy. split; [apply Hsize1; lia|].
        rewrite !lookup_insert_ne by lia. reflexivity. }
    split; [exact Hco'|]. split; [lia|].
    split; [apply last_free_in_row|apply u64_range].
Qed.

End Release.

(** ** Allocation and release on an arena that is a row *)

Section ArenaRow.
Context {L : Layout} (HL : layout_ok L).

(** The checks of [allocate_b] on an arena whose free list is built: a
    rounded request above the free-byte count returns null, any other one
    enters the search at the node after the one [free_list] points to. *)
Lemma returns_allocate_b (m : memory) (this : Static_Allocator)
    (i : allocator_info_t) (bs : list row_block) (n_bytes : Z) (fuel : nat)
    (Q : Z -> memory -> Prop) :
  arena_at m this i ->
  arena_ok i ->
  arena_row m i bs ->
  0 < n_bytes < 2 ^ 64 ->
  (free_size i < mul64 (Static.blocks_needed n_bytes) unit_size -> Q 0 m) ->
  (mul64 (Static.blocks_needed n_bytes) unit_size <= free_size i ->
   returns
     (curr <- get_next (free_list i) ;;
      Static.first_fit fuel (d_allocator_info_p this)
        (Static.blocks_needed n_bytes) (free_list i) curr) m Q) ->
  returns (Static.allocate_b this n_bytes fuel) m Q.
Proof.
  intros [Hp Hi] Hok Hrow Hbytes Hnull Hsearch.
  pose proof Hok as [Hbase Htop Hmin Hhead].
  pose proof HL as [Hu Hinfo _ _ _].
  assert (Hu0 : 0 < unit_size) by lia.
  set (n := Static.blocks_needed n_bytes) in *.
  assert (Hfl0 : free_list i <> 0).
  { destruct Hrow as (_ & _ & Hlaid & _ & _ & Hfl & _).
    pose proof (laid_out_positive _ _ _ _ Hlaid) as Hpos.
    apply elem_of_cons in Hfl as [Hfl|Hfl]; [lia|].
    pose proof (free_addresses_bounds _ _ _ Hpos Hu0 Hfl). lia. }
  unfold Static.allocate_b. fold n. settle. step. step. settle. settle.
  destruct (Z.ltb_spec (free_size i) (mul64 n unit_size)) as [Hlt|Hcheck].
  { step. exact (Hnull Hlt). }
  settle. step. step. exact (Hsearch Hcheck).
Qed.

(** The address of a block of the row is an address of the machine. *)
Lemma row_block_address (m : memory) (i : allocator_info_t)
    (bs1 : list row_block) (b : row_block) (bs2 : list row_block) :
  arena_ok i ->
  arena_row m i (bs1 ++ b :: bs2) ->
  0 <= free_memory_map i + unit_size + span bs1 < 2 ^ 64.
Proof.
  intros Hok Hrow.
  pose proof Hok as [Hbase Htop Hmin Hhead].
  pose proof HL as [Hu Hinfo _ _ _].
  assert (Hu0 : 0 < unit_size) by lia.
  destruct Hrow as (_ & _ & Hlaid & _ & Hend & _).
  pose proof (laid_out_positive _ _ _ _ Hlaid) as Hpos.
  apply Forall_app in Hpos as [Hpos1 Hpos2].
  pose proof (span_nonneg _ Hpos1 Hu0).
  destruct (span_cons_pos _ _ Hpos2 Hu0).
  rewrite span_app in Hend. cbn [span] in Hend. lia.
Qed.

(** X2.  On an arena whose free list is built, [allocate_b] returns within
    one iteration of its search for every node of the free list.  It
    returns null, and leaves the memory as it is, when the rounded request
    exceeds the free-byte count or no free block holds it.  Otherwise the
    rounded request is within the free-byte count, and it hands out the
    payload of the last units of the first free block that holds the
    request, in the order of the list from the node after the one
    [free_list] points to: every free block the search passes over is too
    small.  The pointer is not null, the row of the arena is the same but
    for that block, which is carved, and the free-byte count is less by the
    units taken. *)
Theorem allocate_b_row (m : memory) (this : Static_Allocator)
    (i : allocator_info_t) (bs : list row_block) (n_bytes : Z) (fuel : nat) :
  arena_at m this i ->
  arena_ok i ->
  arena_row m i bs ->
  0 < n_bytes < 2 ^ 64 ->
  (count_free bs + 1 <= fuel)%nat ->
  returns (Static.allocate_b this n_bytes fuel) m
    (fun ptr m' =>
       let n := Static.blocks_needed n_bytes in
       (ptr = 0 /\ m' = m
        /\ (free_size i < mul64 n unit_size \/ Forall (too_small n) bs))
       \/ exists bs1 s bs2 i',
            bs = bs1 ++ free_block s :: bs2
            /\ n <= s
            /\ (forall bsA sx bsB,
                  bs = bsA ++ free_block sx :: bsB ->
                  passed_over (free_list i)
                    (free_memory_map i + unit_size + span bs1)
                    (free_memory_map i + unit_size + span bsA) ->
                  sx < n)
            /\ ptr = free_memory_map i + unit_size + span bs1
                     + (s - n) * unit_size + unit_size
            /\ ptr <> 0
            /\ arena_at m' this i'
            /\ same_place i i'
            /\ mul64 n unit_size <= free_size i
            /\ free_size i' = free_size i - n * unit_size
            /\ arena_row m' i' (bs1 ++ carve s n ++ bs2)).
Proof.
  intros Hat Hok Hrow Hbytes Hfuel. pose proof Hat as [Hp Hi].
  pose proof Hok as [Hbase Htop Hmin Hhead].
  pose proof HL as [Hu Hinfo _ _ _].
  assert (Hu0 : 0 < unit_size) by lia.
  destruct (blocks_needed_spec HL n_bytes Hbytes) as [Hn _].
  cbv zeta. set (n := Static.blocks_needed n_bytes) in *.
  eapply returns_allocate_b;
    [exact Hat|exact Hok|exact Hrow|exact Hbytes|fold n; left; auto|].
  fold n. intros Hcheck.
  eapply returns_weaken.
  - apply (search_row HL fuel _ m i bs n Hp Hi Hok Hrow Hn Hcheck Hfuel).
  - cbn beta. intros ptr m' [(H1 & H2 & H3)|(bs1 & s & bs2 & i' & H)].
    + left. auto.
    + right. exists bs1, s, bs2, i'.
      destruct H as (H1 & H2 & Hord & H3 & H4 & H5 & H6 & H7).
      split; [exact H1|]. split; [exact H2|]. split; [exact Hord|].
      split; [exact H3|]. split.
      { pose proof Hrow as (_ & _ & Hlaid & _).
        pose proof (laid_out_positive _ _ _ _ Hlaid) as Hpos.
        rewrite H1 in Hpos. apply Forall_app in Hpos as [Hpos1 _].
        pose proof (span_nonneg _ Hpos1 Hu0).
        pose proof (units_le n s unit_size Hu0 H2). lia. }
      split; [split; assumption|]. split; [exact H5|].
      split; [exact Hcheck|]. split; [exact H6|exact H7].
Qed.

(** X3.  On an arena whose free list is built, [deallocate] of the pointer
    to a live block, with a count that passes the bounds check, returns
    within one iteration of its search for every node of the free list.  The
    row of the arena is the same but for the block, which is free again and
    merged with the free blocks next to it.  The free-byte count is more by
    the size of the block, and by the size of the free block that followed
    it when there was one. *)
Theorem deallocate_row (m : memory) (this : Static_Allocator)
    (i : allocator_info_t) (bs1 : list row_block) (s : Z)
    (bs2 : list row_block) (n_obj : Z) (fuel : nat) :
  arena_at m this i ->
  arena_ok i ->
  arena_row m i (bs1 ++ live_block s :: bs2) ->
  range_within i (free_memory_map i + unit_size + span bs1 + unit_size) n_obj ->
  (count_free (bs1 ++ live_block s :: bs2) + 1 <= fuel)%nat ->
  returns
    (Static.deallocate this
       (free_memory_map i + unit_size + span bs1 + unit_size) n_obj fuel) m
    (fun _ m' =>
       exists i',
         arena_at m' this i'
         /\ same_place i i'
         /\ free_size i'
            = add64 (free_size i) (units_counted s bs2 * unit_size)
         /\ arena_row m' i' (release_block bs1 s bs2)).
Proof.
  intros Hat Hok Hrow Hin Hfuel. pose proof Hat as [Hp Hi].
  pose proof (row_block_address _ _ _ _ _ Hok Hrow) as Hb.
  pose proof HL as [Hu _ _ _ _].
  eapply returns_deallocate; [exact Hat|lia|exact Hin|].
  rewrite block_sub_add by exact Hb.
  eapply returns_weaken.
  - apply (release_row HL fuel _ m i bs1 s bs2 Hp Hi Hok Hrow Hfuel).
  - cbn beta. intros _ m' (i' & H1 & H2 & H3 & H4).
    exists i'. split; [split; assumption|auto].
Qed.

(** C6, where the code departs from it.  The bounds test of [deallocate]
    adds the size of the objects to the pointer modulo [2^64].  On an arena
    whose free list is built, [deallocate] of the pointer to a live block
    with a count whose range ends beyond the arena, but wraps around to an
    address at or below its end, throws nothing: it returns, the block is
    in the free list and the free-byte count has changed. *)
Theorem deallocate_bounds_wrap (m : memory) (this : Static_Allocator)
    (i : allocator_info_t) (bs1 : list row_block) (s : Z)
    (bs2 : list row_block) (n_obj : Z) (fuel : nat) :
  arena_at m this i ->
  arena_ok i ->
  arena_row m i (bs1 ++ live_block s :: bs2) ->
  0 <= n_obj < 2 ^ 64 ->
  static_memory_map i + capacity i
  < free_memory_map i + unit_size + span bs1 + unit_size + n_obj * sizeof_T ->
  add64 (free_memory_map i + unit_size + span bs1 + unit_size)
    (mul64 n_obj sizeof_T)
  <= static_memory_map i + capacity i ->
  (count_free (bs1 ++ live_block s :: bs2) + 1 <= fuel)%nat ->
  returns
    (Static.deallocate this
       (free_memory_map i + unit_size + span bs1 + unit_size) n_obj fuel) m
    (fun _ m' =>
       exists i',
         arena_at m' this i'
         /\ same_place i i'
         /\ free_size i' <> free_size i
         /\ arena_row m' i' (release_block bs1 s bs2)).
Proof.
  intros Hat Hok Hrow Hn Hbeyond Hwrap Hfuel. pose proof Hat as [Hp Hi].
  pose proof (row_block_address _ _ _ _ _ Hok Hrow) as Hb.
  pose proof Hok as [Hbase Htop Hmin Hhead].
  pose proof HL as [Hu Hinfo _ _ _].
  assert (Hu0 : 0 < unit_size) by lia.
  assert (Hspan1 : 0 <= span bs1).
  { pose proof Hrow as (_ & _ & Hlaid & _).
    pose proof (laid_out_positive _ _ _ _ Hlaid) as Hpos.
    apply Forall_app in Hpos as [Hpos1 _].
    exact (span_nonneg _ Hpos1 Hu0). }
  assert (Hin : range_within i
                  (free_memory_map i + unit_size + span bs1 + unit_size) n_obj).
  { split; [lia|]. rewrite (add64_small (static_memory_map i)) by lia.
    exact Hwrap. }
  assert (Hcount : 0 < units_counted s bs2 * unit_size < 2 ^ 64).
  { pose proof Hrow as (_ & _ & Hlaid & _ & Hend & _).
    pose proof (laid_out_positive _ _ _ _ Hlaid) as Hpos.
    apply Forall_app in Hpos as [Hpos1 Hpos2].
    apply Forall_cons in Hpos2 as [Hs Hpos2].
    pose proof (span_nonneg _ Hpos1 Hu0) as H1.
    pose proof (span_nonneg _ Hpos2 Hu0) as H2.
    rewrite span_app in Hend. cbn [span block_size] in Hend.
    unfold sized in Hs. cbn [block_size] in Hs.
    pose proof (units_one _ _ Hu0 Hs) as Hsu.
    pose proof (absorb_next_span s bs2) as Hab.
    assert (H3 : 0 <= span (absorb_next s bs2).2).
    { apply span_nonneg; [|exact Hu0].
      destruct bs2 as [|[s2|s2] bs2]; cbn [absorb_next snd]; [constructor| |].
      - apply Forall_cons in Hpos2 as [_ Hpos2]. exact Hpos2.
      - exact Hpos2. }
    assert (H4 : s * unit_size
                 <= (absorb_next s bs2).1 * unit_size).
    { destruct bs2 as [|[s2|s2] bs2]; cbn [absorb_next fst]; [lia| |lia].
      apply Forall_cons in Hpos2 as [Hs2 _].
      unfold sized in Hs2. cbn [block_size] in Hs2.
      apply units_le; lia. }
    unfold units_counted. lia. }
  eapply returns_deallocate; [exact Hat|lia|exact Hin|].
  rewrite block_sub_add by exact Hb.
  eapply returns_weaken.
  - apply (release_row HL fuel _ m i bs1 s bs2 Hp Hi Hok Hrow Hfuel).
  - cbn beta. intros _ m' (i' & H1 & H2 & H3 & H4).
    exists i'. split; [split; assumption|]. split; [exact H2|].
    split; [|exact H4].
    pose proof Hrow as (_ & _ & _ & _ & _ & _ & Hfs).
    rewrite H3. unfold add64.
    destruct (Z_lt_le_dec
                (free_size i + units_counted s bs2 * unit_size) (2 ^ 64)).
    + rewrite u64_small by lia. lia.
    + rewrite u64_wrapped by lia. lia.
Qed.

End ArenaRow.

(** ** Any client *)

Section Client.
Context {L : Layout} (HL : layout_ok L).

Lemma arena_ok_same (i i' : allocator_info_t) :
  arena_ok i -> same_place i i' -> arena_ok i'.
Proof.
  intros [H1 H2 H3 H4] (Hb & Hh & Hc).
  constructor; rewrite ?Hb, ?Hh, ?Hc; assumption.
Qed.

Lemma same_place_trans (i i' i'' : allocator_info_t) :
  same_place i i' -> same_place i' i'' -> same_place i i''.
Proof.
  intros (H1 & H2 & H3) (H4 & H5 & H6). unfold same_place.
  rewrite H4, H5, H6. auto.
Qed.

(** [allocate_b] on an arena that is a row, built or not yet: the first
    call that passes the check on the free-byte count builds the free list,
    and goes on as on the row of one free block. *)
Lemma allocate_b_arena (m : memory) (this : Static_Allocator)
    (i : allocator_info_t) (bs : list row_block) (n_bytes : Z) (fuel : nat) :
  arena_at m this i ->
  arena_ok i ->
  arena_is m i bs ->
  0 < n_bytes < 2 ^ 64 ->
  (count_free bs + 1 <= fuel)%nat ->
  returns (Static.allocate_b this n_bytes fuel) m
    (fun ptr m' =>
       let n := Static.blocks_needed n_bytes in
       exists i',
         arena_at m' this i'
         /\ same_place i i'
         /\ ((ptr = 0 /\ free_size i' = free_size i /\ arena_is m' i' bs)
             \/ exists bs1 s bs2,
                  bs = bs1 ++ free_block s :: bs2
                  /\ n <= s
                  /\ ptr = free_memory_map i + unit_size + span bs1
                           + (s - n) * unit_size + unit_size
                  /\ free_size i' = free_size i - n * unit_size
                  /\ arena_row m' i' (bs1 ++ carve s n ++ bs2))).
Proof.
  intros Hat Hok His Hbytes Hfuel. pose proof Hat as [Hp Hi].
  pose proof Hok as [Hbase Htop Hmin Hhead].
  pose proof HL as [Hu Hinfo _ _ _].
  assert (Hu0 : 0 < unit_size) by lia.
  destruct (blocks_needed_spec HL n_bytes Hbytes) as [Hn _].
  cbv zeta.
  destruct His as [([Hfl Hfs] & Hroom & Hbs)|Hrow].
  - set (n := Static.blocks_needed n_bytes) in *.
    set (head := free_memory_map i) in *.
    set (p := d_allocator_info_p this) in *.
    assert (Hs1 : 1 <= free_size i / unit_size).
    { apply Z.div_le_lower_bound; lia. }
    assert (Hsu : unit_size * (free_size i / unit_size) <= free_size i)
      by (apply Z.mul_div_le; lia).
    unfold Static.allocate_b. fold n p. settle. step. step. settle. settle.
    destruct (Z.ltb_spec (free_size i) (mul64 n unit_size)) as [Hlt|Hcheck].
    { step. exists i. split; [exact Hat|]. split; [repeat split|].
      left. split; [reflexivity|]. split; [reflexivity|].
      left. repeat split; assumption. }
    step. rewrite Hfl. cbn [Z.eqb]. fold head.
    rewrite (block_add_small head 1) by lia.
    replace (head + 1 * unit_size) with (head + unit_size) by ring.
    repeat step.
    set (m1 := {| infos := _; d_next := _; d_size := _ |}).
    set (i1 := with_free_list head i).
    assert (Hrow1 : arena_row m1 i1 bs).
    { rewrite Hbs. unfold arena_row, m1, i1.
      cbn [free_memory_map static_memory_map capacity free_list free_size
           with_free_list d_size d_next laid_out first_free span
           block_size is_free coalesced free_addresses].
      fold head.
      split; [rewrite lookup_insert_ne by lia; apply lookup_insert_eq|].
      split; [apply lookup_insert_eq|].
      split.
      { split; [lia|]. split; [apply lookup_insert_eq|].
        split; [|exact I]. intros _.
        rewrite lookup_insert_ne by lia. apply lookup_insert_eq. }
      split; [exact I|]. split; [lia|]. split; [left|lia]. }
    assert (Hi1 : infos m1 !! p = Some i1).
    { unfold m1. cbn [infos]. apply lookup_insert_eq. }
    eapply (returns_eq _
              (curr <- get_next (free_list i1) ;;
               Static.first_fit fuel p n (free_list i1) curr)).
    { unfold bind, i1. cbn [free_list with_free_list].
      rewrite (get_next_at m1 head (head + unit_size)); [reflexivity|lia|].
      unfold m1. cbn [d_next]. apply lookup_insert_eq. }
    eapply returns_weaken.
    + apply (search_row HL fuel p m1 i1 bs n Hp Hi1); [constructor;assumption
                                                  |exact Hrow1|exact Hn
                                                  |exact Hcheck|exact Hfuel].
    + cbn beta. intros ptr m' [(H1 & H2 & H3)|(bs1 & s & bs2 & i' & H)].
      * exists i1. subst m'. split.
        { split; [exact Hp|]. unfold m1. cbn [infos]. apply lookup_insert_eq. }
        split; [repeat split|]. left. split; [exact H1|].
        split; [reflexivity|]. right. exact Hrow1.
      * destruct H as (H1 & H2 & _ & H3 & H4 & H5 & H6 & H7).
        exists i'. split; [split; assumption|]. split; [exact H5|].
        right. exists bs1, s, bs2. auto.
  - set (n := Static.blocks_needed n_bytes) in *.
    set (p := d_allocator_info_p this) in *.
    eapply (returns_allocate_b HL);
      [exact Hat|exact Hok|exact Hrow|exact Hbytes| |];
      fold n p; intros Hcheck.
    { exists i. split; [exact Hat|]. split; [repeat split|].
      left. split; [reflexivity|]. split; [reflexivity|]. right. exact Hrow. }
    eapply returns_weaken.
    + apply (search_row HL fuel p m i bs n Hp Hi Hok Hrow Hn Hcheck Hfuel).
    + cbn beta. intros ptr m' [(H1 & H2 & H3)|(bs1 & s & bs2 & i' & H)].
      * exists i. subst m'. split; [exact Hat|]. split; [repeat split|].
        left. split; [exact H1|]. split; [reflexivity|]. right. exact Hrow.
      * destruct H as (H1 & H2 & _ & H3 & H4 & H5 & H6 & H7).
        exists i'. split; [split; assumption|]. split; [exact H5|].
        right. exists bs1, s, bs2. auto.
Qed.

Lemma arena_is_sized (m : memory) (i : allocator_info_t)
    (bs : list row_block) :
  arena_is m i bs -> Forall sized bs.
Proof.
  pose proof HL as [Hu _ _ _ _].
  intros [(_ & Hroom & ->)|(_ & _ & Hlaid & _)].
  - constructor; [|constructor]. unfold sized. cbn [block_size].
    apply Z.div_str_pos. lia.
  - exact (laid_out_positive _ _ _ _ Hlaid).
Qed.

Lemma arena_is_span (m : memory) (i : allocator_info_t)
    (bs : list row_block) :
  arena_ok i -> arena_is m i bs -> span bs <= capacity i.
Proof.
  pose proof HL as [Hu Hinfo _ _ _].
  intros [Hbase Htop Hmin Hhead] [([_ Hfs] & Hroom & ->)|(_ & _ & _ & _ & Hend & _)].
  - cbn [span block_size].
    assert (unit_size * (free_size i / unit_size) <= free_size i)
      by (apply Z.mul_div_le; lia).
    lia.
  - lia.
Qed.

(** The budget of iterations that is enough for every row of the arena. *)
Lemma fuel_enough (m : memory) (i : allocator_info_t) (bs : list row_block)
    (fuel : nat) :
  arena_ok i -> arena_is m i bs ->
  (Z.to_nat (capacity i / unit_size) + 1 <= fuel)%nat ->
  (count_free bs + 1 <= fuel)%nat.
Proof.
  intros Hok His Hfuel. pose proof HL as [Hu _ _ _ _].
  assert (Hu0 : 0 < unit_size) by lia.
  pose proof (arena_is_span m i bs Hok His) as Hspan.
  pose proof (count_free_span bs (arena_is_sized _ _ _ His) Hu0) as Hcount.
  assert (Z.of_nat (count_free bs) <= capacity i / unit_size).
  { apply Z.div_le_lower_bound; lia. }
  lia.
Qed.

Lemma holds_same (i i' : allocator_info_t) (bs : list row_block)
    (held : list (Z * Z)) :
  same_place i i' -> holds i bs held -> holds i' bs held.
Proof.
  intros (Hb & Hh & Hc) [Hperm Hin]. split.
  - rewrite Hh. exact Hperm.
  - eapply Forall_impl; [exact Hin|]. intros [ptr n]. unfold range_within.
    rewrite Hb, Hc. auto.
Qed.

(** Whatever a client asks, in whatever order, the arena stays a row, and
    the pointers the client holds stay the pointers to its live blocks. *)
Lemma serve_ok (this : Static_Allocator) (fuel : nat) (rs : list request) :
  forall (m : memory) (i : allocator_info_t) (bs : list row_block)
         (held : list (Z * Z)),
    arena_at m this i ->
    arena_ok i ->
    arena_is m i bs ->
    holds i bs held ->
    Forall asks_bytes rs ->
    (Z.to_nat (capacity i / unit_size) + 1 <= fuel)%nat ->
    returns (serve this fuel rs held) m
      (fun held' m' =>
         exists i' bs',
           arena_at m' this i'
           /\ same_place i i'
           /\ arena_is m' i' bs'
           /\ holds i' bs' held'
           /\ span bs' = span bs).
Proof.
  pose proof HL as [Hu Hinfo _ _ _].
  assert (Hu0 : 0 < unit_size) by lia.
  induction rs as [|r rs IH]; intros m i bs held Hat Hok His Hheld Hasks Hfuel.
  - apply returns_ret. exists i, bs. split; [exact Hat|].
    split; [repeat split|]. split; [exact His|].
    split; [exact Hheld|reflexivity].
  - apply Forall_cons in Hasks as [Hask Hasks].
    pose proof Hok as [Hbase Htop Hmin Hhead].
    destruct r as [n_obj|k]; cbn [serve].
    + (* an allocation *)
      cbn [asks_bytes] in Hask.
      pose proof (u64_range (n_obj * sizeof_T)) as Hrange.
      fold (mul64 n_obj sizeof_T) in Hrange.
      assert (Hbytes : 0 < mul64 n_obj sizeof_T < 2 ^ 64) by lia.
      apply returns_bind. eapply returns_weaken.
      { apply (allocate_b_arena m this i bs _ fuel Hat Hok His Hbytes).
        apply (fuel_enough m i bs fuel Hok His Hfuel). }
      cbn beta zeta.
      intros ptr m' (i' & Hat' & Hsame & Hres).
      pose proof (arena_ok_same i i' Hok Hsame) as Hok'.
      pose proof Hsame as (Hb' & Hh' & Hc').
      destruct Hres as [(-> & Hfs' & His')
                       |(bs1 & s & bs2 & Hbs & Hfit & Hptr & Hfs' & Hrow')].
      * cbn [Z.eqb]. eapply returns_weaken.
        { apply (IH m' i' bs held Hat' Hok' His'
                   (holds_same _ _ _ _ Hsame Hheld) Hasks).
          rewrite Hc'. exact Hfuel. }
        cbn beta. intros held' m'' (i'' & bs'' & H1 & H2 & H3 & H4 & H5).
        exists i'', bs''. split; [exact H1|].
        split; [exact (same_place_trans _ _ _ Hsame H2)|]. auto.
      * pose proof Hrow' as (_ & _ & Hlaid' & _ & Hend' & _).
        pose proof (laid_out_positive _ _ _ _ Hlaid') as Hpos'.
        apply Forall_app in Hpos' as [Hpos1 Hpos2].
        apply Forall_app in Hpos2 as [_ Hpos2].
        pose proof (span_nonneg _ Hpos1 Hu0) as Hsp1.
        pose proof (span_nonneg _ Hpos2 Hu0) as Hsp2.
        rewrite !span_app, span_carve in Hend'.
        destruct (blocks_needed_spec HL _ Hbytes) as [Hn _].
        set (n := Static.blocks_needed (mul64 n_obj sizeof_T)) in *.
        assert (Hnu : unit_size <= n * unit_size) by (apply units_one; lia).
        assert (Hsn : 0 <= (s - n) * unit_size)
          by (pose proof (units_le n s unit_size Hu0 Hfit); lia).
        assert (Hptr0 : ptr <> 0) by lia.
        rewrite (proj2 (Z.eqb_neq ptr 0) Hptr0).
        eapply returns_weaken.
        { apply (IH m' i' (bs1 ++ carve s n ++ bs2) (held ++ [(ptr, n_obj)])
                   Hat' Hok'); [right; exact Hrow'| |exact Hasks
                                |rewrite Hc'; exact Hfuel].
          destruct Hheld as [Hperm Hin]. split.
          - rewrite fmap_app, Hh', live_blocks_carve. cbn [fmap list_fmap].
            unfold block_of at 2. cbn [fst snd]. fold n.
            rewrite Hperm, Hbs, live_blocks_free, <- Hptr.
            etransitivity; [|apply Permutation_middle]. symmetry.
            apply Permutation_cons_append.
          - apply Forall_app. split.
            + eapply Forall_impl; [exact Hin|]. intros [q c].
              unfold range_within. rewrite Hb', Hc'. auto.
            + constructor; [|constructor]. cbn [fst snd].
              replace ptr
                with (free_memory_map i + unit_size + span bs1
                      + (s - n) * unit_size + unit_size) by lia.
              apply (payload_in_bounds HL); rewrite ?Hb', ?Hc'; lia. }
        cbn beta. intros held' m'' (i'' & bs'' & H1 & H2 & H3 & H4 & H5).
        exists i'', bs''. split; [exact H1|].
        split; [exact (same_place_trans _ _ _ Hsame H2)|].
        split; [exact H3|]. split; [exact H4|].
        rewrite H5, Hbs, !span_app, span_carve. cbn [span block_size]. lia.
    + (* a release *)
      destruct (held !! k) as [[ptr n_obj]|] eqn:Hk;
        [|apply IH; assumption].
      destruct Hheld as [Hperm Hin].
      set (s := Static.blocks_needed (mul64 n_obj sizeof_T)).
      assert (Hin_ptr :
        (ptr, s) ∈ live_blocks (free_memory_map i + unit_size) bs).
      { rewrite <- Hperm. apply list_elem_of_fmap. exists (ptr, n_obj).
        split; [reflexivity|]. eapply list_elem_of_lookup_2. exact Hk. }
      destruct (elem_of_live_blocks _ _ _ _ Hin_ptr)
        as (bs1 & bs2 & Hbs & Hptr).
      assert (Hrow : arena_row m i bs).
      { destruct His as [(_ & _ & Hone)|Hrow]; [|exact Hrow].
        rewrite Hone in Hin_ptr. cbn [live_blocks] in Hin_ptr.
        inversion Hin_ptr. }
      assert (Hrange : range_within i ptr n_obj).
      { rewrite Forall_forall in Hin.
        apply (Hin (ptr, n_obj)). eapply list_elem_of_lookup_2. exact Hk. }
      rewrite Hbs in Hrow. rewrite Hptr in *.
      pose proof (row_block_address HL _ _ _ _ _ Hok Hrow) as Hb.
      pose proof Hat as [Hp Hi].
      apply returns_bind. eapply returns_deallocate; [exact Hat|lia|exact Hrange|].
      rewrite block_sub_add by exact Hb.
      eapply returns_weaken.
      { apply (release_row HL fuel _ m i bs1 s bs2 Hp Hi Hok Hrow).
        rewrite <- Hbs. apply (fuel_enough m i bs fuel Hok His Hfuel). }
      cbn beta. intros [] m' (i' & Hi' & Hsame & Hfs' & Hrow').
      assert (Hat' : arena_at m' this i') by (split; assumption).
      pose proof (arena_ok_same i i' Hok Hsame) as Hok'.
      pose proof Hsame as (Hb' & Hh' & Hc').
      eapply returns_weaken.
      { apply (IH m' i' (release_block bs1 s bs2) (delete k held) Hat' Hok');
          [right; exact Hrow'| |exact Hasks|rewrite Hc'; exact Hfuel].
        split.
        - rewrite list_fmap_delete, Hh', live_blocks_release.
          apply (Permutation_cons_inv
                   (a := (free_memory_map i + unit_size + span bs1 + unit_size,
                          s))).
          rewrite <- delete_Permutation
            by (rewrite list_lookup_fmap, Hk; reflexivity).
          rewrite Hperm, Hbs, live_blocks_live.
          symmetry. apply Permutation_middle.
        - apply Forall_delete. eapply Forall_impl; [exact Hin|].
          intros [q c]. unfold range_within. rewrite Hb', Hc'. auto. }
      cbn beta. intros held' m'' (i'' & bs'' & H1 & H2 & H3 & H4 & H5).
      exists i'', bs''. split; [exact H1|].
      split; [exact (same_place_trans _ _ _ Hsame H2)|].
      split; [exact H3|]. split; [exact H4|].
      rewrite H5, Hbs. apply span_release_block.
Qed.

(** A row of one free block is the free list [unified] looks for. *)
Lemma unified_one_block (m : memory) (this : Static_Allocator)
    (i : allocator_info_t) (s : Z) :
  arena_at m this i ->
  arena_ok i ->
  arena_row m i [free_block s] ->
  Static.unified this m = Ret true m.
Proof.
  intros Hat [Hbase Htop Hmin Hhead] (Hs0 & Hn0 & Hlaid & _ & Hend & Hfl & Hfs).
  pose proof HL as [Hu Hinfo _ _ _].
  cbn [laid_out first_free span block_size free_addresses is_free] in *.
  destruct Hlaid as (Hs & Hs1 & Hn1 & _).
  apply (unified_whole HL m this i s Hat); [lia|lia|].
  unfold whole. split.
  { apply elem_of_cons in Hfl as [Hfl|Hfl]; [left; exact Hfl|right].
    apply list_elem_of_singleton in Hfl. exact Hfl. }
  split; [exact Hs0|]. split; [exact Hn0|]. split; [exact Hs1|].
  split; [exact (Hn1 eq_refl)|]. split; [lia|]. split; [lia|exact Hfs].
Qed.

(** X5.  Any client.  From an arena as the constructor leaves it, with room for
    one unit at least, every sequence of allocations of a size that is not
    zero and of releases of pointers the client holds returns, when the
    budget of iterations is the number of units of the capacity plus one.
    The pointers then held are distinct and pass the bounds check with their
    counts; the arena is a row whose live blocks are the blocks of these
    pointers; and when none is held the row is the one free block of the
    start, and [unified()] is true if the free list was ever built. *)
Theorem any_client (m : memory) (this : Static_Allocator)
    (i : allocator_info_t) (rs : list request) (fuel : nat) :
  arena_at m this i ->
  arena_ok i ->
  pristine i ->
  unit_size <= free_size i ->
  Forall asks_bytes rs ->
  (Z.to_nat (capacity i / unit_size) + 1 <= fuel)%nat ->
  returns (serve this fuel rs []) m
    (fun held m' =>
       NoDup held.*1
       /\ Forall (fun h => range_within i h.1 h.2) held
       /\ exists i' bs,
            arena_at m' this i'
            /\ same_place i i'
            /\ arena_is m' i' bs
            /\ holds i' bs held
            /\ (held = [] ->
                bs = [free_block (free_size i / unit_size)]
                /\ (free_list i' <> 0 ->
                    Static.unified this m' = Ret true m'))).
Proof.
  intros Hat Hok Hpr Hroom Hasks Hfuel.
  pose proof HL as [Hu Hinfo _ _ _].
  assert (Hu0 : 0 < unit_size) by lia.
  set (S0 := free_size i / unit_size).
  assert (His : arena_is m i [free_block S0]).
  { left. repeat split; try apply Hpr; assumption. }
  assert (Hheld : holds i [free_block S0] []).
  { split; [reflexivity|constructor]. }
  eapply returns_weaken.
  { apply (serve_ok this fuel rs m i _ [] Hat Hok His Hheld Hasks Hfuel). }
  cbn beta. intros held m' (i' & bs & Hat' & Hsame & His' & Hheld' & Hspan).
  pose proof (arena_ok_same i i' Hok Hsame) as Hok'.
  pose proof Hsame as (Hb' & Hh' & Hc').
  pose proof Hheld' as [Hperm Hin].
  pose proof (arena_is_sized _ _ _ His') as Hpos.
  split.
  { assert (Heq : held.*1 = (block_of <$> held).*1).
    { rewrite <- list_fmap_compose. reflexivity. }
    rewrite Heq, Hperm. apply live_blocks_NoDup; assumption. }
  split.
  { eapply Forall_impl; [exact Hin|]. intros [q c]. unfold range_within.
    rewrite Hb', Hc'. auto. }
  exists i', bs. split; [exact Hat'|]. split; [exact Hsame|].
  split; [exact His'|]. split; [exact Hheld'|].
  intros ->. cbn [fmap list_fmap] in Hperm.
  symmetry in Hperm. apply Permutation_nil_r in Hperm.
  assert (Hco : coalesced bs).
  { destruct His' as [(_ & _ & ->)|(_ & _ & _ & Hco & _)]; [exact I|exact Hco]. }
  assert (Hs1 : 1 <= S0) by (apply Z.div_le_lower_bound; lia).
  assert (Hbs : bs = [free_block S0]).
  { cbn [span block_size] in Hspan.
    destruct (all_free_coalesced _ _ Hperm Hco) as [->|(s & ->)];
      cbn [span block_size] in Hspan;
      pose proof (units_one S0 unit_size Hu0) as HS0; [lia|].
    do 2 f_equal. apply (units_same s S0 unit_size Hu0). lia. }
  split; [exact Hbs|]. intros Hfl.
  destruct His' as [([Hfl0 _] & _)|Hrow]; [contradiction|].
  rewrite Hbs in Hrow.
  exact (unified_one_block m' this i' S0 Hat' Hok' Hrow).
Qed.

(** Every count a client holds a pointer with is a count it held or
    asked for. *)
Lemma serve_counts (this : Static_Allocator) (fuel : nat) (rs : list request) :
  forall (held : list (Z * Z)) (m : memory) (held' : list (Z * Z))
         (m' : memory),
    serve this fuel rs held m = Ret held' m' ->
    Forall (fun h => h.2 ∈ held.*2 \/ ask h.2 ∈ rs) held'.
Proof.
  induction rs as [|r rs IH]; intros held m held' m' Hrun.
  - injection Hrun as <- <-. apply Forall_forall. intros h Hh. left.
    apply list_elem_of_fmap. exists h. auto.
  - destruct r as [n_obj|k]; cbn [serve] in Hrun.
    + unfold bind in Hrun.
      destruct (Static.allocate this n_obj fuel m) as [ptr m1| | | |];
        try discriminate Hrun.
      apply IH in Hrun. eapply Forall_impl; [exact Hrun|].
      cbn beta. intros h [Hh|Hh]; [|right; right; exact Hh].
      destruct (ptr =? 0); [left; exact Hh|].
      rewrite fmap_app in Hh. apply elem_of_app in Hh as [Hh|Hh];
        [left; exact Hh|right].
      apply list_elem_of_singleton in Hh. cbn [snd] in Hh. rewrite Hh. left.
    + destruct (held !! k) as [[ptr n_obj]|] eqn:Hk.
      * unfold bind in Hrun.
        destruct (Static.deallocate this ptr n_obj fuel m) as [[] m1| | | |];
          try discriminate Hrun.
        apply IH in Hrun. eapply Forall_impl; [exact Hrun|].
        cbn beta. intros h [Hh|Hh]; [left|right; right; exact Hh].
        rewrite list_fmap_delete in Hh.
        eapply list_elem_of_delete_inv. exact Hh.
      * apply IH in Hrun. eapply Forall_impl; [exact Hrun|].
        cbn beta. intros h [Hh|Hh]; [left; exact Hh|right; right; exact Hh].
Qed.

(** X6.  Any client, the memory it is given.  From an arena as the
    constructor leaves it, with room for one unit at least, after every
    sequence of allocations of a size that the rounding does not wrap around
    and of releases of pointers the client holds, the objects of every
    pointer held lie in the arena after the header and the first two units,
    and the objects of one pointer end before the header of the block of any
    other. *)
Theorem any_client_apart (m : memory) (this : Static_Allocator)
    (i : allocator_info_t) (rs : list request) (fuel : nat) :
  arena_at m this i ->
  arena_ok i ->
  pristine i ->
  unit_size <= free_size i ->
  Forall asks_room rs ->
  (Z.to_nat (capacity i / unit_size) + 1 <= fuel)%nat ->
  returns (serve this fuel rs []) m
    (fun held _ =>
       Forall (fun h =>
                 static_memory_map i + info_size + 2 * unit_size <= h.1
                 /\ h.1 + h.2 * sizeof_T
                    <= static_memory_map i + capacity i) held
       /\ forall j k h1 h2,
            held !! j = Some h1 -> held !! k = Some h2 -> j <> k ->
            h1.1 + h1.2 * sizeof_T <= h2.1 - unit_size
            \/ h2.1 + h2.2 * sizeof_T <= h1.1 - unit_size).
Proof.
  intros Hat Hok Hpr Hroom Hasks Hfuel.
  pose proof HL as [Hu Hinfo _ _ _].
  assert (Hu0 : 0 < unit_size) by lia.
  pose proof Hok as [Hbase Htop Hmin Hhead].
  set (S0 := free_size i / unit_size).
  assert (His : arena_is m i [free_block S0]).
  { left. repeat split; try apply Hpr; assumption. }
  assert (Hheld : holds i [free_block S0] []).
  { split; [reflexivity|constructor]. }
  assert (Hbytes : Forall asks_bytes rs).
  { eapply Forall_impl; [exact Hasks|]. intros [n_obj|k]; cbn; [|auto].
    intros [Hpos Hend]. rewrite mul64_small by lia. lia. }
  destruct (serve_ok this fuel rs m i _ [] Hat Hok His Hheld Hbytes Hfuel)
    as (held & m' & Hrun & i' & bs & Hat' & Hsame & His' & [Hperm Hin] & Hspan).
  exists held, m'. split; [exact Hrun|].
  pose proof Hsame as (Hb' & Hh' & Hc').
  pose proof (arena_is_sized _ _ _ His') as Hpos.
  (* every count held was asked for *)
  assert (Hcounts : Forall (fun h => asks_room (ask h.2)) held).
  { pose proof (serve_counts this fuel rs [] m held m' Hrun) as Hc.
    eapply Forall_impl; [exact Hc|]. cbn beta. intros h [Hh|Hh].
    - cbn in Hh. inversion Hh.
    - rewrite Forall_forall in Hasks. exact (Hasks _ Hh). }
  (* the block of every pointer held *)
  assert (Hblock : forall h, h ∈ held ->
    exists s, (h.1, s) ∈ live_blocks (free_memory_map i + unit_size) bs
              /\ h.2 * sizeof_T <= (s - 1) * unit_size
              /\ static_memory_map i + info_size + unit_size + span bs
                 <= static_memory_map i + capacity i).
  { intros h Hh. exists (Static.blocks_needed (mul64 h.2 sizeof_T)).
    assert (Hb : block_of h
                   ∈ live_blocks (free_memory_map i + unit_size) bs).
    { rewrite <- Hh', <- Hperm. apply list_elem_of_fmap_2. exact Hh. }
    split; [exact Hb|].
    rewrite Forall_forall in Hcounts. destruct (Hcounts h Hh) as [Hp Hend].
    rewrite mul64_small by lia.
    assert (Hb64 : 0 < h.2 * sizeof_T < 2 ^ 64) by lia.
    destruct (blocks_needed_spec HL _ Hb64) as [_ [[_ Hle]|[Hover _]]];
      [|lia].
    split; [lia|].
    destruct His' as [(_ & _ & Hone)|(_ & _ & _ & _ & Hend' & _)].
    - rewrite Hone in Hb. cbn [live_blocks] in Hb. inversion Hb.
    - rewrite Hh', Hb' , Hc' in Hend'. lia. }
  split.
  - apply Forall_forall. intros h Hh.
    destruct (Hblock h Hh) as (s & Hb & Hle & Hend).
    pose proof (live_blocks_bounds _ _ _ _ Hpos Hu0 Hb). lia.
  - intros j k h1 h2 Hj Hk Hjk.
    destruct (Hblock h1 (list_elem_of_lookup_2 _ _ _ Hj))
      as (s1 & Hb1 & Hle1 & _).
    destruct (Hblock h2 (list_elem_of_lookup_2 _ _ _ Hk))
      as (s2 & Hb2 & Hle2 & _).
    assert (Hnd : NoDup held.*1).
    { assert (Heq : held.*1 = (block_of <$> held).*1).
      { rewrite <- list_fmap_compose. reflexivity. }
      rewrite Heq, Hperm. apply live_blocks_NoDup; assumption. }
    assert (Hne : h1.1 <> h2.1).
    { intros Heq. apply Hjk.
      apply (NoDup_lookup _ j k h1.1 Hnd); rewrite list_lookup_fmap.
      - rewrite Hj. reflexivity.
      - rewrite Hk, Heq. reflexivity. }
    destruct (live_blocks_apart _ _ _ _ _ _ Hpos Hu0 Hb1 Hb2 Hne); lia.
Qed.

End Client.

(** ** The scenarios *)

Section ScenarioFacts.
Local Existing Instance lp64_int.
Local Existing Instance obliging_system.

Lemma obliging_system_ok : obliging.
Proof. intros tr e. reflexivity. Qed.

Lemma arena_at_fresh_4096 : arena_at fresh_4096 arena_4096 info_fresh_4096.
Proof. split; [discriminate|vm_compute; reflexivity]. Qed.

Lemma arena_at_one_int_4096 :
  arena_at one_int_4096 arena_4096 info_one_int_4096.
Proof. split; [discriminate|vm_compute; reflexivity]. Qed.

Lemma arena_at_full_4096 : arena_at full_4096 arena_4096 info_full_4096.
Proof. split; [discriminate|vm_compute; reflexivity]. Qed.

Lemma arena_ok_fresh_4096 : arena_ok info_fresh_4096.
Proof. constructor; cbn; lia. Qed.

Lemma pristine_fresh_4096 : pristine info_fresh_4096.
Proof. split; reflexivity. Qed.

(** The rounding of a request to units of 32 bytes, one of them for the
    header: 4 bytes need 2 units and 3936 bytes need 124, while [2^64 - 1]
    bytes wrap around to 1 unit and [2^64 - 33] bytes are rounded to [2^59]
    units, that is [2^64] bytes, which wrap around to 0. *)
Example blocks_needed_values :
  Static.blocks_needed 4 = 2
  /\ Static.blocks_needed 3936 = 124
  /\ Static.blocks_needed (2 ^ 64 - 1) = 1
  /\ Static.blocks_needed (2 ^ 64 - 33) = 2 ^ 59
  /\ mul64 (Static.blocks_needed (2 ^ 64 - 33)) unit_size = 0.
Proof. vm_compute. repeat split; reflexivity. Qed.

(** The free-byte count after every call of two one-[int] allocations
    and their releases on a fresh arena of 3992 usable bytes: each
    allocation takes 64 bytes, the first release gives 64 back, the second
    adds 128. *)
Example two_blocks_free_size :
  value_of (two_blocks fresh_4096) = Some [3992; 3928; 3864; 3928; 4056].
Proof. vm_compute. reflexivity. Qed.

(** Three adjacent allocations A, B, C of 64 bytes each on a fresh arena of
    3992 usable bytes, released in each of the six orders: [unified()] is
    true every time, and [free_size()] is 3992 only when the blocks are
    released by ascending address (C, B, A). *)
Example three_blocks_orders :
  value_of (three_blocks [1; 0; 2]%nat fresh_4096)
    = Some ([8104; 8040; 7976], true, 4120)
  /\ value_of (three_blocks [0; 1; 2]%nat fresh_4096)
    = Some ([8104; 8040; 7976], true, 4184)
  /\ value_of (three_blocks [0; 2; 1]%nat fresh_4096)
    = Some ([8104; 8040; 7976], true, 4056)
  /\ value_of (three_blocks [1; 2; 0]%nat fresh_4096)
    = Some ([8104; 8040; 7976], true, 4056)
  /\ value_of (three_blocks [2; 0; 1]%nat fresh_4096)
    = Some ([8104; 8040; 7976], true, 4056)
  /\ value_of (three_blocks [2; 1; 0]%nat fresh_4096)
    = Some ([8104; 8040; 7976], true, 3992).
Proof. vm_compute. repeat split; reflexivity. Qed.

(** Two requests that wrap around on a fresh arena with 3992 free bytes.
    [2^64 - 1] bytes are rounded to one unit: the call returns a pointer
    that is not null and takes 32 bytes.  [2^64 - 33] bytes are rounded to
    [2^59] units, whose size in bytes wraps to 0: the call returns null only
    after the free list has been built. *)
Example allocate_b_wraps :
  value_of (Static.allocate_b arena_4096 (2 ^ 64 - 1) 4 fresh_4096) = Some 8136
  /\ value_of (Static.free_size arena_4096
       (state_of (Static.allocate_b arena_4096 (2 ^ 64 - 1) 4 fresh_4096)
          fresh_4096)) = Some 3960
  /\ value_of (Static.allocate_b arena_4096 (2 ^ 64 - 33) 4 fresh_4096) = Some 0
  /\ free_list <$> infos fresh_4096 !! 4096 = Some 0
  /\ free_list <$> infos
       (state_of (Static.allocate_b arena_4096 (2 ^ 64 - 33) 4 fresh_4096)
          fresh_4096) !! 4096 = Some 4136.
Proof. vm_compute. repeat split; reflexivity. Qed.

(** C7 as it is written fails: after one allocation that takes the whole
    free block, the free list is the sentinel alone, no block is free, and
    [unified()] is true. *)
Lemma unified_without_block :
  ~ (forall (m : memory) (this : Static_Allocator) (i : allocator_info_t)
            (l : list Z),
        arena_at m this i ->
        static_memory_map i <> 0 ->
        free_nodes m i l ->
        free_memory_map i ∈ l ->
        (Static.unified this m = Ret true m
         <-> length (real_blocks i l) = 1%nat)).
Proof.
  intros H.
  assert (Hnodes : free_nodes full_4096 info_full_4096 [4136]).
  { split; [split; [reflexivity|vm_compute; reflexivity]|].
    split; [apply NoDup_singleton|].
    intros Hin. apply list_elem_of_singleton in Hin. discriminate Hin. }
  assert (Hin : free_memory_map info_full_4096 ∈ [4136]).
  { apply list_elem_of_singleton. reflexivity. }
  assert (Hbase : static_memory_map info_full_4096 <> 0) by discriminate.
  destruct (H full_4096 arena_4096 info_full_4096 [4136]
              arena_at_full_4096 Hbase Hnodes Hin) as [Hlen _].
  assert (Hu : Static.unified arena_4096 full_4096 = Ret true full_4096)
    by (vm_compute; reflexivity).
  specialize (Hlen Hu). vm_compute in Hlen. discriminate Hlen.
Qed.

End ScenarioFacts.

(** ** Instances of the theorems *)

Section Instances.
Local Existing Instance lp64_int.
Local Existing Instance obliging_system.

Lemma construct_spec_witness :
  0 <= 4096 < 2 ^ 64
  /\ (Static.construct 4096 4096 empty_memory = Throw bad_alloc empty_memory
      <-> 4096 < info_size + 2 * unit_size).
Proof.
  split; [lia|].
  apply (construct_spec lp64_int_ok 4096 4096 empty_memory). lia.
Defined.

Lemma deallocate_rejects_witness :
  arena_at fresh_4096 arena_4096 info_fresh_4096
  /\ (100 = 0 \/ ~ range_within info_fresh_4096 100 1)
  /\ exists what,
      Static.deallocate arena_4096 100 1 4 fresh_4096
        = Throw (invalid_argument what) fresh_4096.
Proof.
  assert (Hout : 100 = 0 \/ ~ range_within info_fresh_4096 100 1).
  { right. intros [Hlow _]. cbn in Hlow. lia. }
  split; [exact arena_at_fresh_4096|]. split; [exact Hout|].
  exact (deallocate_rejects fresh_4096 arena_4096 info_fresh_4096 100 1 4
           arena_at_fresh_4096 Hout).
Defined.

Lemma deallocate_count_irrelevant_witness :
  arena_at one_int_4096 arena_4096 info_one_int_4096
  /\ range_within info_one_int_4096 8104 1
  /\ range_within info_one_int_4096 8104 2
  /\ Static.deallocate arena_4096 8104 1 4 one_int_4096
     = Static.deallocate arena_4096 8104 2 4 one_int_4096.
Proof.
  assert (H1 : range_within info_one_int_4096 8104 1).
  { split; [reflexivity|vm_compute; discriminate]. }
  assert (H2 : range_within info_one_int_4096 8104 2).
  { split; [reflexivity|vm_compute; discriminate]. }
  split; [exact arena_at_one_int_4096|]. split; [exact H1|]. split; [exact H2|].
  exact (deallocate_count_irrelevant one_int_4096 arena_4096
           info_one_int_4096 8104 1 2 4 arena_at_one_int_4096 H1 H2).
Defined.

Lemma deallocate_unchecked_witness :
  arena_at fresh_4096 arena_4096 info_fresh_4096
  /\ free_list info_fresh_4096 = 0
  /\ 4200 <> 0
  /\ range_within info_fresh_4096 4200 1
  /\ Static.deallocate arena_4096 4200 1 1 fresh_4096
     = Fault null_dereference fresh_4096.
Proof.
  assert (H1 : range_within info_fresh_4096 4200 1).
  { split; [reflexivity|vm_compute; discriminate]. }
  assert (H2 : 4200 <> 0) by discriminate.
  split; [exact arena_at_fresh_4096|]. split; [reflexivity|].
  split; [exact H2|]. split; [exact H1|].
  exact (proj2 (deallocate_unchecked fresh_4096 arena_4096 info_fresh_4096
                  4200 1 0 arena_at_fresh_4096 eq_refl H2 H1)).
Defined.

Lemma unified_spec_witness :
  exists r,
    Static.unified arena_4096 one_int_4096 = Ret r one_int_4096
    /\ (r = true
        <-> (length (real_blocks info_one_int_4096 [4136; 4168]%Z) <= 1)%nat).
Proof.
  apply (proj1 (unified_spec one_int_4096 arena_4096) info_one_int_4096
           [4136; 4168] arena_at_one_int_4096).
  - discriminate.
  - split; [split; [reflexivity|split; vm_compute; reflexivity]|].
    split.
    + apply NoDup_cons. split; [|apply NoDup_singleton].
      intros Hin. apply list_elem_of_singleton in Hin. discriminate Hin.
    + intros Hin. apply elem_of_cons in Hin as [Hin|Hin]; [discriminate Hin|].
      apply list_elem_of_singleton in Hin. discriminate Hin.
  - apply elem_of_cons. left. reflexivity.
Defined.

Lemma round_trip_witness :
  arena_at fresh_4096 arena_4096 info_fresh_4096
  /\ arena_ok info_fresh_4096
  /\ no_live_allocations fresh_4096 info_fresh_4096
  /\ Static.allocate arena_4096 1 4 fresh_4096 = Ret 8104 one_int_4096
  /\ 8104 <> 0
  /\ (2 <= 2)%nat
  /\ exists m2,
      Static.deallocate arena_4096 8104 1 2 one_int_4096 = Ret tt m2
      /\ Static.free_size arena_4096 fresh_4096
         = Ret (free_size info_fresh_4096) fresh_4096
      /\ Static.free_size arena_4096 m2 = Ret (free_size info_fresh_4096) m2
      /\ Static.unified arena_4096 m2 = Ret true m2.
Proof.
  assert (H1 : no_live_allocations fresh_4096 info_fresh_4096).
  { left. exact pristine_fresh_4096. }
  assert (H2 : Static.allocate arena_4096 1 4 fresh_4096 = Ret 8104 one_int_4096).
  { vm_compute. reflexivity. }
  assert (H3 : 8104 <> 0) by discriminate.
  assert (H4 : (2 <= 2)%nat) by lia.
  split; [exact arena_at_fresh_4096|]. split; [exact arena_ok_fresh_4096|].
  split; [exact H1|]. split; [exact H2|]. split; [exact H3|].
  split; [exact H4|].
  exact (round_trip lp64_int_ok fresh_4096 arena_4096 info_fresh_4096 1 4 2
           8104 one_int_4096 arena_at_fresh_4096 arena_ok_fresh_4096 H1 H2
           H3 H4).
Defined.

Lemma forward_merge_counts_twice_witness :
  arena_at fresh_4096 arena_4096 info_fresh_4096
  /\ arena_ok info_fresh_4096
  /\ pristine info_fresh_4096
  /\ mul64 1 sizeof_T <> 0
  /\ mul64 1 sizeof_T <> 0
  /\ Static.blocks_needed (mul64 1 sizeof_T)
       + Static.blocks_needed (mul64 1 sizeof_T)
     < free_size info_fresh_4096 / unit_size
  /\ value_of (release_in_order_made arena_4096 1 1 fresh_4096)
     = Some (4056, true).
Proof.
  assert (H1 : mul64 1 sizeof_T <> 0) by (vm_compute; discriminate).
  assert (H2 : Static.blocks_needed (mul64 1 sizeof_T)
               + Static.blocks_needed (mul64 1 sizeof_T)
               < free_size info_fresh_4096 / unit_size)
    by (vm_compute; reflexivity).
  split; [exact arena_at_fresh_4096|]. split; [exact arena_ok_fresh_4096|].
  split; [exact pristine_fresh_4096|]. split; [exact H1|].
  split; [exact H1|]. split; [exact H2|].
  destruct (forward_merge_counts_twice lp64_int_ok fresh_4096 arena_4096
              info_fresh_4096 1 1 arena_at_fresh_4096 arena_ok_fresh_4096
              pristine_fresh_4096 H1 H1 H2) as (r & m' & Hrun & Hr).
  rewrite Hrun, Hr. vm_compute. reflexivity.
Defined.

Lemma middle_block_first_witness :
  arena_at fresh_4096 arena_4096 info_fresh_4096
  /\ arena_ok info_fresh_4096
  /\ pristine info_fresh_4096
  /\ mul64 4 sizeof_T <> 0
  /\ 3 * Static.blocks_needed (mul64 4 sizeof_T)
     < free_size info_fresh_4096 / unit_size
  /\ value_of (release_middle_first arena_4096 4 fresh_4096)
     = Some (true, 4120).
Proof.
  assert (H1 : mul64 4 sizeof_T <> 0) by (vm_compute; discriminate).
  assert (H2 : 3 * Static.blocks_needed (mul64 4 sizeof_T)
               < free_size info_fresh_4096 / unit_size)
    by (vm_compute; reflexivity).
  split; [exact arena_at_fresh_4096|]. split; [exact arena_ok_fresh_4096|].
  split; [exact pristine_fresh_4096|]. split; [exact H1|]. split; [exact H2|].
  destruct (middle_block_first lp64_int_ok fresh_4096 arena_4096
              info_fresh_4096 4 arena_at_fresh_4096 arena_ok_fresh_4096
              pristine_fresh_4096 H1 H2) as (r & m' & Hrun & Hr).
  rewrite Hrun, Hr. vm_compute. reflexivity.
Defined.

Lemma allocate_b_rounding_wraps_witness :
  arena_at fresh_4096 arena_4096 info_fresh_4096
  /\ arena_ok info_fresh_4096
  /\ pristine info_fresh_4096
  /\ unit_size <= free_size info_fresh_4096 < 2 ^ 64 - 1
  /\ 2 ^ 64 - unit_size < 2 ^ 64 - 1 < 2 ^ 64
  /\ exists ptr m1,
      Static.allocate_b arena_4096 (2 ^ 64 - 1) 1 fresh_4096 = Ret ptr m1
      /\ ptr <> 0
      /\ free_size <$> infos m1 !! 4096 = Some 3960.
Proof.
  assert (H1 : unit_size <= free_size info_fresh_4096 < 2 ^ 64 - 1)
    by (cbn; lia).
  assert (H2 : 2 ^ 64 - unit_size < 2 ^ 64 - 1 < 2 ^ 64) by (cbn; lia).
  split; [exact arena_at_fresh_4096|]. split; [exact arena_ok_fresh_4096|].
  split; [exact pristine_fresh_4096|]. split; [exact H1|]. split; [exact H2|].
  destruct (allocate_b_rounding_wraps lp64_int_ok fresh_4096 arena_4096
              info_fresh_4096 (2 ^ 64 - 1) arena_at_fresh_4096
              arena_ok_fresh_4096 pristine_fresh_4096 H1 H2)
    as (ptr & m1 & Hrun & Hptr & i1 & Hi1 & Hfs & _).
  exists ptr, m1. split; [exact Hrun|]. split; [exact Hptr|].
  cbn [d_allocator_info_p arena_4096] in Hi1. rewrite Hi1. cbn.
  rewrite Hfs. reflexivity.
Defined.

Lemma shared_lifecycle_witness :
  obliging
  /\ (String.length "rosmem" <= MAX_SHM_MAP_NAME_SIZE)%nat
  /\ 0 < 65536
  /\ 65536 + map_info_size < 2 ^ 64
  /\ info_size + 2 * unit_size <= 4096
  /\ 4096 + map_info_size <= OFF_MAX
  /\ exists h w1,
      Shared.construct "rosmem" 4096 65536 empty_world = Ret h w1
      /\ ref_count <$> maps w1 !! 65536 = Some 1.
Proof.
  assert (H1 : (String.length "rosmem" <= MAX_SHM_MAP_NAME_SIZE)%nat)
    by (vm_compute; lia).
  assert (H2 : 0 < 65536) by lia.
  assert (H3 : 65536 + map_info_size < 2 ^ 64) by (cbn; lia).
  assert (H4 : info_size + 2 * unit_size <= 4096) by (cbn; lia).
  assert (H5 : 4096 + map_info_size <= OFF_MAX) by (vm_compute; discriminate).
  split; [exact obliging_system_ok|].
  split; [exact H1|]. split; [exact H2|]. split; [exact H3|].
  split; [exact H4|]. split; [exact H5|].
  destruct (shared_lifecycle lp64_int_ok obliging_system_ok "rosmem" 4096
              65536 empty_world H1 H2 H3 H4 H5)
    as (h & w1 & hdr & Hc & _ & (_ & Hm & _) & Hone & _).
  exists h, w1. split; [exact Hc|]. rewrite Hm. cbn. rewrite Hone. reflexivity.
Defined.

(** The test of the specification for the reference count: created with
    count 1, two copies bring it to 3, three destructions to 2, 1 and 0;
    the last one, and only it, destroys the semaphore, unmaps the segment
    and unlinks the name. *)
Example rosmem_reference_counting :
  value_of (rosmem_life empty_world) = Some [1; 2; 3; 2; 1]
  /\ (calls <$> world_of (rosmem_life empty_world))
     = Some [shm_open "rosmem"; ftruncate 4192; mmap 4192; close;
             ref_count_store 65536 1; sem_init 65536 1;
             sem_wait 65536; ref_count_store 65536 2; sem_post 65536;
             sem_wait 65536; ref_count_store 65536 3; sem_post 65536;
             sem_wait 65536; ref_count_store 65536 2; sem_post 65536;
             sem_wait 65536; ref_count_store 65536 1; sem_post 65536;
             sem_wait 65536; ref_count_store 65536 0; sem_post 65536;
             sem_destroy 65536; munmap 65536 4192; shm_unlink "rosmem"]
  /\ (objects <$> world_of (rosmem_life empty_world)) = Some ∅.
Proof. vm_compute. repeat split; reflexivity. Qed.

End Instances.

(** ** Instances of the theorems on rows, clients and regions *)

Section MoreInstances.
Local Existing Instance lp64_int.
Local Existing Instance obliging_system.

Lemma arena_ok_one_int_4096 : arena_ok info_one_int_4096.
Proof. constructor; cbn; lia. Qed.

Lemma arena_row_one_int_4096 :
  arena_row one_int_4096 info_one_int_4096 row_one_int_4096.
Proof.
  unfold arena_row, row_one_int_4096.
  cbn [laid_out coalesced block_size is_free].
  repeat apply conj; try exact I; try (intros H; discriminate H);
    try (intros _);
    try (vm_compute; reflexivity); try (vm_compute; discriminate).
  apply elem_of_cons. left. reflexivity.
Qed.

Lemma asks_bytes_two_buffers : Forall asks_bytes two_buffers.
Proof.
  unfold two_buffers.
  repeat (apply Forall_cons; split); try apply Forall_nil; try exact I;
    vm_compute; discriminate.
Qed.


Lemma allocate_b_rejects_witness :
  arena_at fresh_4096 arena_4096 info_fresh_4096
  /\ static_memory_map info_fresh_4096 <> 0
  /\ mul64 (2 ^ 62) sizeof_T = 0
  /\ Static.allocate arena_4096 (2 ^ 62) 1 fresh_4096
     = Throw (invalid_argument "Cannot allocate zero bytes") fresh_4096.
Proof.
  assert (H1 : static_memory_map info_fresh_4096 <> 0) by discriminate.
  assert (H2 : mul64 (2 ^ 62) sizeof_T = 0) by (vm_compute; reflexivity).
  split; [exact arena_at_fresh_4096|]. split; [exact H1|].
  split; [exact H2|].
  destruct (allocate_b_rejects fresh_4096 arena_4096 1) as (_ & _ & H).
  destruct (H info_fresh_4096 arena_at_fresh_4096 H1) as [_ Hcount].
  exact (proj1 (Hcount (2 ^ 62) 0 H2)).
Defined.

Lemma reverse_order_restores_witness :
  arena_at fresh_4096 arena_4096 info_fresh_4096
  /\ arena_ok info_fresh_4096
  /\ pristine info_fresh_4096
  /\ mul64 5 sizeof_T <> 0
  /\ mul64 3 sizeof_T <> 0
  /\ Static.blocks_needed (mul64 5 sizeof_T)
       + Static.blocks_needed (mul64 3 sizeof_T)
     < free_size info_fresh_4096 / unit_size
  /\ returns (release_in_reverse_order arena_4096 5 3) fresh_4096
       (fun r _ => r = (3992, true)).
Proof.
  assert (H1 : mul64 5 sizeof_T <> 0) by (vm_compute; discriminate).
  assert (H2 : mul64 3 sizeof_T <> 0) by (vm_compute; discriminate).
  assert (H3 : Static.blocks_needed (mul64 5 sizeof_T)
                 + Static.blocks_needed (mul64 3 sizeof_T)
               < free_size info_fresh_4096 / unit_size)
    by (vm_compute; reflexivity).
  split; [exact arena_at_fresh_4096|]. split; [exact arena_ok_fresh_4096|].
  split; [exact pristine_fresh_4096|]. split; [exact H1|].
  split; [exact H2|]. split; [exact H3|].
  exact (reverse_order_restores lp64_int_ok fresh_4096 arena_4096
           info_fresh_4096 5 3 arena_at_fresh_4096 arena_ok_fresh_4096
           pristine_fresh_4096 H1 H2 H3).
Defined.

Lemma allocate_b_row_witness :
  arena_at one_int_4096 arena_4096 info_one_int_4096
  /\ arena_ok info_one_int_4096
  /\ arena_row one_int_4096 info_one_int_4096 row_one_int_4096
  /\ 0 < 4 < 2 ^ 64
  /\ (count_free row_one_int_4096 + 1 <= 2)%nat
  /\ returns (Static.allocate_b arena_4096 4 2) one_int_4096
       (fun ptr _ => ptr <> 0).
Proof.
  assert (H1 : 0 < 4 < 2 ^ 64) by lia.
  assert (H2 : (count_free row_one_int_4096 + 1 <= 2)%nat)
    by (vm_compute; lia).
  split; [exact arena_at_one_int_4096|]. split; [exact arena_ok_one_int_4096|].
  split; [exact arena_row_one_int_4096|]. split; [exact H1|].
  split; [exact H2|].
  eapply returns_weaken.
  - exact (allocate_b_row lp64_int_ok one_int_4096 arena_4096
             info_one_int_4096 row_one_int_4096 4 2 arena_at_one_int_4096
             arena_ok_one_int_4096 arena_row_one_int_4096 H1 H2).
  - cbv zeta beta.
    intros ptr m' [(_ & _ & [Hlt|Hall])|(bs1 & s & bs2 & i' & H)].
    + vm_compute in Hlt. discriminate Hlt.
    + apply Forall_cons in Hall as [Hsmall _].
      specialize (Hsmall eq_refl). vm_compute in Hsmall. discriminate Hsmall.
    + exact (proj1 (proj2 (proj2 (proj2 (proj2 H))))).
Defined.

Lemma deallocate_row_witness :
  arena_at one_int_4096 arena_4096 info_one_int_4096
  /\ arena_ok info_one_int_4096
  /\ arena_row one_int_4096 info_one_int_4096
       ([free_block 122] ++ live_block 2 :: [])
  /\ range_within info_one_int_4096 8104 1
  /\ (count_free ([free_block 122] ++ live_block 2 :: []) + 1 <= 2)%nat
  /\ returns (Static.deallocate arena_4096 8104 1 2) one_int_4096
       (fun _ m' =>
          exists i',
            arena_at m' arena_4096 i'
            /\ free_size i' = 3992
            /\ arena_row m' i' [free_block 124]).
Proof.
  assert (H1 : range_within info_one_int_4096 8104 1).
  { split; [reflexivity|vm_compute; discriminate]. }
  assert (H2 : (count_free ([free_block 122] ++ live_block 2 :: []) + 1
                <= 2)%nat) by (vm_compute; lia).
  split; [exact arena_at_one_int_4096|]. split; [exact arena_ok_one_int_4096|].
  split; [exact arena_row_one_int_4096|]. split; [exact H1|].
  split; [exact H2|].
  eapply returns_weaken.
  - exact (deallocate_row lp64_int_ok one_int_4096 arena_4096
             info_one_int_4096 [free_block 122] 2 [] 1 2
             arena_at_one_int_4096 arena_ok_one_int_4096
             arena_row_one_int_4096 H1 H2).
  - cbv beta. intros _ m' (i' & Hat & _ & Hfs & Hrow).
    exists i'. split; [exact Hat|]. split; [exact Hfs|exact Hrow].
Defined.

Lemma any_client_witness :
  arena_at fresh_4096 arena_4096 info_fresh_4096
  /\ arena_ok info_fresh_4096
  /\ pristine info_fresh_4096
  /\ unit_size <= free_size info_fresh_4096
  /\ Forall asks_bytes two_buffers
  /\ (Z.to_nat (capacity info_fresh_4096 / unit_size) + 1 <= 129)%nat
  /\ returns (serve arena_4096 129 two_buffers []) fresh_4096
       (fun held _ => NoDup held.*1).
Proof.
  assert (H1 : unit_size <= free_size info_fresh_4096)
    by (vm_compute; discriminate).
  assert (H2 : (Z.to_nat (capacity info_fresh_4096 / unit_size) + 1
                <= 129)%nat) by (vm_compute; lia).
  split; [exact arena_at_fresh_4096|]. split; [exact arena_ok_fresh_4096|].
  split; [exact pristine_fresh_4096|]. split; [exact H1|].
  split; [exact asks_bytes_two_buffers|]. split; [exact H2|].
  eapply returns_weaken.
  - exact (any_client lp64_int_ok fresh_4096 arena_4096 info_fresh_4096
             two_buffers 129 arena_at_fresh_4096 arena_ok_fresh_4096
             pristine_fresh_4096 H1 asks_bytes_two_buffers H2).
  - cbv beta. intros held m' H. exact (proj1 H).
Defined.

Lemma any_client_apart_witness :
  arena_at fresh_4096 arena_4096 info_fresh_4096
  /\ arena_ok info_fresh_4096
  /\ pristine info_fresh_4096
  /\ unit_size <= free_size info_fresh_4096
  /\ Forall asks_room [ask 5; ask 3]
  /\ (Z.to_nat (capacity info_fresh_4096 / unit_size) + 1 <= 129)%nat
  /\ returns (serve arena_4096 129 [ask 5; ask 3] []) fresh_4096
       (fun held _ =>
          Forall (fun h => 4200 <= h.1 /\ h.1 + h.2 * 4 <= 8192) held).
Proof.
  assert (H1 : unit_size <= free_size info_fresh_4096)
    by (vm_compute; discriminate).
  assert (H2 : Forall asks_room [ask 5; ask 3]).
  { repeat (apply Forall_cons; split); try (apply Forall_nil; exact I);
      (split; [reflexivity|vm_compute; discriminate]). }
  assert (H3 : (Z.to_nat (capacity info_fresh_4096 / unit_size) + 1
                <= 129)%nat) by (vm_compute; lia).
  split; [exact arena_at_fresh_4096|]. split; [exact arena_ok_fresh_4096|].
  split; [exact pristine_fresh_4096|]. split; [exact H1|].
  split; [exact H2|]. split; [exact H3|].
  eapply returns_weaken.
  - exact (any_client_apart lp64_int_ok fresh_4096 arena_4096
             info_fresh_4096 [ask 5; ask 3] 129 arena_at_fresh_4096
             arena_ok_fresh_4096 pristine_fresh_4096 H1 H2 H3).
  - cbv beta. intros held m' H. exact (proj1 H).
Defined.

Lemma construct_name_too_long_witness :
  (MAX_SHM_MAP_NAME_SIZE
   < String.length "a_name_of_more_than_thirty_two_characters")%nat
  /\ Shared.construct "a_name_of_more_than_thirty_two_characters" 4096 65536
       empty_world
     = Throw (invalid_argument "Shared map name too long") empty_world.
Proof.
  assert (H1 : (MAX_SHM_MAP_NAME_SIZE
                < String.length "a_name_of_more_than_thirty_two_characters")%nat)
    by (vm_compute; lia).
  split; [exact H1|].
  exact (construct_name_too_long
           "a_name_of_more_than_thirty_two_characters" 4096 65536
           empty_world H1).
Defined.


Lemma fresh_region_reports_witness :
  obliging
  /\ (String.length "rosmem" <= MAX_SHM_MAP_NAME_SIZE)%nat
  /\ 0 < 65536
  /\ 65536 + map_info_size < 2 ^ 64
  /\ info_size + 2 * unit_size <= 4096
  /\ 4096 + map_info_size <= OFF_MAX
  /\ returns (fresh_region_report "rosmem" 4096 65536) empty_world
       (fun r _ => r = (3992, false)).
Proof.
  assert (H1 : (String.length "rosmem" <= MAX_SHM_MAP_NAME_SIZE)%nat)
    by (vm_compute; lia).
  assert (H2 : 0 < 65536) by lia.
  assert (H3 : 65536 + map_info_size < 2 ^ 64) by (cbn; lia).
  assert (H4 : info_size + 2 * unit_size <= 4096) by (cbn; lia).
  assert (H5 : 4096 + map_info_size <= OFF_MAX) by (vm_compute; discriminate).
  split; [exact obliging_system_ok|].
  split; [exact H1|]. split; [exact H2|]. split; [exact H3|].
  split; [exact H4|]. split; [exact H5|].
  exact (fresh_region_reports lp64_int_ok obliging_system_ok "rosmem" 4096
           65536 empty_world H1 H2 H3 H4 H5).
Defined.


Lemma deallocate_bounds_wrap_witness :
  arena_at one_int_4096 arena_4096 info_one_int_4096
  /\ arena_ok info_one_int_4096
  /\ arena_row one_int_4096 info_one_int_4096
       ([free_block 122] ++ live_block 2 :: [])
  /\ 0 <= 4611686018427386902 < 2 ^ 64
  /\ 4096 + 4096 < 8104 + 4611686018427386902 * 4
  /\ add64 8104 (mul64 4611686018427386902 4) <= 4096 + 4096
  /\ (count_free ([free_block 122] ++ live_block 2 :: []) + 1 <= 2)%nat
  /\ returns (Static.deallocate arena_4096 8104 4611686018427386902 2)
       one_int_4096
       (fun _ m' =>
          exists i',
            arena_at m' arena_4096 i'
            /\ free_size i' <> 3928
            /\ arena_row m' i' [free_block 124]).
Proof.
  assert (H1 : 0 <= 4611686018427386902 < 2 ^ 64) by lia.
  assert (H2 : 4096 + 4096 < 8104 + 4611686018427386902 * 4) by lia.
  assert (H3 : add64 8104 (mul64 4611686018427386902 4) <= 4096 + 4096)
    by (vm_compute; discriminate).
  assert (H4 : (count_free ([free_block 122] ++ live_block 2 :: []) + 1
                <= 2)%nat) by (vm_compute; lia).
  split; [exact arena_at_one_int_4096|]. split; [exact arena_ok_one_int_4096|].
  split; [exact arena_row_one_int_4096|]. split; [exact H1|].
  split; [exact H2|]. split; [exact H3|]. split; [exact H4|].
  eapply returns_weaken.
  - exact (deallocate_bounds_wrap lp64_int_ok one_int_4096 arena_4096
             info_one_int_4096 [free_block 122] 2 [] 4611686018427386902 2
             arena_at_one_int_4096 arena_ok_one_int_4096
             arena_row_one_int_4096 H1 H2 H3 H4).
  - cbv beta. intros _ m' (i' & Hat & _ & Hfs & Hrow).
    exists i'. split; [exact Hat|]. split; [exact Hfs|exact Hrow].
Defined.

End MoreInstances.
